(** * BigDeckAI: deck-list parsing, validation and aggregation

    A shallow embedding of the pure core of BigDeckAI and the properties
    its specification states about it:
    - the deck-list validator ([parseDeckList], [validateParsedDeck],
      [removeDuplicates], [formatDeckList]);
    - [MetaAnalyzer.identifyTrends] (learning/metaAnalyzer.js);
    - [MoxfieldAPI.analyzeUserPatterns] (integrations/moxfield.js);
    - [RecommendationEngine] (learning/recommendationEngine.js);
    - [YouTubeLearner.importKnowledge] (learning/youtubeLearner.js).

    Conventions of the embedding.
    - A JavaScript string is a [string] of 8-bit code units (Latin-1);
      [toLowerCase], [trim] and the regular-expression classes are the
      JavaScript ones restricted to that range.
    - A JavaScript number holding an integer is a [Z]. The numbers of the
      program are binary64 values, which agree with [Z] and its exact sums
      up to 2^53; properties that depend on exact values say so in their
      hypotheses. The number read by [parseFloat] is the binary64 value
      nearest to the decimal literal, kept as a rational.
    - A plain object used as a dictionary is an [Obj.t]: its own
      properties in enumeration order (array indices first, in numeric
      order, then the other keys in the order of their creation), read
      through the properties inherited from [Object.prototype].
    - A JavaScript [Set] that is only tested and extended is a [gset].
    - Code that mutates its arguments or [this] returns the new state
      next to its result; code that throws returns an [except]. *)

From Stdlib Require Import ZArith QArith Ascii String List Sorted.
From stdpp Require Import base option list strings gmap pretty.

Open Scope Z_scope.

(** ** JavaScript string primitives *)

Module JsString.

Definition code (c : ascii) : N := N_of_ascii c.

(** WhiteSpace and LineTerminator code units below 256: the set removed
    by [String.prototype.trim] and matched by the class [\s]. *)
Definition is_ws (c : ascii) : bool :=
  let n := code c in
  ((9 <=? n) && (n <=? 13) || (n =? 32) || (n =? 160))%N.

(** The code units the regular-expression dot does not match. *)
Definition is_line_terminator (c : ascii) : bool :=
  let n := code c in ((n =? 10) || (n =? 13))%N.

(** The class [\d]. *)
Definition is_digit (c : ascii) : bool :=
  let n := code c in ((48 <=? n) && (n <=? 57))%N.

Definition lower_char (c : ascii) : ascii :=
  let n := code c in
  if ((65 <=? n) && (n <=? 90)
      || (192 <=? n) && (n <=? 222) && negb (n =? 215))%N
  then ascii_of_N (n + 32) else c.

Fixpoint toLowerCase (s : string) : string :=
  match s with
  | EmptyString => EmptyString
  | String c s' => String (lower_char c) (toLowerCase s')
  end.

Fixpoint trimStart (s : string) : string :=
  match s with
  | EmptyString => EmptyString
  | String c s' => if is_ws c then trimStart s' else s
  end.

Fixpoint trimEnd (s : string) : string :=
  match s with
  | EmptyString => EmptyString
  | String c s' =>
      match trimEnd s' with
      | EmptyString => if is_ws c then EmptyString else String c EmptyString
      | t => String c t
      end
  end.

Definition trim (s : string) : string := trimEnd (trimStart s).

Definition startsWith (s p : string) : bool := String.prefix p s.

(** [s.includes(sub)] *)
Fixpoint includes (s sub : string) : bool :=
  String.prefix sub s ||
  match s with
  | EmptyString => false
  | String _ s' => includes s' sub
  end.

Definition newline : ascii := "010"%char.

(** [s.split('\n')]: always at least one piece. *)
Fixpoint split_nl (s : string) : list string :=
  match s with
  | EmptyString => [EmptyString]
  | String c s' =>
      if Ascii.eqb c newline then EmptyString :: split_nl s'
      else match split_nl s' with
           | [] => [String c EmptyString]
           | l :: ls => String c l :: ls
           end
  end.

(** [lines.join('\n')] *)
Definition join_nl (ls : list string) : string :=
  String.concat (String newline EmptyString) ls.

(** Maximal prefix of digits, and what follows it. *)
Fixpoint span_digits (s : string) : string * string :=
  match s with
  | EmptyString => (EmptyString, EmptyString)
  | String c s' =>
      if is_digit c
      then let '(d, r) := span_digits s' in (String c d, r)
      else (EmptyString, s)
  end.

Definition digit_val (c : ascii) : Z := Z.of_N (code c) - 48.

Fixpoint parse_digits (acc : Z) (s : string) : Z :=
  match s with
  | EmptyString => acc
  | String c s' => parse_digits (10 * acc + digit_val c) s'
  end.

(** [parseInt(s, 10)] on a string of decimal digits: the integer the
    digits write. The Number the call returns is that integer when it is
    at most 2^53, as it is for up to 15 digits; a longer run of digits is
    rounded to the nearest binary64 value. *)
Definition parseInt (s : string) : Z := parse_digits 0 s.

(** [array.includes(x)] for an array of strings. *)
Definition list_includes (l : list string) (x : string) : bool :=
  existsb (String.eqb x) l.

(** [s] consists of decimal digits. *)
Fixpoint all_digits (s : string) : bool :=
  match s with
  | EmptyString => true
  | String c s' => is_digit c && all_digits s'
  end.

End JsString.

Import JsString.

(** ** The deck-list parser *)

Record CardEntry := mkCard { quantity : Z; name : string }.

Module LineRegex.

(** The expression [/^(\d+)x?\s+(.+)$/i]. *)

(** [(.+)$] against the whole remaining input. *)
Fixpoint no_line_terminator (s : string) : bool :=
  match s with
  | EmptyString => true
  | String c s' => negb (is_line_terminator c) && no_line_terminator s'
  end.

Definition dot_plus_end (s : string) : bool :=
  match s with
  | EmptyString => false
  | _ => no_line_terminator s
  end.

(** [\s*(.+)$] after one white-space unit has been consumed: the run
    of white space is taken greedily, and given back unit by unit when
    the rest does not match. *)
Fixpoint ws_then_rest (s : string) : option string :=
  match s with
  | EmptyString => None
  | String c s' =>
      if is_ws c then
        match ws_then_rest s' with
        | Some r => Some r
        | None => if dot_plus_end s then Some s else None
        end
      else if dot_plus_end s then Some s else None
  end.

(** [x?] under the flag [i]: taken whenever it is there (when what
    follows it is not white space, the expression fails either way). *)
Definition skip_x (s : string) : string :=
  match s with
  | String c s' =>
      if Ascii.eqb c "x"%char || Ascii.eqb c "X"%char then s' else s
  | EmptyString => s
  end.

(** The groups 1 and 2 of a match. *)
Definition exec (s : string) : option (string * string) :=
  let '(d, r) := span_digits s in
  match d with
  | EmptyString => None
  | _ =>
      match skip_x r with
      | String c r' =>
          if is_ws c then
            match ws_then_rest r' with
            | Some m => Some (d, m)
            | None => None
            end
          else None
      | EmptyString => None
      end
  end.

(** [/^\d/] *)
Definition leading_digit (s : string) : bool :=
  match s with
  | String c _ => is_digit c
  | EmptyString => false
  end.

End LineRegex.

Definition section_words : list string :=
  ["commander"; "creatures"; "lands"; "artifacts"; "enchantments";
   "instants"; "sorceries"; "planeswalkers"; "strategy"; "win condition"].

Definition is_section_label (trimmed : string) : bool :=
  existsb (fun w => includes (toLowerCase trimmed) w
                    && negb (LineRegex.leading_digit trimmed))
          section_words.

(** The body of the loop of [parseDeckList]: the entry pushed for a line,
    or [None] when the line is skipped or dropped. *)
Definition parseLine (line : string) : option CardEntry :=
  let trimmed := trim line in
  if String.eqb trimmed "" then None
  else if startsWith trimmed "#" || startsWith trimmed "**"
          || startsWith trimmed "###" then None
  else if is_section_label trimmed then None
  else
    match LineRegex.exec trimmed with
    | Some (g1, g2) => Some (mkCard (parseInt g1) (trim g2))
    | None =>
        if negb (String.eqb trimmed "") && negb (includes trimmed ":")
           && (2 <? Z.of_nat (String.length trimmed))
        then Some (mkCard 1 trimmed)
        else None
    end.

Definition parseDeckList (deckText : string) : list CardEntry :=
  omap parseLine (split_nl deckText).

(** ** Plain objects used as dictionaries

    The own properties of an object created by [{}], in the order in
    which [Object.keys] and [Object.entries] enumerate them: the keys
    that are array indices first, in ascending numeric order, then the
    other keys in the order of their creation. A key that is not an own
    property is looked up in [Object.prototype]. *)

(** What the program stores under a key it counts: a number, or the
    string that arises when a number is appended to an inherited
    property. [Text origin suffix] is the text of the property [origin]
    of [Object.prototype] followed by [suffix]; such a string is not
    empty and does not read as a number. *)
Inductive count :=
| Num (n : Z)
| Text (origin suffix : string).

(** The text of a property of [Object.prototype] converted to a string,
    as Node.js prints it (the language leaves the white space of the
    text of a built-in function open): [constructor] is the function
    [Object], [__proto__] reads the prototype object itself, every other
    property is a function of its own name. *)
Definition native_text (k : string) : string :=
  if String.eqb k "__proto__" then "[object Object]"
  else "function " +:+ (if String.eqb k "constructor" then "Object" else k)
       +:+ "() { [native code] }".

(** A stored value inside a template string. *)
Definition show (c : count) : string :=
  match c with
  | Num n => pretty n
  | Text origin suffix => native_text origin +:+ suffix
  end.

(** The value as an operand of [-], [<] and [>]: a number, or [None]
    for [NaN]. *)
Class Numeric (V : Type) := number_of : V -> option Z.

#[global] Instance Z_numeric : Numeric Z := Some.

#[global] Instance count_numeric : Numeric count :=
  fun c => match c with Num n => Some n | Text _ _ => None end.

Module Obj.

Definition t (V : Type) : Type := list (string * V).

Definition empty {V} : t V := [].

(** The names of the properties of [Object.prototype]. *)
Definition inherited : list string :=
  ["constructor"; "__defineGetter__"; "__defineSetter__"; "hasOwnProperty";
   "__lookupGetter__"; "__lookupSetter__"; "isPrototypeOf";
   "propertyIsEnumerable"; "toString"; "valueOf"; "__proto__";
   "toLocaleString"].

(** An array index: the canonical decimal writing of an integer from 0
    to 2^32 - 2. *)
Definition index_of (k : string) : option Z :=
  match k with
  | EmptyString => None
  | String c rest =>
      if all_digits k
         && (negb (Ascii.eqb c "0"%char) || String.eqb rest "")
         && (parseInt k <? 4294967295)
      then Some (parseInt k) else None
  end.

(** The own property [k], [None] when there is none. *)
Fixpoint own {V} (o : t V) (k : string) : option V :=
  match o with
  | [] => None
  | (k', v) :: o' => if String.eqb k' k then Some v else own o' k
  end.

(** The outcome of reading [o[k]]. *)
Inductive lookup (V : Type) :=
| Own (v : V)
| Inherited
| Undefined.
Arguments Own {V} v.
Arguments Inherited {V}.
Arguments Undefined {V}.

(** [o[k]] *)
Definition get {V} (o : t V) (k : string) : lookup V :=
  match own o k with
  | Some v => Own v
  | None => if list_includes inherited k then Inherited else Undefined
  end.

(** Writing a key that is not an array index: a present key keeps its
    place, a new key is appended. *)
Fixpoint assign {V} (o : t V) (k : string) (v : V) : t V :=
  match o with
  | [] => [(k, v)]
  | (k', v') :: o' =>
      if String.eqb k' k then (k', v) :: o' else (k', v') :: assign o' k v
  end.

(** Creating the array index [k], of value [n]: it goes after the
    smaller indices and before everything else. *)
Fixpoint place {V} (n : Z) (k : string) (v : V) (o : t V) : t V :=
  match o with
  | [] => [(k, v)]
  | (k', v') :: o' =>
      match index_of k' with
      | Some n' => if n <? n' then (k, v) :: o else (k', v') :: place n k v o'
      | None => (k, v) :: o
      end
  end.

(** [o[k] = v], for a value [v] that is not an object: the setter
    [__proto__] of [Object.prototype] ignores such a value, so no
    property is created under that key. *)
Definition set {V} (o : t V) (k : string) (v : V) : t V :=
  if String.eqb k "__proto__" then o
  else
    match own o k, index_of k with
    | None, Some n => place n k v o
    | _, _ => assign o k v
    end.

(** [Object.entries(o)] and [Object.keys(o)] *)
Definition entries {V} (o : t V) : list (string * V) := o.
Definition keys {V} (o : t V) : list string := map fst o.

(** [o[k] = (o[k] || 0) + 1] *)
Definition incr (o : t count) (k : string) : t count :=
  set o k (match get o k with
           | Own (Num n) => Num ((if n =? 0 then 0 else n) + 1)
           | Own (Text origin suffix) => Text origin (suffix +:+ "1")
           | Inherited => Text k "1"
           | Undefined => Num (0 + 1)
           end).

End Obj.

(** ** The format-legality validator *)

Definition BASIC_LANDS : list string :=
  ["plains"; "island"; "swamp"; "mountain"; "forest"; "wastes";
   "snow-covered plains"; "snow-covered island"; "snow-covered swamp";
   "snow-covered mountain"; "snow-covered forest"].

Definition isBasicLand (cardName : string) : bool :=
  list_includes BASIC_LANDS (toLowerCase cardName).

(** The second argument of [validateParsedDeck]; an absent property takes
    its default in the destructuring. *)
Record Options := mkOptions {
  opt_expectedSize : option Z;
  opt_isMonoColor : option bool
}.

Definition no_options : Options := mkOptions None None.

Record Duplicate := mkDuplicate { dup_name : string; dup_count : Z }.

Record ValidationResult := mkResult {
  isValid : bool;
  totalCards : Z;
  uniqueCards : nat;
  landCount : Z;
  hasDuplicates : bool;
  duplicates : list Duplicate;
  errors : list string;
  warnings : list string;
  cards : list CardEntry
}.

Definition dquote : string := String "034"%char "".

Definition duplicate_error (name : string) (count : Z) : string :=
  "Duplicate card: " +:+ dquote +:+ name +:+ dquote +:+ " appears "
  +:+ pretty count +:+ " times (singleton format allows only 1)".

Definition short_error (total expected : Z) : string :=
  "Deck has only " +:+ pretty total +:+ " cards (needs exactly "
  +:+ pretty expected +:+ ")".

Definition over_error (total expected : Z) : string :=
  "Deck has " +:+ pretty total +:+ " cards (maximum is "
  +:+ pretty expected +:+ ")".

Definition lands_warning (lands expected : Z) : string :=
  "Deck may have too few lands: ~" +:+ pretty lands
  +:+ " detected (recommended: " +:+ pretty expected +:+ ")".

(** The rough land detection. *)
Definition looks_like_land (nameLower : string) : bool :=
  includes nameLower "land"
  || list_includes BASIC_LANDS nameLower
  || includes nameLower "temple"
  || includes nameLower "fountain"
  || includes nameLower "shock"
  || includes nameLower "gate".

(** The state of the first loop: [cardCounts], [totalCards], [landCount]. *)
Record Tally := mkTally {
  cardCounts : Obj.t count;
  tally_total : Z;
  tally_lands : Z
}.

(** [if (cardCounts[k]) cardCounts[k] += q; else cardCounts[k] = q;]
    (a stored zero is falsy and is overwritten; a stored string and an
    inherited property are truthy, and [+=] appends the number to
    them). *)
Definition bump (counts : Obj.t count) (k : string) (q : Z) : Obj.t count :=
  match Obj.get counts k with
  | Obj.Own (Num n) =>
      if n =? 0 then Obj.set counts k (Num q)
      else Obj.set counts k (Num (n + q))
  | Obj.Own (Text origin suffix) =>
      Obj.set counts k (Text origin (suffix +:+ pretty q))
  | Obj.Inherited => Obj.set counts k (Text k (pretty q))
  | Obj.Undefined => Obj.set counts k (Num q)
  end.

Definition tally_card (st : Tally) (card : CardEntry) : Tally :=
  let nameLower := toLowerCase (name card) in
  mkTally
    (if negb (isBasicLand (name card))
     then bump (cardCounts st) nameLower (quantity card)
     else cardCounts st)
    (tally_total st + quantity card)
    (if looks_like_land nameLower
     then tally_lands st + quantity card else tally_lands st).

Definition tally (cards : list CardEntry) : Tally :=
  fold_left tally_card cards (mkTally Obj.empty 0 0).

(** [count > 1], and the entry with its count as the number it then
    is; a stored string compares as [NaN]. *)
Definition is_duplicate (e : string * count) : option (string * Z) :=
  match snd e with
  | Num n => if 1 <? n then Some (fst e, n) else None
  | Text _ _ => None
  end.

Definition size_errors (total expected : Z) : list string :=
  if negb (total =? expected) then
    if total <? expected then [short_error total expected]
    else [over_error total expected]
  else [].

Definition validateParsedDeck (cards : list CardEntry) (options : Options)
  : ValidationResult :=
  let expectedSize := default 100 (opt_expectedSize options) in
  let isMonoColor := default false (opt_isMonoColor options) in
  let st := tally cards in
  let dups := omap is_duplicate (Obj.entries (cardCounts st)) in
  let duplicates := map (fun e => mkDuplicate (fst e) (snd e)) dups in
  let errors :=
    map (fun e => duplicate_error (fst e) (snd e)) dups
    ++ size_errors (tally_total st) expectedSize in
  let expectedLands := if isMonoColor then 32 else 36 in
  let warnings :=
    if tally_lands st <? expectedLands - 5
    then [lands_warning (tally_lands st) expectedLands] else [] in
  mkResult
    (Nat.eqb (length errors) 0)
    (tally_total st)
    (length (Obj.keys (cardCounts st)))
    (tally_lands st)
    (Nat.ltb 0 (length duplicates))
    duplicates
    errors
    warnings
    cards.

Definition validateDeckList (deckText : string) (options : Options)
  : ValidationResult :=
  validateParsedDeck (parseDeckList deckText) options.

(** [removeDuplicates], with the set [seen] carried through the loop. *)
Fixpoint removeDuplicates_from (seen : gset string) (cards : list CardEntry)
  : list CardEntry :=
  match cards with
  | [] => []
  | card :: rest =>
      let nameLower := toLowerCase (name card) in
      if isBasicLand (name card) then
        card :: removeDuplicates_from seen rest
      else if decide (nameLower ∈ seen) then
        removeDuplicates_from seen rest
      else
        mkCard 1 (name card)
        :: removeDuplicates_from ({[nameLower]} ∪ seen) rest
  end.

Definition removeDuplicates (cards : list CardEntry) : list CardEntry :=
  removeDuplicates_from ∅ cards.

Definition formatDeckList (cards : list CardEntry) : string :=
  join_nl (map (fun c => "1x " +:+ name c) cards).

(** ** Shared JavaScript helpers *)

(** Plain JavaScript values, as far as the code handles them untyped
    (the result of [JSON.parse], [null]-or-string results). *)
#[warnings="-register-all"]
Inductive value :=
| VNull
| VBool (b : bool)
| VNum (n : Z)
| VStr (s : string)
| VArr (items : list value)
| VObj (fields : list (string * value)).

Definition truthy_string (s : string) : bool := negb (String.eqb s "").

(** Truthiness of an optional string property ([undefined] and the empty
    string are falsy). *)
Definition truthy_opt (o : option string) : bool :=
  match o with
  | Some s => truthy_string s
  | None => false
  end.

Module JsArray.

(** [array.sort()] on strings: ascending code-unit order. *)
Fixpoint insert_string (x : string) (l : list string) : list string :=
  match l with
  | [] => [x]
  | y :: l' => if String.leb x y then x :: l else y :: insert_string x l'
  end.

Definition sort_strings (l : list string) : list string :=
  foldr insert_string [] l.

(** [count(y) - count(x) > 0]: the comparator puts [x] after [y]. A
    difference with [NaN] is [NaN], which [sort] reads as 0. *)
Definition sorts_after {A} (number : A -> option Z) (x y : A) : bool :=
  match number x, number y with
  | Some a, Some b => a <? b
  | _, _ => false
  end.

(** [array.sort((a, b) => count(b) - count(a))]: descending by count;
    the sort is stable, so equal counts keep their relative order. (When
    a count is [NaN] the comparator is not consistent and the language
    leaves the order to the implementation; the insertion below is then
    one of the orders allowed.) *)
Fixpoint insert_desc {A} (number : A -> option Z) (x : A) (l : list A)
  : list A :=
  match l with
  | [] => [x]
  | y :: l' =>
      if sorts_after number x y then y :: insert_desc number x l'
      else x :: l
  end.

Definition sort_desc {A} (number : A -> option Z) (l : list A) : list A :=
  foldr (insert_desc number) [] l.

(** [array.join(sep)] *)
Definition join (sep : string) (l : list string) : string :=
  String.concat sep l.

(** [s.split('')]: the code units of [s], each as a string. *)
Fixpoint split_chars (s : string) : list string :=
  match s with
  | EmptyString => []
  | String c s' => String c EmptyString :: split_chars s'
  end.

(** [[...new Set(l)]]: the distinct elements of [l], each at the place of
    its first occurrence; [seen] holds the elements already met. *)
Fixpoint set_elements_from (seen : gset string) (l : list string)
  : list string :=
  match l with
  | [] => []
  | x :: l' =>
      if decide (x ∈ seen) then set_elements_from seen l'
      else x :: set_elements_from ({[x]} ∪ seen) l'
  end.

Definition set_elements (l : list string) : list string :=
  set_elements_from ∅ l.

End JsArray.

Import JsArray.

(** ** MetaAnalyzer.identifyTrends *)

Module MetaAnalyzer.

(** [metaShare] is the display string scraped by the collaborator, or
    absent. *)
Record MetaDeckRecord := mkMetaDeck {
  name : string;
  url : string;
  metaShare : option string
}.

Record Trends := mkTrends {
  popular : list string;
  emerging : list string;
  declining : list string
}.

(** The result of [parseFloat]: a binary64 value. A finite one is kept
    as the rational it is. *)
Inductive jsnum :=
| NaN
| Infinite (neg : bool)
| Finite (q : Q).

Definition take_sign (s : string) : bool * string :=
  match s with
  | String c r =>
      if Ascii.eqb c "-"%char then (true, r)
      else if Ascii.eqb c "+"%char then (false, r)
      else (false, s)
  | EmptyString => (false, s)
  end.

(** The value of an ExponentPart at the head of [s]; 0 when there is no
    well-formed one (an [e] without digits is not consumed). *)
Definition parse_exponent (s : string) : Z :=
  match s with
  | String c r =>
      if Ascii.eqb c "e"%char || Ascii.eqb c "E"%char then
        let '(neg, r') := take_sign r in
        let '(ds, _) := span_digits r' in
        match ds with
        | EmptyString => 0
        | _ => if neg then - parseInt ds else parseInt ds
        end
      else 0
  | EmptyString => 0
  end.

(** [mant * 10^exp], negated when [neg]. *)
Definition decimal (neg : bool) (mant exp : Z) : Q :=
  let v := (inject_Z mant * inject_Z 10 ^ exp)%Q in
  if neg then (- v)%Q else v.

(** The integer nearest to [n / d], for [0 <= n] and [0 < d]; of two
    nearest integers, the even one. *)
Definition round_half_even (n d : Z) : Z :=
  let f := n / d in
  let r2 := 2 * (n mod d) in
  if r2 <? d then f
  else if d <? r2 then f + 1
  else if Z.even f then f else f + 1.

(** The fraction [n / (d * 2^e)]. *)
Definition scaled (n d e : Z) : Z * Z :=
  if 0 <=? e then (n, d * 2 ^ e) else (n * 2 ^ (- e), d).

(** The integer part of the binary logarithm of [n / d], for [0 < n]
    and [0 < d]. *)
Definition floor_log2 (n d : Z) : Z :=
  let l := Z.log2 n - Z.log2 d in
  let '(n', d') := scaled n d l in
  if n' <? d' then l - 1 else l.

(** [m * 2^e] *)
Definition dyadic (m e : Z) : Q :=
  if 0 <=? e then inject_Z (m * 2 ^ e) else Qmake m (Z.to_pos (2 ^ (- e))).

(** The binary64 value nearest to [n / d], for [0 <= n] and [0 < d]: a
    multiple [m * 2^e] with [m] of at most 53 bits and [e] at least
    -1074, ties going to the even [m]; [None] when it exceeds the
    largest finite value. *)
Definition nearest_binary64 (n d : Z) : option Q :=
  if n =? 0 then Some 0%Q
  else
    let e := Z.max (floor_log2 n d - 52) (- 1074) in
    let '(n', d') := scaled n d e in
    let m := round_half_even n' d' in
    if (971 <? e) || ((e =? 971) && (m =? 2 ^ 53)) then None
    else Some (dyadic m e).

(** The Number value for the rational [q]. *)
Definition binary64 (q : Q) : jsnum :=
  let d := Zpos (Qden q) in
  if Qnum q <? 0 then
    match nearest_binary64 (- Qnum q) d with
    | Some v => Finite (- v)%Q
    | None => Infinite true
    end
  else
    match nearest_binary64 (Qnum q) d with
    | Some v => Finite v
    | None => Infinite false
    end.

(** [parseFloat(s)]: leading white space is skipped, then the longest
    prefix that is a StrDecimalLiteral is read. *)
Definition parseFloat (input : string) : jsnum :=
  let '(neg, s) := take_sign (trimStart input) in
  if String.prefix "Infinity" s then Infinite neg
  else
    let '(ip, r) := span_digits s in
    let '(fp, r2) :=
      match r with
      | String c r' =>
          if Ascii.eqb c "."%char then span_digits r' else (EmptyString, r)
      | EmptyString => (EmptyString, r)
      end in
    match (ip +:+ fp)%string with
    | EmptyString => NaN
    | digits =>
        binary64 (decimal neg (parseInt digits)
                          (parse_exponent r2 - Z.of_nat (String.length fp)))
    end.

Definition isNaN (x : jsnum) : bool :=
  match x with NaN => true | _ => false end.

Definition Qltb (x y : Q) : bool := negb (Qle_bool y x).

(** [x > 0] *)
Definition gt_zero (x : jsnum) : bool :=
  match x with
  | NaN => false
  | Infinite neg => negb neg
  | Finite q => Qltb 0 q
  end.

(** [x < 5] *)
Definition lt_five (x : jsnum) : bool :=
  match x with
  | NaN => false
  | Infinite neg => neg
  | Finite q => Qltb q 5
  end.

(** [s.replace('%', '')]: the first occurrence only. *)
Fixpoint remove_percent (s : string) : string :=
  match s with
  | EmptyString => EmptyString
  | String c s' =>
      if Ascii.eqb c "%"%char then s' else String c (remove_percent s')
  end.

(** [String(d.metaShare || '0').replace('%', '').trim()] *)
Definition shareStr (d : MetaDeckRecord) : string :=
  trim (remove_percent
          (match metaShare d with
           | Some s => if truthy_string s then s else "0"
           | None => "0"
           end)).

Definition normalizedShare (d : MetaDeckRecord) : jsnum :=
  parseFloat (shareStr d).

(** The predicate of the [filter] that selects [lowShareDecks]. *)
Definition is_low_share (d : MetaDeckRecord) : bool :=
  let share := normalizedShare d in
  negb (isNaN share) && gt_zero share && lt_five share.

Definition identifyTrends (metaDecks : list MetaDeckRecord) : Trends :=
  let popular :=
    if (3 <=? length metaDecks)%nat
    then map name (take 3 metaDecks) else [] in
  let lowShareDecks := List.filter is_low_share metaDecks in
  let emerging :=
    if (0 <? length lowShareDecks)%nat
    then map name (take 3 lowShareDecks) else [] in
  mkTrends popular emerging [].

(** [d.metaShare] inside a template string. *)
Definition show_share (d : MetaDeckRecord) : string :=
  match metaShare d with
  | Some share => share
  | None => "undefined"
  end.

Definition generateMetaSummary (metaDecks : list MetaDeckRecord)
  : list string :=
  match metaDecks with
  | topDeck :: _ =>
      ["Analyzed " +:+ pretty (length metaDecks) +:+ " meta decks";
       "Most played: " +:+ name topDeck +:+ " (" +:+ show_share topDeck
       +:+ " of meta)"]
      ++ (if (3 <=? length metaDecks)%nat
          then ["Top 3 strategies dominate the format"] else [])
  | [] =>
      ["Unable to fetch current meta data";
       "Meta analysis requires web scraping which may be limited"]
  end.

Record FormatAnalysis := mkFormatAnalysis {
  fa_format : string;
  fa_timestamp : string;
  fa_totalDecks : nat;
  fa_topDecks : list MetaDeckRecord;
  fa_trends : Trends;
  fa_summary : list string
}.

(** The analysis [analyzeFormat] builds; [metaDecks] is the list the
    collaborator [mtggoldfish.getMetaDecks(format)] resolved to, [now]
    the clock reading. *)
Definition analyzeFormat (format now : string)
    (metaDecks : list MetaDeckRecord) : FormatAnalysis :=
  mkFormatAnalysis format now (length metaDecks) (take 10 metaDecks)
                   (identifyTrends metaDecks) (generateMetaSummary metaDecks).

(** The deck given to [compareDeckToMeta], as far as it is read. *)
Record UserDeck := mkUserDeck {
  deck_name : option string;
  deck_commander : option string
}.

Record MetaComparison := mkMetaComparison {
  mc_deck : string;
  mc_format : string;
  isMetaDeck : bool;
  metaPosition : option nat;
  suggestions : list string
}.

(** [deck.commander?.toLowerCase() || ''] *)
Definition commander_query (deck : UserDeck) : string :=
  match deck_commander deck with
  | Some c =>
      let lowered := toLowerCase c in
      if truthy_string lowered then lowered else ""
  | None => ""
  end.

(** The comparison [compareDeckToMeta] builds; [metaDecks] and [now] are
    those of the [analyzeFormat] it awaits. [find] returns the first
    matching deck and [indexOf] its index. *)
Definition compareDeckToMeta (deck : UserDeck) (format now : string)
    (metaDecks : list MetaDeckRecord) : MetaComparison :=
  let meta := analyzeFormat format now metaDecks in
  let deckName :=
    match deck_name deck with
    | Some n => if truthy_string n then n else "User Deck"
    | None => "User Deck"
    end in
  match list_find
          (fun d => includes (toLowerCase (name d)) (commander_query deck)
                    = true)
          (fa_topDecks meta) with
  | Some (index, _) =>
      mkMetaComparison
        deckName format true (Some (index + 1)%nat)
        ["This is a popular meta deck!";
         "Consider tech cards to gain edges in mirror matches"]
  | None =>
      mkMetaComparison
        deckName format false None
        ["This is an off-meta deck";
         "Consider meta-specific hate cards or combo protection"]
  end.

(** The records of the specification's example, shares 10% to 2%. *)
Definition sample_meta : list MetaDeckRecord :=
  map (fun share => mkMetaDeck ("Deck " +:+ share) "/archetype" (Some share))
      ["10%"; "8%"; "6%"; "4%"; "2%"].

End MetaAnalyzer.

(** ** MoxfieldAPI.analyzeUserPatterns *)

Module MoxfieldAPI.

(** A commander of a deck; [card_name] is [commander.card?.name]. *)
Record Commander := mkCommander { card_name : option string }.

(** A deck record as the function reads it; every property may be
    absent. *)
Record Deck := mkDeck {
  format : option string;
  commanders : option (list Commander);
  colorIdentity : option (list string);
  name : option string
}.

Record RankedCommander := mkRankedCommander {
  rc_name : string; rc_count : count }.
Record RankedColors := mkRankedColors {
  rk_colors : string; rk_count : count }.

Record Patterns := mkPatterns {
  formats : Obj.t count;
  commanderCounts : Obj.t count;
  colors : Obj.t count;
  favoriteFormat : option string;
  topCommanders : list RankedCommander;
  topColorCombos : list RankedColors
}.

(** The three dictionaries filled by the loop. *)
Record Counts := mkCounts {
  c_formats : Obj.t count;
  c_commanders : Obj.t count;
  c_colors : Obj.t count
}.

Definition or_default (o : option string) (d : string) : string :=
  match o with
  | Some s => if truthy_string s then s else d
  | None => d
  end.

(** One iteration of [decks.forEach]: the updated dictionaries and the
    deck as the iteration leaves it ([deck.colorIdentity.sort()] sorts
    the array of the deck itself). The local array [themes], which the
    loop also fills, is never read. *)
Definition visit_deck (acc : Counts) (deck : Deck) : Counts * Deck :=
  let fmt := or_default (format deck) "unknown" in
  let formats := Obj.incr (c_formats acc) fmt in
  let commanders :=
    match commanders deck with
    | Some cs =>
        if (0 <? length cs)%nat then
          fold_left
            (fun m commander =>
               Obj.incr m (or_default (card_name commander) "Unknown"))
            cs (c_commanders acc)
        else c_commanders acc
    | None => c_commanders acc
    end in
  match colorIdentity deck with
  | Some ci =>
      if (0 <? length ci)%nat then
        let sorted := sort_strings ci in
        let colorCombo := join "" sorted in
        (mkCounts formats commanders (Obj.incr (c_colors acc) colorCombo),
         mkDeck (format deck) (MoxfieldAPI.commanders deck) (Some sorted)
                (name deck))
      else (mkCounts formats commanders (c_colors acc), deck)
  | None => (mkCounts formats commanders (c_colors acc), deck)
  end.

Fixpoint visit_decks (acc : Counts) (decks : list Deck)
  : Counts * list Deck :=
  match decks with
  | [] => (acc, [])
  | deck :: rest =>
      let '(acc1, deck') := visit_deck acc deck in
      let '(acc2, rest') := visit_decks acc1 rest in
      (acc2, deck' :: rest')
  end.

(** [formats[k]] as an operand of [-], for a key [k] of [formats]. *)
Definition stored_number (formats : Obj.t count) (k : string) : option Z :=
  match Obj.get formats k with
  | Obj.Own c => number_of c
  | _ => None
  end.

(** The result of the call, and the array [decks] as the call leaves
    it. *)
Definition analyzeUserPatterns (decks : list Deck) : Patterns * list Deck :=
  let '(acc, decks') := visit_decks (mkCounts Obj.empty Obj.empty Obj.empty)
                                    decks in
  let formats := c_formats acc in
  (mkPatterns
     formats (c_commanders acc) (c_colors acc)
     (head (sort_desc (fun k => stored_number formats k)
                      (Obj.keys formats)))
     (map (fun e => mkRankedCommander (fst e) (snd e))
          (take 5 (sort_desc (fun e => number_of (snd e))
                             (Obj.entries (c_commanders acc)))))
     (map (fun e => mkRankedColors (fst e) (snd e))
          (take 5 (sort_desc (fun e => number_of (snd e))
                             (Obj.entries (c_colors acc))))),
   decks').

End MoxfieldAPI.

(** ** A small exception monad for the code that throws *)

Inductive except (A : Type) :=
| Returns (a : A)
| Throws (message : string).
Arguments Returns {A} a.
Arguments Throws {A} message.

Definition ebind {A B} (m : except A) (k : A -> except B) : except B :=
  match m with
  | Returns a => k a
  | Throws msg => Throws msg
  end.

(** [try { body } catch (error) { handler(error.message) }] *)
Definition try_catch {A} (body : except A) (handler : string -> except A)
  : except A :=
  match body with
  | Returns a => Returns a
  | Throws msg => handler msg
  end.

Notation "x <-! m ; k" := (ebind m (fun x => k))
  (at level 100, m at next level, right associativity).

Definition raises {A} (m : except A) : Prop :=
  match m with Throws _ => True | Returns _ => False end.

(** [Array.isArray(data) ? data : ...] *)
Definition as_array (v : value) : option (list value) :=
  match v with
  | VArr items => Some items
  | _ => None
  end.

Definition isArray (v : value) : bool :=
  match v with VArr _ => true | _ => false end.

(** ** The parser and the validator as they are called

    [parseDeckList(deckText)] starts with [deckText.split], a method
    that only a string has. [validateParsedDeck(cards, options = {})]
    starts by destructuring [options]: the default takes the place of
    an argument left out, and destructuring [null] throws. The message
    of a TypeError is the engine's; it is kept abstract. *)

Definition TypeError : string := "TypeError".

(** The argument [options] of a call: left out, [null], or an object. *)
Inductive OptionsArgument :=
| OptionsOmitted
| OptionsNull
| OptionsObject (options : Options).

(** [parseDeckList(deckText)], [None] standing for [undefined]. *)
Definition call_parseDeckList (deckText : option value)
  : except (list CardEntry) :=
  match deckText with
  | Some (VStr text) => Returns (parseDeckList text)
  | _ => Throws TypeError
  end.

(** [validateParsedDeck(cards, options)] *)
Definition call_validateParsedDeck (cards : list CardEntry)
    (options : OptionsArgument) : except ValidationResult :=
  match options with
  | OptionsOmitted => Returns (validateParsedDeck cards no_options)
  | OptionsNull => Throws TypeError
  | OptionsObject o => Returns (validateParsedDeck cards o)
  end.

(** ** RecommendationEngine *)

Module RecommendationEngine.

(** A card of a history entry: a string, or an object with a [name]. *)
Inductive CardRef :=
| CardString (s : string)
| CardObject (name : string).

(** A deck of the build history; every property but the time stamp may
    be absent. *)
Record HistoryEntry := mkEntry {
  commander : option string;
  strategy : option string;
  colors : option (list string);
  cards : option (list CardRef);
  timestamp : string
}.

(** The instance: [this.userHistory]. The element type is [HistoryEntry]
    for the entries the engine builds and analyses, and [value] for the
    array an import stores. *)
Record Engine (E : Type) := mkEngine { userHistory : list E }.
Arguments mkEngine {E} userHistory.
Arguments userHistory {E} e.

(** The deck passed to [addToHistory]; the time stamp is the clock
    reading of the call. *)
Definition addToHistory (deck : HistoryEntry) (now : string)
    (e : Engine HistoryEntry) : Engine HistoryEntry :=
  mkEngine
    (userHistory e
     ++ [mkEntry (commander deck) (strategy deck) (colors deck)
                 (cards deck) now]).

Definition clearHistory {E} (e : Engine E) : Engine E := mkEngine [].

(** [getMostCommon(frequencyMap)], for a map whose values are numbers
    ([Obj.t Z]) and for the dictionaries [analyzeHistory] fills
    ([Obj.t count]). *)
Definition getMostCommon {V} `{Numeric V} (frequencyMap : Obj.t V) : value :=
  let entries := Obj.entries frequencyMap in
  if Nat.eqb (length entries) 0 then VNull
  else
    match sort_desc (fun e => number_of (snd e)) entries with
    | (k, _) :: _ => VStr k
    | [] => VNull
    end.

Record Analysis := mkAnalysis {
  totalDecks : nat;
  commanders : Obj.t count;
  strategies : Obj.t count;
  colorCounts : Obj.t count;
  mostPlayedCommander : value;
  favoriteStrategy : value;
  favoriteColors : value
}.

Record Counts := mkCounts {
  c_commanders : Obj.t count;
  c_strategies : Obj.t count;
  c_colors : Obj.t count
}.

(** One iteration of [this.userHistory.forEach]: the updated
    dictionaries and the entry as the iteration leaves it
    ([deck.colors.sort()] sorts the stored array). *)
Definition visit_entry (acc : Counts) (deck : HistoryEntry)
  : Counts * HistoryEntry :=
  let commanders :=
    match commander deck with
    | Some c => if truthy_string c then Obj.incr (c_commanders acc) c
                else c_commanders acc
    | None => c_commanders acc
    end in
  let strategies :=
    match strategy deck with
    | Some s => if truthy_string s then Obj.incr (c_strategies acc) s
                else c_strategies acc
    | None => c_strategies acc
    end in
  match colors deck with
  | Some cs =>
      let sorted := sort_strings cs in
      let colorKey := join "" sorted in
      (mkCounts commanders strategies (Obj.incr (c_colors acc) colorKey),
       mkEntry (commander deck) (strategy deck) (Some sorted)
               (cards deck) (timestamp deck))
  | None => (mkCounts commanders strategies (c_colors acc), deck)
  end.

Fixpoint visit_entries (acc : Counts) (history : list HistoryEntry)
  : Counts * list HistoryEntry :=
  match history with
  | [] => (acc, [])
  | deck :: rest =>
      let '(acc1, deck') := visit_entry acc deck in
      let '(acc2, rest') := visit_entries acc1 rest in
      (acc2, deck' :: rest')
  end.

(** [analyzeHistory()]: its result, and the engine as the call leaves
    it. *)
Definition analyzeHistory (e : Engine HistoryEntry)
  : Analysis * Engine HistoryEntry :=
  let '(acc, history') :=
    visit_entries (mkCounts Obj.empty Obj.empty Obj.empty)
                  (userHistory e) in
  (mkAnalysis
     (length history')
     (c_commanders acc) (c_strategies acc) (c_colors acc)
     (getMostCommon (c_commanders acc))
     (getMostCommon (c_strategies acc))
     (getMostCommon (c_colors acc)),
   mkEngine history').

Record Staple := mkStaple { staple_name : string; appearances : Z }.

Definition card_ref_name (card : CardRef) : string :=
  match card with
  | CardString s => s
  | CardObject n => n
  end.

(** The callback [([_, count]) => count > 1] of the filter, and the
    entry with its count as the number it then is; a stored string
    compares as [NaN]. *)
Definition more_than_once (en : string * count) : option (string * Z) :=
  match snd en with
  | Num n => if 1 <? n then Some (fst en, n) else None
  | Text _ _ => None
  end.

Definition identifyStaples (e : Engine HistoryEntry) : list Staple :=
  let cardFrequency :=
    fold_left
      (fun m deck =>
         match cards deck with
         | Some cs => fold_left (fun m card =>
                                   Obj.incr m (card_ref_name card)) cs m
         | None => m
         end)
      (userHistory e) Obj.empty in
  map (fun en => mkStaple (fst en) (snd en))
      (sort_desc (fun en => Some (snd en))
         (omap more_than_once (Obj.entries cardFrequency))).

(** [names[color] || color], as the template string of [identifyGaps]
    renders it. *)
Definition colorName (color : string) : string :=
  match Obj.get [("W", "White"); ("U", "Blue"); ("B", "Black");
                 ("R", "Red"); ("G", "Green")] color with
  | Obj.Own name => name
  | Obj.Inherited => native_text color
  | Obj.Undefined => color
  end.

Record Gap := mkGap {
  gap_type : string;
  description : string;
  suggestion : string
}.

Definition allColors : list string := ["W"; "U"; "B"; "R"; "G"].

Definition commonStrategies : list string :=
  ["aggro"; "control"; "combo"; "midrange"; "tribal";
   "voltron"; "aristocrats"; "tokens"; "spellslinger"].

(** The set built by the two nested [forEach] over the colour keys. *)
Definition playedColors (colorKeys : list string) : gset string :=
  fold_left
    (fun played colorCombo =>
       fold_left (fun played c => {[c]} ∪ played)
                 (split_chars colorCombo) played)
    colorKeys ∅.

(** [identifyGaps(profileAnalysis)]: the gaps, and the engine as the
    call leaves it (it runs [analyzeHistory]). *)
Definition identifyGaps {P : Type} (profileAnalysis : P)
    (e : Engine HistoryEntry) : list Gap * Engine HistoryEntry :=
  let '(history, e') := analyzeHistory e in
  let played := playedColors (Obj.keys (colorCounts history)) in
  let unplayedColors :=
    List.filter (fun c => negb (bool_decide (c ∈ played))) allColors in
  let colorGaps :=
    match unplayedColors with
    | first :: _ =>
        [mkGap "colors"
               ("Haven't explored: " +:+ join ", " unplayedColors)
               ("Try building with " +:+ first +:+ " ("
                +:+ colorName first +:+ ")")]
    | [] => []
    end in
  let playedStrategies := Obj.keys (strategies history) in
  let unplayedStrategies :=
    List.filter (fun s => negb (list_includes playedStrategies s))
                commonStrategies in
  let strategyGaps :=
    match unplayedStrategies with
    | first :: _ =>
        [mkGap "strategies"
               ("Unexplored strategies: "
                +:+ join ", " (take 3 unplayedStrategies))
               ("Consider trying a " +:+ first +:+ " deck")]
    | [] => []
    end in
  (colorGaps ++ strategyGaps, e').

Record Recommendations := mkRecommendations {
  buildOnStrengths : list string;
  exploreNew : list string;
  budgetOptions : list string;
  upgrades : list string
}.

(** The argument of [generateRecommendations]: an object whose
    [profileAnalysis] property may be absent. *)
Record RecOptions (P : Type) := mkRecOptions {
  profileAnalysis : option P
}.
Arguments profileAnalysis {P} r.

Definition value_truthy (v : value) : option string :=
  match v with
  | VStr s => if truthy_string s then Some s else None
  | _ => None
  end.

(** [o[k]] inside a template string. *)
Definition show_count (o : Obj.t count) (k : string) : string :=
  match Obj.get o k with
  | Obj.Own c => show c
  | Obj.Inherited => native_text k
  | Obj.Undefined => "undefined"
  end.

Definition generateRecommendations {P : Type} (options : RecOptions P)
    (e : Engine HistoryEntry) : Recommendations * Engine HistoryEntry :=
  let '(history, e1) := analyzeHistory e in
  let staples := identifyStaples e1 in
  let '(gaps, e2) :=
    match profileAnalysis options with
    | Some pa => identifyGaps pa e1
    | None => identifyGaps (VObj []) e1
    end in
  let strength1 :=
    match value_truthy (favoriteStrategy history) with
    | Some fs =>
        ["Continue exploring " +:+ fs +:+ " - you've built "
         +:+ show_count (strategies history) fs
         +:+ " decks in this style"]
    | None => []
    end in
  let strength2 :=
    match value_truthy (favoriteColors history) with
    | Some fc => ["Try new commanders in your favorite colors: " +:+ fc]
    | None => []
    end in
  let upgrades :=
    if (0 <? length staples)%nat then
      ["You frequently use these cards: "
       +:+ join ", " (map staple_name (take 3 staples));
       "Consider acquiring premium versions or finding alternatives"]
    else [] in
  (mkRecommendations (strength1 ++ strength2) (map suggestion gaps)
                     [] upgrades,
   e2).

Record Substitution (C : Type) := mkSubstitution {
  original : C;
  needsPricingData : bool
}.
Arguments mkSubstitution {C} original needsPricingData.

Record BudgetSuggestion (C : Type) := mkBudgetSuggestion {
  budget_note : string;
  budget_suggestion : string;
  placeholder : list (Substitution C)
}.
Arguments mkBudgetSuggestion {C} budget_note budget_suggestion placeholder.

Definition suggestBudgetSubstitutions {C : Type} (cardList : list C)
  : BudgetSuggestion C :=
  mkBudgetSuggestion
    "Budget substitution feature requires pricing data integration"
    "This will be available once TCGPlayer or CardKingdom API integration is added"
    (map (fun card => mkSubstitution card true) cardList).

Record ArchetypeSuggestion := mkArchetype {
  archetype : string;
  reason : string
}.

(** [suggestNewArchetype()]: it runs [analyzeHistory], whose result it
    does not read, then [identifyGaps({})]. *)
Definition suggestNewArchetype (e : Engine HistoryEntry)
  : ArchetypeSuggestion * Engine HistoryEntry :=
  let '(history, e1) := analyzeHistory e in
  let '(gaps, e2) := identifyGaps (VObj []) e1 in
  (match gaps with
   | gap :: _ => mkArchetype (suggestion gap) (description gap)
   | [] => mkArchetype "Try something completely different"
                       "Expand your deck building repertoire"
   end,
   e2).

(** [importHistory(json)]; [parsed] is the outcome of
    [JSON.parse(json)], which either returns a value or throws a
    SyntaxError with some message. On a throw the history is left as it
    was. *)
Definition importHistory (parsed : except value) (e : Engine value)
  : except (Engine value) :=
  try_catch
    (data <-! parsed;
     Returns (mkEngine (match as_array data with
                        | Some items => items
                        | None => []
                        end)))
    (fun message => Throws ("Failed to import history: " +:+ message)).

End RecommendationEngine.

(** ** YouTubeLearner.importKnowledge *)

Module YouTubeLearner.

Record Learner := mkLearner { knowledgeBase : list value }.

(** [importKnowledge(json)]; [parsed] is the outcome of
    [JSON.parse(json)]. The [throw] in the [try] block is caught by the
    [catch] of the same statement. *)
Definition importKnowledge (parsed : except value) (l : Learner)
  : except Learner :=
  try_catch
    (data <-! parsed;
     match as_array data with
     | None => Throws "Invalid knowledge data: expected an array"
     | Some items => Returns (mkLearner items)
     end)
    (fun message => Throws ("Failed to import knowledge: " +:+ message)).

(** The searches read the stored entries untyped, as [importKnowledge]
    leaves them. The message of a TypeError is the engine's; it is kept
    abstract. *)
Definition type_error : string := "TypeError".

(** [k[p]] for a property that no prototype defines: it throws on
    [null], and is [undefined] on anything that is not an object. *)
Definition property (k : value) (p : string) : except (option value) :=
  match k with
  | VNull => Throws type_error
  | VObj fields => Returns (Obj.own fields p)
  | _ => Returns None
  end.

(** Truthiness of a value, [None] standing for [undefined]. *)
Definition truthy (v : option value) : bool :=
  match v with
  | None => false
  | Some VNull => false
  | Some (VBool b) => b
  | Some (VNum n) => negb (n =? 0)
  | Some (VStr s) => truthy_string s
  | Some (VArr _) => true
  | Some (VObj _) => true
  end.

(** [v.toLowerCase()]: only a string has the method. *)
Definition lower_of (v : option value) : except string :=
  match v with
  | Some (VStr s) => Returns (toLowerCase s)
  | _ => Throws type_error
  end.

(** The callback of the two filters, as the condition it stands for:
    [k[p] && k[p].toLowerCase().includes(query.toLowerCase())]. *)
Definition matches (p query : string) (k : value) : except bool :=
  v <-! property k p;
  if truthy v then
    (lowered <-! lower_of v;
     Returns (includes lowered (toLowerCase query)))
  else Returns false.

(** [array.filter(f)] for a callback that may throw. *)
Fixpoint filter_except {A} (f : A -> except bool) (l : list A)
  : except (list A) :=
  match l with
  | [] => Returns []
  | x :: l' =>
      keep <-! f x;
      rest <-! filter_except f l';
      Returns (if keep then x :: rest else rest)
  end.

Definition searchByCommander (commander : string) (l : Learner)
  : except (list value) :=
  filter_except (matches "commander" commander) (knowledgeBase l).

Definition searchByStrategy (strategy : string) (l : Learner)
  : except (list value) :=
  filter_except (matches "strategy" strategy) (knowledgeBase l).

Definition getKnowledgeBase (l : Learner) : list value := knowledgeBase l.

End YouTubeLearner.

(** ** YouTubeAPI.parseDecklistFromText *)

Module YouTubeAPI.

(** [x?] of the expression [/^(\d+)x?\s+(.+)$/], which has no flag [i]. *)
Definition skip_lower_x (s : string) : string :=
  match s with
  | String c s' => if Ascii.eqb c "x"%char then s' else s
  | EmptyString => s
  end.

(** The groups 1 and 2 of a match of [cardPattern]. *)
Definition exec (s : string) : option (string * string) :=
  let '(d, r) := span_digits s in
  match d with
  | EmptyString => None
  | _ =>
      match skip_lower_x r with
      | String c r' =>
          if is_ws c then
            match LineRegex.ws_then_rest r' with
            | Some m => Some (d, m)
            | None => None
            end
          else None
      | EmptyString => None
      end
  end.

(** The body of [lines.forEach]; [parseInt] without a radix reads a
    string of digits in base 10. *)
Definition parseTextLine (line : string) : option CardEntry :=
  let trimmed := trim line in
  if String.eqb trimmed "" || startsWith trimmed "//" then None
  else
    match exec trimmed with
    | Some (g1, g2) => Some (mkCard (parseInt g1) (trim g2))
    | None => None
    end.

Definition parseDecklistFromText (text : string) : list CardEntry :=
  omap parseTextLine (split_nl text).

End YouTubeAPI.

(** ** ProfileAnalyzer *)

Module ProfileAnalyzer.

Section ColorNames.

(** [getColorName] of utils/colorIdentity.js, a module outside the
    sources at hand. *)
Variable getColorName : string -> string.

Definition formatColorIdentity (colors : string) : string :=
  if truthy_string colors
  then join "/" (map getColorName (split_chars colors))
  else "Colorless".

Definition generateInsights (patterns : MoxfieldAPI.Patterns) : list string :=
  (match MoxfieldAPI.favoriteFormat patterns with
   | Some f => if truthy_string f then ["Primary format: " +:+ f] else []
   | None => []
   end)
  ++ (match MoxfieldAPI.topCommanders patterns with
      | topCommander :: others =>
          ("Most played commander: " +:+ MoxfieldAPI.rc_name topCommander
           +:+ " (" +:+ show (MoxfieldAPI.rc_count topCommander)
           +:+ " decks)")
          :: (if (1 <? length (MoxfieldAPI.topCommanders patterns))%nat
              then ["Also frequently plays: "
                    +:+ join ", " (map MoxfieldAPI.rc_name (take 2 others))]
              else [])
      | [] => []
      end)
  ++ (match MoxfieldAPI.topColorCombos patterns with
      | topColors :: _ =>
          ["Favorite color combination: "
           +:+ formatColorIdentity (MoxfieldAPI.rk_colors topColors)
           +:+ " (" +:+ show (MoxfieldAPI.rk_count topColors)
           +:+ " decks)"]
      | [] => []
      end).

(** The two nested loops over [combo.colors] are those of
    [RecommendationEngine.identifyGaps]. *)
Definition generateRecommendations (patterns : MoxfieldAPI.Patterns)
  : list string :=
  (if (0 <? length (MoxfieldAPI.topColorCombos patterns))%nat then
     let played :=
       RecommendationEngine.playedColors
         (map MoxfieldAPI.rk_colors (MoxfieldAPI.topColorCombos patterns)) in
     let unplayedColors :=
       List.filter (fun c => negb (bool_decide (c ∈ played)))
                   RecommendationEngine.allColors in
     if (0 <? length unplayedColors)%nat then
       ["Try exploring "
        +:+ join " or " (map getColorName unplayedColors) +:+ " colors"]
     else []
   else [])
  ++ ["Consider exploring different archetypes to expand your deck building skills";
      "Build decks at different power levels for various playgroups"].

End ColorNames.

(** The profile [mtggoldfish.analyzeUserProfile] supplies, as far as the
    two generators read it. *)
Record GoldfishProfile := mkGoldfishProfile {
  totalDecks : nat;
  analyzedDecks : nat;
  topCommanders : list MoxfieldAPI.RankedCommander
}.

Definition generateMTGGoldfishInsights (profile : GoldfishProfile)
  : list string :=
  ["Total decks on MTGGoldfish: " +:+ pretty (totalDecks profile);
   "Analyzed " +:+ pretty (analyzedDecks profile) +:+ " recent decks"]
  ++ map (fun commander =>
            "Plays " +:+ MoxfieldAPI.rc_name commander +:+ " ("
            +:+ show (MoxfieldAPI.rc_count commander) +:+ " times)")
         (topCommanders profile).

Definition generateMTGGoldfishRecommendations (profile : GoldfishProfile)
  : list string :=
  (if (0 <? length (topCommanders profile))%nat
   then ["Consider building with less-played commanders for unique gameplay"]
   else [])
  ++ ["Explore the current meta to discover powerful new strategies";
      "Try budget builds to challenge your deck building creativity"].

(** An analysed profile, as far as [compareProfiles] reads it: its
    [patterns] property may be absent. *)
Record Profile := mkProfile { patterns : option MoxfieldAPI.Patterns }.

Record Comparison := mkComparison {
  similarities : list string;
  differences : list string
}.

(** [profile.patterns?.topCommanders?.map(c => c.name) || []] *)
Definition commander_names (profile : Profile) : list string :=
  match patterns profile with
  | Some p => map MoxfieldAPI.rc_name (MoxfieldAPI.topCommanders p)
  | None => []
  end.

Definition sharedCommanders (profile1 profile2 : Profile) : list string :=
  List.filter (fun c => list_includes (commander_names profile2) c)
              (set_elements (commander_names profile1)).

Definition compareProfiles (profile1 profile2 : Profile) : Comparison :=
  let shared := sharedCommanders profile1 profile2 in
  mkComparison
    (if (0 <? length shared)%nat
     then ["Both players enjoy: " +:+ join ", " shared] else [])
    [].

End ProfileAnalyzer.


(** ** Notions used to state the properties *)

(** [s] is not empty and its last code unit is not white space. *)
Fixpoint ends_nonws (s : string) : bool :=
  match s with
  | EmptyString => false
  | String c s' =>
      match s' with
      | EmptyString => negb (is_ws c)
      | _ => ends_nonws s'
      end
  end.

(** Card names are compared ignoring case. *)
Definition same_name (a b : string) : bool :=
  String.eqb (toLowerCase a) (toLowerCase b).

(** [removeDuplicates] as the specification words it: what becomes of the
    entry [card] at position [i] of [cards]. A basic land passes through
    unchanged; any other entry is kept, with quantity 1, exactly when no
    earlier entry has its name. *)
Definition kept (cards : list CardEntry) (i : nat) (card : CardEntry)
  : list CardEntry :=
  if isBasicLand (name card) then [card]
  else if existsb (fun earlier => same_name (name earlier) (name card))
                  (take i cards)
       then []
       else [mkCard 1 (name card)].

Definition removeDuplicates_spec (cards : list CardEntry) : list CardEntry :=
  concat (imap (kept cards) cards).

(** [seen] holds the lower-cased names of the entries of [pre] that are
    not basic lands. *)
Definition seen_after (pre : list CardEntry) (seen : gset string) : Prop :=
  forall k, k ∈ seen <->
            exists e, e ∈ pre /\ isBasicLand (name e) = false
                      /\ toLowerCase (name e) = k.

(** The sum of the quantities of a deck. *)
Definition sum_quantities (cards : list CardEntry) : Z :=
  foldr (fun c acc => quantity c + acc) 0 cards.

(** [card] is named [k], ignoring case ([k] is in lower case). *)
Definition named (k : string) (card : CardEntry) : bool :=
  String.eqb (toLowerCase (name card)) k.

(** The quantity of the name [k] summed over the deck, ignoring case. *)
Definition nameCount (k : string) (cards : list CardEntry) : Z :=
  sum_quantities (List.filter (named k) cards).

(** [k] is the lower-cased name of an entry of [pre] that is not a
    basic land: the loop has counted it. *)
Definition counted (k : string) (pre : list CardEntry) : bool :=
  existsb (named k) pre && negb (list_includes BASIC_LANDS k).

(** The loop invariant of the tally, after the entries [pre]: under a
    counted name that [Object.prototype] does not define, the sum of its
    quantities; under a counted name that it defines, a string, or
    nothing at all under [__proto__]. *)
Definition tally_inv (pre : list CardEntry) (st : Tally) : Prop :=
  NoDup (Obj.keys (cardCounts st))
  /\ tally_total st = sum_quantities pre
  /\ forall k,
       match Obj.own (cardCounts st) k with
       | Some (Num n) =>
           counted k pre = true
           /\ list_includes Obj.inherited k = false
           /\ n = nameCount k pre
       | Some (Text _ _) =>
           counted k pre = true
           /\ list_includes Obj.inherited k = true
           /\ k <> "__proto__"
       | None => counted k pre = false \/ k = "__proto__"
       end.

(** No name of the deck is, in lower case, the name of a property of
    [Object.prototype]. *)
Definition plain_names (cards : list CardEntry) : Prop :=
  Forall (fun c => list_includes Obj.inherited (toLowerCase (name c)) = false)
         cards.

(** The quantities are not negative and add up to at most 2^53: the
    sums of the program are exact. *)
Definition exact_quantities (cards : list CardEntry) : Prop :=
  Forall (fun c => 0 <= quantity c) cards
  /\ sum_quantities cards <= 2 ^ 53.

(** A deck of the shape of the specification's example: two copies of
    Sol Ring followed by 98 singleton cards of distinct names. *)
Definition singleton_filler : list CardEntry :=
  map (fun i : nat => mkCard 1 ("Card " +:+ pretty i)) (seq 1 98).

Definition sol_ring_deck : list CardEntry :=
  mkCard 2 "Sol Ring" :: singleton_filler.

(** [s] is not empty and its first code unit is not white space. *)
Definition starts_nonws (s : string) : bool :=
  match s with
  | String c _ => negb (is_ws c)
  | EmptyString => false
  end.

Fixpoint no_newline (s : string) : bool :=
  match s with
  | EmptyString => true
  | String c s' => negb (Ascii.eqb c newline) && no_newline s'
  end.

(** A name that is trimmed, not empty and free of line terminators: what
    the parser produces from a line without carriage return. *)
Definition clean_name (n : string) : bool :=
  starts_nonws n && ends_nonws n && LineRegex.no_line_terminator n.

(** The entry with its quantity replaced by 1. *)
Definition as_singleton (card : CardEntry) : CardEntry :=
  mkCard 1 (name card).

(** A history entry, resp. a deck record, with its colour array sorted. *)
Definition sort_entry_colors (d : RecommendationEngine.HistoryEntry)
  : RecommendationEngine.HistoryEntry :=
  RecommendationEngine.mkEntry
    (RecommendationEngine.commander d) (RecommendationEngine.strategy d)
    (option_map sort_strings (RecommendationEngine.colors d))
    (RecommendationEngine.cards d) (RecommendationEngine.timestamp d).

Definition sort_deck_colors (d : MoxfieldAPI.Deck) : MoxfieldAPI.Deck :=
  MoxfieldAPI.mkDeck
    (MoxfieldAPI.format d) (MoxfieldAPI.commanders d)
    (option_map sort_strings (MoxfieldAPI.colorIdentity d))
    (MoxfieldAPI.name d).

(** [l] is in ascending code-unit order. *)
Fixpoint is_sorted (l : list string) : bool :=
  match l with
  | x :: l' =>
      match l' with
      | y :: _ => String.leb x y && is_sorted l'
      | [] => true
      end
  | [] => true
  end.

(** The deck with every name in lower case. *)
Definition lowercased (cards : list CardEntry) : list CardEntry :=
  map (fun c => mkCard (quantity c) (toLowerCase (name c))) cards.

(** The number of occurrences of [k] in [ks]. *)
Definition occurrences (k : string) (ks : list string) : Z :=
  Z.of_nat (length (List.filter (String.eqb k) ks)).

(** No key of [ks] is the name of a property of [Object.prototype]. *)
Definition not_inherited (ks : list string) : Prop :=
  Forall (fun k => list_includes Obj.inherited k = false) ks.

(** ... and none is an array index either: every new key is appended. *)
Definition plain_keys (ks : list string) : Prop :=
  Forall (fun k => list_includes Obj.inherited k = false
                   /\ Obj.index_of k = None) ks.

(** The dictionary [o] tallies the keys [ks]: its own keys are the
    distinct elements of [ks], each mapped to the number of its
    occurrences. *)
Definition tallies (ks : list string) (o : Obj.t count) : Prop :=
  NoDup (Obj.keys o)
  /\ forall k, Obj.own o k
               = if list_includes ks k then Some (Num (occurrences k ks))
                 else None.

(** ... and enumerates them in the order of their first occurrence. *)
Definition counts_of (ks : list string) (o : Obj.t count) : Prop :=
  tallies ks o /\ Obj.keys o = set_elements ks.

(** What a dictionary filled by counting the keys [ks] one by one
    holds: whatever the keys, each of them but [__proto__] is a key of
    it; it tallies them when [Object.prototype] defines none of them, and
    in the order of their first occurrence when none is an array index
    either. *)
Definition filled_by (ks : list string) (o : Obj.t count) : Prop :=
  (forall k, k ∈ Obj.keys o <-> k ∈ ks /\ k <> "__proto__")
  /\ (not_inherited ks -> tallies ks o)
  /\ (plain_keys ks -> counts_of ks o).

(** [l] is in descending order of [count]. *)
Definition descending {A} (count : A -> Z) (l : list A) : Prop :=
  StronglySorted (fun a b => count b <= count a) l.

(** [k] is, among the distinct elements of [ks] in the order of their
    first occurrence, the first one that occurs most often. *)
Definition first_most_frequent (k : string) (ks : list string) : Prop :=
  exists before after,
    set_elements ks = before ++ k :: after
    /\ Forall (fun k' => occurrences k' ks < occurrences k ks) before
    /\ Forall (fun k' => occurrences k' ks <= occurrences k ks) after.

(** What [analyzeUserPatterns] counts: the format of every deck, the
    name of every commander of every deck, and the colour key of every
    deck with a non-empty colour identity. *)
Definition format_keys (decks : list MoxfieldAPI.Deck) : list string :=
  map (fun d => MoxfieldAPI.or_default (MoxfieldAPI.format d) "unknown")
      decks.

Definition commander_keys_of (d : MoxfieldAPI.Deck) : list string :=
  match MoxfieldAPI.commanders d with
  | Some cs =>
      map (fun c => MoxfieldAPI.or_default (MoxfieldAPI.card_name c)
                                           "Unknown") cs
  | None => []
  end.

Definition commander_keys (decks : list MoxfieldAPI.Deck) : list string :=
  flat_map commander_keys_of decks.

Definition color_keys_of (d : MoxfieldAPI.Deck) : list string :=
  match MoxfieldAPI.colorIdentity d with
  | Some (c :: ci) => [join "" (sort_strings (c :: ci))]
  | _ => []
  end.

Definition color_keys (decks : list MoxfieldAPI.Deck) : list string :=
  flat_map color_keys_of decks.

(** [top] ranks the keys [ks] by their number of occurrences and keeps
    the first [n]: it has [n] records, or one for each distinct key when
    there are fewer; its names are distinct keys of [ks], each with its
    number of occurrences; the counts do not increase along [top]; and a
    key left out occurs at most as often as every key kept. *)
Definition ranking_of {R} (rname : R -> string) (rcount : R -> count)
    (n : nat) (ks : list string) (top : list R) : Prop :=
  length top = Nat.min n (length (set_elements ks))
  /\ NoDup (map rname top)
  /\ Forall (fun r => rname r ∈ ks
                      /\ rcount r = Num (occurrences (rname r) ks)) top
  /\ descending (fun r => occurrences (rname r) ks) top
  /\ forall k, k ∈ ks -> k ∉ map rname top ->
       length top = n
       /\ Forall (fun r => occurrences k ks <= occurrences (rname r) ks) top.

(** The value of an optional string property when it is truthy. *)
Definition played_key (o : option string) : list string :=
  match o with
  | Some s => if truthy_string s then [s] else []
  | None => []
  end.

(** What [analyzeHistory] and [identifyStaples] count over the history:
    the commander and the strategy of every entry that has one, the
    sorted, joined colour array of every entry that has one, and the name
    of every card of every card list. *)
Definition history_commanders (h : list RecommendationEngine.HistoryEntry)
  : list string :=
  flat_map (fun d => played_key (RecommendationEngine.commander d)) h.

Definition history_strategies (h : list RecommendationEngine.HistoryEntry)
  : list string :=
  flat_map (fun d => played_key (RecommendationEngine.strategy d)) h.

Definition color_key_of (d : RecommendationEngine.HistoryEntry)
  : list string :=
  match RecommendationEngine.colors d with
  | Some cs => [join "" (sort_strings cs)]
  | None => []
  end.

Definition history_color_keys (h : list RecommendationEngine.HistoryEntry)
  : list string :=
  flat_map color_key_of h.

Definition card_names_of (d : RecommendationEngine.HistoryEntry)
  : list string :=
  match RecommendationEngine.cards d with
  | Some cs => map RecommendationEngine.card_ref_name cs
  | None => []
  end.

Definition history_cards (h : list RecommendationEngine.HistoryEntry)
  : list string :=
  flat_map card_names_of h.

(** [v] is the result [getMostCommon] owes for a dictionary that counts
    [ks]: [null] when there is nothing to count, otherwise the first key
    that occurs most often. *)
Definition most_common_of (v : value) (ks : list string) : Prop :=
  match v with
  | VStr k => first_most_frequent k ks
  | VNull => ks = []
  | _ => False
  end.

(** The code unit [c] (as a string of length 1) occurs in a string of
    the colour array of an entry of the history. *)
Definition color_played (c : string)
    (h : list RecommendationEngine.HistoryEntry) : Prop :=
  exists d cs s,
    d ∈ h /\ RecommendationEngine.colors d = Some cs
    /\ s ∈ cs /\ c ∈ split_chars s.

(** Every colour letter and every common strategy has been played. *)
Definition everything_played (h : list RecommendationEngine.HistoryEntry)
  : Prop :=
  (forall c, c ∈ RecommendationEngine.allColors -> color_played c h)
  /\ (forall s, s ∈ RecommendationEngine.commonStrategies ->
                s ∈ history_strategies h).

(** The suggestion [suggestNewArchetype] falls back to. *)
Definition fallback_archetype : RecommendationEngine.ArchetypeSuggestion :=
  RecommendationEngine.mkArchetype
    "Try something completely different"
    "Expand your deck building repertoire".

(** A knowledge entry on which reading the property [p] as a string
    fails: [null], or an object whose property [p] is truthy and not a
    string. *)
Definition unreadable (p : string) (k : value) : bool :=
  match k with
  | VNull => true
  | VObj fields =>
      match Obj.own fields p with
      | Some (VStr _) => false
      | v => YouTubeLearner.truthy v
      end
  | _ => false
  end.

(** The entry is an object whose property [p] is a non-empty string
    that contains [query], ignoring case. *)
Definition property_contains (p query : string) (k : value) : bool :=
  match k with
  | VObj fields =>
      match Obj.own fields p with
      | Some (VStr s) =>
          truthy_string s && includes (toLowerCase s) (toLowerCase query)
      | _ => false
      end
  | _ => false
  end.

(** * Properties *)

(** ** Strings *)

Section StringFacts.

Lemma eqb_empty_false (s : string) : String.eqb s "" = false -> s <> "".
Proof. intros H ->. discriminate H. Qed.

Lemma ends_nonws_tail c s :
  ends_nonws (String c s) = true -> s <> "" -> ends_nonws s = true.
Proof. destruct s; [congruence | auto]. Qed.

Lemma ends_nonws_nonempty s : ends_nonws s = true -> s <> "".
Proof. destruct s; [discriminate | congruence]. Qed.

Lemma trimEnd_ends s : trimEnd s <> "" -> ends_nonws (trimEnd s) = true.
Proof.
  induction s as [|c s IH]; simpl; [congruence|].
  destruct (trimEnd s) as [|c' t] eqn:E.
  - destruct (is_ws c) eqn:Hc; [congruence|]. intros _. simpl. now rewrite Hc.
  - intros _. apply IH. congruence.
Qed.

Lemma trimEnd_nonempty s : ends_nonws s = true -> trimEnd s <> "".
Proof.
  induction s as [|c s IH]; simpl; [discriminate|].
  destruct s as [|c' s'].
  - intros Hc. simpl. destruct (is_ws c); [discriminate | congruence].
  - intros H. specialize (IH H).
    destruct (trimEnd (String c' s')); congruence.
Qed.

Lemma trimStart_ends s : ends_nonws s = true -> ends_nonws (trimStart s) = true.
Proof.
  induction s as [|c s IH]; [auto|].
  intros H. simpl. destruct (is_ws c) eqn:Hc; [|exact H].
  apply IH. apply (ends_nonws_tail c); [exact H|].
  intros ->. simpl in H. now rewrite Hc in H.
Qed.

Lemma trim_nonempty s : ends_nonws s = true -> trim s <> "".
Proof. intros H. apply trimEnd_nonempty, trimStart_ends, H. Qed.

Lemma trim_ends s : trim s <> "" -> ends_nonws (trim s) = true.
Proof. apply trimEnd_ends. Qed.

Lemma span_digits_rest_ends s d r :
  span_digits s = (d, r) -> r <> "" ->
  ends_nonws s = true -> ends_nonws r = true.
Proof.
  revert d r. induction s as [|c s IH]; simpl; intros d r.
  - intros [= <- <-]. congruence.
  - destruct (is_digit c).
    + destruct (span_digits s) as [d' r'] eqn:E. intros [= <- <-] Hr H.
      apply (IH d' r' eq_refl Hr). apply (ends_nonws_tail c); [exact H|].
      intros ->. simpl in E. congruence.
    + intros [= <- <-] _ H. exact H.
Qed.

Lemma parse_digits_span s : forall acc d r,
  span_digits s = (d, r) -> 0 <= acc -> 0 <= parse_digits acc d.
Proof.
  induction s as [|c s IH]; simpl; intros acc d r.
  - intros [= <- <-] H. exact H.
  - destruct (is_digit c) eqn:Hc.
    + destruct (span_digits s) as [d' r'] eqn:E. intros [= <- <-] H. simpl.
      apply (IH _ d' r' eq_refl).
      unfold is_digit in Hc. apply andb_prop in Hc as [H1 H2].
      apply N.leb_le in H1, H2. unfold digit_val. lia.
    + intros [= <- <-] H. exact H.
Qed.

End StringFacts.

(** ** The parser *)

Section Parser.

Lemma ws_then_rest_ends s m :
  LineRegex.ws_then_rest s = Some m ->
  ends_nonws s = true -> ends_nonws m = true.
Proof.
  revert m. induction s as [|c s IH]; intros m Hm H;
    cbn [LineRegex.ws_then_rest] in Hm; [discriminate|].
  destruct (LineRegex.ws_then_rest s) as [r|] eqn:E.
  - destruct (is_ws c).
    + injection Hm as <-. apply IH; [reflexivity|].
      apply (ends_nonws_tail c); [exact H|]. intros Hs. rewrite Hs in E.
      discriminate E.
    + destruct (LineRegex.dot_plus_end (String c s)); [|discriminate].
      injection Hm as <-. exact H.
  - destruct (is_ws c), (LineRegex.dot_plus_end (String c s));
      try discriminate; injection Hm as <-; exact H.
Qed.

Lemma skip_x_ends r c r' :
  LineRegex.skip_x r = String c r' ->
  ends_nonws r = true -> ends_nonws (String c r') = true.
Proof.
  destruct r as [|a r0]; intros Hx H; simpl in Hx; [discriminate|].
  destruct (Ascii.eqb a "x" || Ascii.eqb a "X").
  - subst r0. apply (ends_nonws_tail a); [exact H | congruence].
  - injection Hx as <- <-. exact H.
Qed.

(** What a match of the line expression captures. *)
Lemma exec_groups s g1 g2 :
  LineRegex.exec s = Some (g1, g2) ->
  ends_nonws s = true ->
  0 <= parseInt g1 /\ ends_nonws g2 = true.
Proof.
  unfold LineRegex.exec.
  destruct (span_digits s) as [d r] eqn:E.
  destruct d as [|d0 d']; [discriminate|].
  destruct (LineRegex.skip_x r) as [|c r'] eqn:Ex; [discriminate|].
  destruct (is_ws c) eqn:Hc; [|discriminate].
  destruct (LineRegex.ws_then_rest r') as [m|] eqn:Em; [|discriminate].
  intros [= <- <-] Hs. split.
  - apply (parse_digits_span s 0 _ r E). lia.
  - apply (ws_then_rest_ends r' m Em).
    assert (Hr : r <> "") by (intros ->; discriminate Ex).
    pose proof (span_digits_rest_ends s _ r E Hr Hs) as H1.
    pose proof (skip_x_ends r c r' Ex H1) as H2.
    apply (ends_nonws_tail c); [exact H2|]. intros ->. discriminate Em.
Qed.

Lemma parseLine_entry line card :
  parseLine line = Some card -> 0 <= quantity card /\ name card <> "".
Proof.
  unfold parseLine.
  destruct (String.eqb (trim line) "") eqn:Ht; [discriminate|].
  apply eqb_empty_false in Ht.
  destruct (startsWith _ _ || startsWith _ _ || startsWith _ _);
    [discriminate|].
  destruct (is_section_label _); [discriminate|].
  destruct (LineRegex.exec (trim line)) as [[g1 g2]|] eqn:E.
  - intros [= <-]. simpl.
    destruct (exec_groups _ _ _ E (trim_ends _ Ht)) as [Hq Hn].
    split; [exact Hq | apply trim_nonempty, Hn].
  - destruct (_ && _ && _); [|discriminate].
    intros [= <-]. simpl. split; [lia | exact Ht].
Qed.

End Parser.

Lemma parseDeckList_entries_quantity deckText card :
  card ∈ parseDeckList deckText -> 0 <= quantity card /\ name card <> "".
Proof.
  unfold parseDeckList. intros H.
  apply list_elem_of_omap in H as (line & _ & Hline).
  exact (parseLine_entry line card Hline).
Qed.

(** C4 (as amended). Every entry produced by [parseDeckList] has a
    quantity of at least 0 and a non-empty name, whatever the input
    text. *)
Theorem parseDeckList_entries_wellformed (deckText : string) (card : CardEntry) :
  card ∈ parseDeckList deckText ->
  0 <= quantity card /\ name card <> "".
Proof.
  unfold parseDeckList. intros H.
  apply list_elem_of_omap in H as (line & _ & Hline).
  exact (parseLine_entry line card Hline).
Qed.

Lemma parseDeckList_entries_wellformed_witness :
  0 <= quantity (mkCard 0 "Forest") /\ name (mkCard 0 "Forest") <> "".
Proof.
  apply (parseDeckList_entries_wellformed "0 Forest").
  assert (E : parseDeckList "0 Forest" = [mkCard 0 "Forest"]) by reflexivity.
  rewrite E. constructor.
Defined.

(** C4 as stated fails: the line "0 Forest" is parsed into an entry of
    quantity 0, so not every parsed entry has a quantity of at least 1. *)
Lemma parseDeckList_quantity_zero :
  ~ (forall card : CardEntry,
       card ∈ parseDeckList "0 Forest" ->
       1 <= quantity card /\ name card <> "").
Proof.
  intros H. destruct (H (mkCard 0 "Forest")) as [Hq _].
  - assert (E : parseDeckList "0 Forest" = [mkCard 0 "Forest"]) by reflexivity.
    rewrite E. constructor.
  - simpl in Hq. lia.
Qed.

(** ** removeDuplicates *)

Section RemoveDuplicates.

Lemma removeDuplicates_from_idempotent cards : forall seen,
  removeDuplicates_from seen (removeDuplicates_from seen cards)
  = removeDuplicates_from seen cards.
Proof.
  induction cards as [|card rest IH]; intros seen; [reflexivity|].
  cbn [removeDuplicates_from].
  destruct (isBasicLand (name card)) eqn:Hb.
  - cbn [removeDuplicates_from]. rewrite Hb. f_equal. apply IH.
  - destruct (decide (toLowerCase (name card) ∈ seen)) as [Hin|Hout].
    + apply IH.
    + cbn [removeDuplicates_from name]. rewrite Hb.
      destruct (decide (toLowerCase (name card) ∈ seen)); [contradiction|].
      f_equal. apply IH.
Qed.

Lemma seen_after_has pre seen card :
  seen_after pre seen -> isBasicLand (name card) = false ->
  (toLowerCase (name card) ∈ seen <->
   existsb (fun earlier => same_name (name earlier) (name card)) pre = true).
Proof.
  intros Hs Hb. rewrite (Hs _), existsb_exists. unfold same_name. split.
  - intros (e & He & _ & Hk). exists e. split.
    + now apply list_elem_of_In.
    + now apply String.eqb_eq.
  - intros (e & He & Hk). apply String.eqb_eq in Hk. exists e.
    split; [now apply list_elem_of_In|]. split; [|exact Hk].
    unfold isBasicLand in *. now rewrite Hk.
Qed.

Lemma seen_after_snoc_skip pre seen card :
  seen_after pre seen ->
  isBasicLand (name card) = true \/ toLowerCase (name card) ∈ seen ->
  seen_after (pre ++ [card]) seen.
Proof.
  intros Hs Hc k. rewrite (Hs k). split.
  - intros (e & He & Hb & Hk). exists e. rewrite elem_of_app. auto.
  - intros (e & He & Hb & Hk). apply elem_of_app in He as [He|He].
    + exists e. auto.
    + apply list_elem_of_singleton in He as ->.
      destruct Hc as [Hc|Hc]; [congruence|].
      subst k. now apply Hs.
Qed.

Lemma seen_after_snoc_add pre seen card :
  seen_after pre seen -> isBasicLand (name card) = false ->
  seen_after (pre ++ [card]) ({[toLowerCase (name card)]} ∪ seen).
Proof.
  intros Hs Hb k. rewrite elem_of_union, elem_of_singleton, (Hs k). split.
  - intros [->|(e & He & Hbe & Hk)].
    + exists card. rewrite elem_of_app, list_elem_of_singleton. auto.
    + exists e. rewrite elem_of_app. auto.
  - intros (e & He & Hbe & Hk). apply elem_of_app in He as [He|He].
    + right. exists e. auto.
    + apply list_elem_of_singleton in He as ->. now left.
Qed.

Lemma removeDuplicates_from_spec cards : forall pre seen,
  seen_after pre seen ->
  removeDuplicates_from seen cards
  = concat (imap (fun i => kept (pre ++ cards) (length pre + i)) cards).
Proof.
  induction cards as [|card rest IH]; intros pre seen Hs; [reflexivity|].
  cbn [removeDuplicates_from imap concat].
  assert (Htail : forall seen', seen_after (pre ++ [card]) seen' ->
            removeDuplicates_from seen' rest
            = concat (imap ((fun i => kept (pre ++ card :: rest)
                                           (length pre + i)) ∘ S) rest)).
  { intros seen' Hs'. rewrite (IH (pre ++ [card]) seen' Hs').
    f_equal. apply imap_ext. intros i c _. simpl.
    rewrite <- app_assoc, length_app. simpl. f_equal. lia. }
  unfold kept at 1.
  rewrite Nat.add_0_r, take_app_length.
  destruct (isBasicLand (name card)) eqn:Hb.
  - simpl. f_equal. apply Htail. apply seen_after_snoc_skip; auto.
  - pose proof (seen_after_has pre seen card Hs Hb) as Hhas.
    destruct (decide (toLowerCase (name card) ∈ seen)) as [Hin|Hout].
    + rewrite (proj1 Hhas Hin). simpl.
      apply Htail. apply seen_after_snoc_skip; auto.
    + destruct (existsb _ pre) eqn:Hex; [destruct Hout; now apply Hhas|].
      simpl. f_equal. apply Htail. now apply seen_after_snoc_add.
Qed.

End RemoveDuplicates.

(** C7. [removeDuplicates] is idempotent, and it is the function the
    specification describes: every occurrence of a basic land passes
    through unchanged, and of the other names (compared ignoring case)
    only the first occurrence is kept, with its quantity forced to 1. *)
Theorem removeDuplicates_idempotent_first_occurrence (cards : list CardEntry) :
  removeDuplicates (removeDuplicates cards) = removeDuplicates cards
  /\ removeDuplicates cards = removeDuplicates_spec cards.
Proof.
  split.
  - apply removeDuplicates_from_idempotent.
  - unfold removeDuplicates, removeDuplicates_spec.
    apply (removeDuplicates_from_spec cards [] ∅).
    intros k. split; [set_solver|].
    intros (e & He & _). now apply elem_of_nil in He.
Qed.

(** ** Dictionaries *)

Section ObjFacts.

Context {V : Type}.
Implicit Types (o : Obj.t V) (k : string) (v : V).

Lemma elem_of_map {A B} (f : A -> B) (l : list A) (y : B) :
  y ∈ map f l <-> exists x, y = f x /\ x ∈ l.
Proof.
  rewrite list_elem_of_In, in_map_iff. split.
  - intros (x & <- & Hx). exists x. now rewrite list_elem_of_In.
  - intros (x & -> & Hx). exists x. now rewrite <- list_elem_of_In.
Qed.

Lemma own_assign o k v k' :
  Obj.own (Obj.assign o k v) k'
  = if String.eqb k k' then Some v else Obj.own o k'.
Proof.
  induction o as [|[k0 v0] o IH]; simpl.
  - destruct (String.eqb k k'); reflexivity.
  - destruct (String.eqb k0 k) eqn:E0; simpl.
    + apply String.eqb_eq in E0 as ->.
      destruct (String.eqb k k'); reflexivity.
    + destruct (String.eqb k0 k') eqn:E1; [|exact IH].
      apply String.eqb_eq in E1 as ->. now rewrite String.eqb_sym, E0.
Qed.

Lemma own_None o k : Obj.own o k = None <-> k ∉ Obj.keys o.
Proof.
  unfold Obj.keys. induction o as [|[k0 v0] o IH]; simpl.
  - split; [intros _; apply not_elem_of_nil | reflexivity].
  - rewrite not_elem_of_cons. destruct (String.eqb k0 k) eqn:E.
    + apply String.eqb_eq in E as ->. split; [discriminate|]. now intros [].
    + apply String.eqb_neq in E. rewrite IH. split; [auto | now intros []].
Qed.

Lemma keys_assign o k v :
  Obj.keys (Obj.assign o k v)
  = match Obj.own o k with
    | Some _ => Obj.keys o
    | None => Obj.keys o ++ [k]
    end.
Proof.
  unfold Obj.keys. induction o as [|[k0 v0] o IH]; simpl; [reflexivity|].
  destruct (String.eqb k0 k) eqn:E; simpl; [reflexivity|].
  rewrite IH. now destruct (Obj.own o k).
Qed.

Lemma own_place n o k v k' :
  Obj.own o k = None ->
  Obj.own (Obj.place n k v o) k'
  = if String.eqb k k' then Some v else Obj.own o k'.
Proof.
  induction o as [|[k0 v0] o IH]; intros Hk; cbn [Obj.place Obj.own].
  - reflexivity.
  - cbn [Obj.own] in Hk. destruct (String.eqb k0 k) eqn:E0; [discriminate|].
    destruct (Obj.index_of k0) as [n0|]; [destruct (n <? n0)|];
      cbn [Obj.own]; try reflexivity.
    rewrite (IH Hk). destruct (String.eqb k0 k') eqn:E1; [|reflexivity].
    apply String.eqb_eq in E1 as ->. now rewrite String.eqb_sym, E0.
Qed.

Lemma keys_place n o k v : Obj.keys (Obj.place n k v o) ≡ₚ k :: Obj.keys o.
Proof.
  unfold Obj.keys. induction o as [|[k0 v0] o IH]; cbn [Obj.place map fst].
  - reflexivity.
  - destruct (Obj.index_of k0) as [n0|]; [destruct (n <? n0)|];
      cbn [map fst]; try reflexivity.
    rewrite IH. apply perm_swap.
Qed.

(** Writing a key other than [__proto__] is read back, and changes no
    other key. *)
Lemma own_set o k v k' :
  k <> "__proto__" ->
  Obj.own (Obj.set o k v) k'
  = if String.eqb k k' then Some v else Obj.own o k'.
Proof.
  intros Hk. unfold Obj.set.
  destruct (String.eqb k "__proto__") eqn:E;
    [apply String.eqb_eq in E; contradiction|].
  destruct (Obj.own o k) eqn:Eo; [apply own_assign|].
  destruct (Obj.index_of k); [now apply own_place | apply own_assign].
Qed.

Lemma set_proto o v : Obj.set o "__proto__" v = o.
Proof. reflexivity. Qed.

(** The keys after a write: those before it, and the key written unless
    it is [__proto__]. *)
Lemma elem_of_keys_set o k v x :
  x ∈ Obj.keys (Obj.set o k v)
  <-> x ∈ Obj.keys o \/ (x = k /\ k <> "__proto__").
Proof.
  unfold Obj.set. destruct (String.eqb k "__proto__") eqn:E.
  - apply String.eqb_eq in E. split; [auto | intros [H|[_ H]]; tauto].
  - apply String.eqb_neq in E.
    assert (Hassign : x ∈ Obj.keys (Obj.assign o k v)
                      <-> x ∈ Obj.keys o \/ (x = k /\ k <> "__proto__")).
    { rewrite keys_assign. destruct (Obj.own o k) eqn:Eo.
      - split; [auto|]. intros [H|[-> _]]; [exact H|].
        destruct (decide (k ∈ Obj.keys o)) as [Hin|Hout]; [exact Hin|].
        apply own_None in Hout. congruence.
      - rewrite elem_of_app, list_elem_of_singleton. tauto. }
    destruct (Obj.own o k) eqn:Eo; [exact Hassign|].
    destruct (Obj.index_of k); [|exact Hassign].
    rewrite keys_place, elem_of_cons. tauto.
Qed.

Lemma NoDup_keys_set o k v :
  NoDup (Obj.keys o) -> NoDup (Obj.keys (Obj.set o k v)).
Proof.
  intros H. unfold Obj.set. destruct (String.eqb k "__proto__"); [exact H|].
  assert (Hassign : NoDup (Obj.keys (Obj.assign o k v))).
  { rewrite keys_assign. destruct (Obj.own o k) eqn:E; [exact H|].
    apply NoDup_app. split; [exact H|]. split.
    - intros x Hx Hk. apply list_elem_of_singleton in Hk as ->.
      now apply own_None in E.
    - apply NoDup_singleton. }
  destruct (Obj.own o k) eqn:E; [exact Hassign|].
  destruct (Obj.index_of k); [|exact Hassign].
  rewrite keys_place. apply NoDup_cons. split; [|exact H].
  now apply own_None.
Qed.

Lemma keys_set_length o k v :
  (length (Obj.keys (Obj.set o k v)) <= S (length (Obj.keys o)))%nat.
Proof.
  unfold Obj.set. destruct (String.eqb k "__proto__"); [lia|].
  assert (Hassign : (length (Obj.keys (Obj.assign o k v))
                     <= S (length (Obj.keys o)))%nat).
  { rewrite keys_assign. destruct (Obj.own o k);
      rewrite ?length_app; cbn [length]; lia. }
  destruct (Obj.own o k); [exact Hassign|].
  destruct (Obj.index_of k); [|exact Hassign].
  rewrite (Permutation_length (keys_place _ _ _ _)). cbn [length]. lia.
Qed.

(** A key that is neither [__proto__] nor an array index is written in
    place, or appended. *)
Lemma keys_set_plain o k v :
  k <> "__proto__" -> Obj.index_of k = None ->
  Obj.keys (Obj.set o k v)
  = match Obj.own o k with
    | Some _ => Obj.keys o
    | None => Obj.keys o ++ [k]
    end.
Proof.
  intros Hk Hi. unfold Obj.set.
  destruct (String.eqb k "__proto__") eqn:E;
    [apply String.eqb_eq in E; contradiction|].
  rewrite Hi. destruct (Obj.own o k) eqn:Eo; rewrite keys_assign, Eo;
    reflexivity.
Qed.

(** Reading a key that [Object.prototype] does not define. *)
Lemma get_not_inherited o k :
  list_includes Obj.inherited k = false ->
  Obj.get o k = match Obj.own o k with
                | Some v => Obj.Own v
                | None => Obj.Undefined
                end.
Proof. intros H. unfold Obj.get. now rewrite H. Qed.

Lemma not_inherited_proto k :
  list_includes Obj.inherited k = false -> k <> "__proto__".
Proof. intros H ->. discriminate H. Qed.

Lemma own_elem_of o k v : Obj.own o k = Some v -> (k, v) ∈ Obj.entries o.
Proof.
  unfold Obj.entries. induction o as [|[k0 v0] o IH]; simpl; [discriminate|].
  destruct (String.eqb k0 k) eqn:E.
  - apply String.eqb_eq in E as ->. intros [= ->]. left.
  - intros H. right. now apply IH.
Qed.

Lemma elem_of_own o k v :
  NoDup (Obj.keys o) -> (k, v) ∈ Obj.entries o -> Obj.own o k = Some v.
Proof.
  unfold Obj.entries, Obj.keys.
  induction o as [|[k0 v0] o IH]; simpl; intros Hnd Hin.
  - now apply elem_of_nil in Hin.
  - apply NoDup_cons in Hnd as [Hk0 Hnd].
    apply elem_of_cons in Hin as [[= -> ->]|Hin].
    + now rewrite String.eqb_refl.
    + destruct (String.eqb k0 k) eqn:E; [|now apply IH].
      apply String.eqb_eq in E as ->. destruct Hk0.
      apply elem_of_map. exists (k, v). auto.
Qed.

End ObjFacts.

(** ** The validator *)

Section Validator.

Lemma sum_quantities_app l1 l2 :
  sum_quantities (l1 ++ l2) = sum_quantities l1 + sum_quantities l2.
Proof.
  unfold sum_quantities. induction l1 as [|c l1 IH]; simpl; [reflexivity|].
  rewrite IH. lia.
Qed.

Lemma nameCount_app k l1 l2 :
  nameCount k (l1 ++ l2) = nameCount k l1 + nameCount k l2.
Proof. unfold nameCount. now rewrite List.filter_app, sum_quantities_app. Qed.

Lemma nameCount_cons k c l :
  nameCount k (c :: l) = (if named k c then quantity c else 0) + nameCount k l.
Proof. unfold nameCount. simpl. now destruct (named k c). Qed.

Lemma nameCount_absent k l : existsb (named k) l = false -> nameCount k l = 0.
Proof.
  induction l as [|c l IH]; [reflexivity|]. simpl. rewrite nameCount_cons.
  intros H. apply orb_false_elim in H as [-> H]. rewrite (IH H). lia.
Qed.

Lemma own_set_other {V} (o : Obj.t V) k v k' :
  String.eqb k k' = false -> Obj.own (Obj.set o k v) k' = Obj.own o k'.
Proof.
  intros E. destruct (String.eqb k "__proto__") eqn:Ep.
  - apply String.eqb_eq in Ep as ->. reflexivity.
  - apply String.eqb_neq in Ep. now rewrite (own_set o k v k' Ep), E.
Qed.

Lemma bump_own_other counts k q k' :
  String.eqb k k' = false -> Obj.own (bump counts k q) k' = Obj.own counts k'.
Proof.
  intros E. unfold bump.
  destruct (Obj.get counts k) as [[n|origin suffix]| |];
    [destruct (n =? 0)| | |]; now apply own_set_other.
Qed.

Lemma bump_NoDup counts k q :
  NoDup (Obj.keys counts) -> NoDup (Obj.keys (bump counts k q)).
Proof.
  intros H. unfold bump.
  destruct (Obj.get counts k) as [[n|origin suffix]| |];
    [destruct (n =? 0)| | |]; now apply NoDup_keys_set.
Qed.

Lemma nameCount_single k card :
  nameCount k [card] = if named k card then quantity card else 0.
Proof. rewrite nameCount_cons. unfold nameCount. simpl. lia. Qed.

Lemma counted_snoc k pre card :
  counted k (pre ++ [card])
  = counted k pre || (named k card && negb (list_includes BASIC_LANDS k)).
Proof.
  unfold counted. rewrite existsb_app. cbn [existsb]. rewrite orb_false_r.
  now destruct (existsb (named k) pre), (named k card),
               (list_includes BASIC_LANDS k).
Qed.

Lemma counted_false k pre :
  list_includes BASIC_LANDS k = false ->
  counted k pre = false -> nameCount k pre = 0.
Proof.
  unfold counted. intros -> H. rewrite andb_true_r in H.
  now apply nameCount_absent.
Qed.

(** The entry under the name of the card just counted. *)
Lemma bump_own_counted pre st card :
  tally_inv pre st ->
  isBasicLand (name card) = false ->
  let k := toLowerCase (name card) in
  match Obj.own (bump (cardCounts st) k (quantity card)) k with
  | Some (Num n) =>
      list_includes Obj.inherited k = false
      /\ n = nameCount k pre + quantity card
  | Some (Text _ _) =>
      list_includes Obj.inherited k = true /\ k <> "__proto__"
  | None => k = "__proto__"
  end.
Proof.
  intros (_ & _ & Hinv) Hb k. specialize (Hinv k).
  unfold isBasicLand in Hb. fold k in Hb.
  unfold bump, Obj.get.
  destruct (Obj.own (cardCounts st) k) as [[n|origin suffix]|] eqn:Eo.
  - destruct Hinv as (_ & Hi & ->).
    pose proof (not_inherited_proto k Hi) as Hp.
    destruct (nameCount k pre =? 0) eqn:E0;
      rewrite (own_set _ _ _ _ Hp), String.eqb_refl; (split; [exact Hi|]).
    + apply Z.eqb_eq in E0. lia.
    + reflexivity.
  - destruct Hinv as (_ & Hi & Hp).
    rewrite (own_set _ _ _ _ Hp), String.eqb_refl. now split.
  - destruct (list_includes Obj.inherited k) eqn:Hi.
    + destruct (String.eqb k "__proto__") eqn:Ep.
      * apply String.eqb_eq in Ep. rewrite Ep in Eo |- *.
        now rewrite set_proto, Eo.
      * apply String.eqb_neq in Ep.
        rewrite (own_set _ _ _ _ Ep), String.eqb_refl. now split.
    + pose proof (not_inherited_proto k Hi) as Hp.
      rewrite (own_set _ _ _ _ Hp), String.eqb_refl. split; [reflexivity|].
      destruct Hinv as [Hc|Hc]; [|contradiction].
      rewrite (counted_false k pre Hb Hc). lia.
Qed.

Lemma tally_card_inv pre st card :
  tally_inv pre st -> tally_inv (pre ++ [card]) (tally_card st card).
Proof.
  intros Hinv. pose proof Hinv as (Hnd & Htot & Hown).
  unfold tally_card, tally_inv.
  cbn [cardCounts tally_total]. split; [|split].
  - destruct (isBasicLand (name card)); cbn [negb]; [exact Hnd|].
    now apply bump_NoDup.
  - rewrite sum_quantities_app, Htot. unfold sum_quantities. simpl. lia.
  - intros k. rewrite counted_snoc, nameCount_app, nameCount_single.
    destruct (named k card) eqn:E.
    + unfold named in E. apply String.eqb_eq in E. subst k.
      destruct (isBasicLand (name card)) eqn:Hb; cbn [negb].
      * specialize (Hown (toLowerCase (name card))).
        unfold isBasicLand in Hb. unfold counted in Hown |- *.
        rewrite Hb in Hown |- *. cbn [negb] in *.
        rewrite !andb_false_r in *. cbn [orb].
        destruct (Obj.own (cardCounts st) (toLowerCase (name card)))
          as [[n|origin suffix]|]; [now destruct Hown ..| now left].
      * pose proof (bump_own_counted pre st card Hinv Hb) as Hk.
        cbn zeta in Hk. unfold isBasicLand in Hb. rewrite Hb. cbn [negb andb].
        rewrite orb_true_r.
        destruct (Obj.own (bump _ _ _) _) as [[n|origin suffix]|].
        -- destruct Hk as [Hi ->]. auto.
        -- destruct Hk as [Hi Hp]. auto.
        -- now right.
    + cbn [andb]. rewrite orb_false_r, Z.add_0_r.
      assert (Hsame : Obj.own (if negb (isBasicLand (name card))
                               then bump (cardCounts st)
                                         (toLowerCase (name card))
                                         (quantity card)
                               else cardCounts st) k
                      = Obj.own (cardCounts st) k).
      { destruct (isBasicLand (name card)); cbn [negb]; [reflexivity|].
        apply bump_own_other. exact E. }
      rewrite Hsame. apply Hown.
Qed.

Lemma tally_from_inv cards : forall pre st,
  tally_inv pre st ->
  tally_inv (pre ++ cards) (fold_left tally_card cards st).
Proof.
  induction cards as [|card rest IH]; intros pre st H; simpl.
  - now rewrite app_nil_r.
  - replace (pre ++ card :: rest) with ((pre ++ [card]) ++ rest)
      by now rewrite <- app_assoc.
    apply IH, tally_card_inv, H.
Qed.

Lemma tally_invariant cards : tally_inv cards (tally cards).
Proof.
  apply (tally_from_inv cards []). unfold tally_inv. simpl.
  split; [apply NoDup_nil_2 | split; [reflexivity|]]. intros k. now left.
Qed.

Lemma isValid_iff cards options :
  isValid (validateParsedDeck cards options) = true
  <-> errors (validateParsedDeck cards options) = [].
Proof.
  unfold validateParsedDeck. cbn [isValid errors].
  rewrite Nat.eqb_eq. apply length_zero_iff_nil.
Qed.

Lemma counted_elem_of cards card :
  card ∈ cards -> isBasicLand (name card) = false ->
  counted (toLowerCase (name card)) cards = true.
Proof.
  intros Hin Hb. unfold counted. unfold isBasicLand in Hb. rewrite Hb.
  rewrite andb_true_r. apply existsb_exists. exists card.
  split; [now apply list_elem_of_In | apply String.eqb_refl].
Qed.

(** Under a name that [Object.prototype] does not define, the dictionary
    holds the summed quantity of the name. *)
Lemma tally_own_plain cards card :
  card ∈ cards -> isBasicLand (name card) = false ->
  list_includes Obj.inherited (toLowerCase (name card)) = false ->
  Obj.own (cardCounts (tally cards)) (toLowerCase (name card))
  = Some (Num (nameCount (toLowerCase (name card)) cards)).
Proof.
  intros Hin Hb Hi. destruct (tally_invariant cards) as (_ & _ & Hown).
  specialize (Hown (toLowerCase (name card))).
  pose proof (counted_elem_of cards card Hin Hb) as Hc.
  destruct (Obj.own _ _) as [[n|origin suffix]|].
  - now destruct Hown as (_ & _ & ->).
  - destruct Hown as (_ & Hi' & _). congruence.
  - destruct Hown as [Hc'|Hp]; [congruence|].
    rewrite Hp in Hi. discriminate Hi.
Qed.

Lemma duplicate_reported cards options card :
  list_includes Obj.inherited (toLowerCase (name card)) = false ->
  card ∈ cards ->
  isBasicLand (name card) = false ->
  1 < nameCount (toLowerCase (name card)) cards ->
  let k := toLowerCase (name card) in
  let r := validateParsedDeck cards options in
  duplicate_error k (nameCount k cards) ∈ errors r
  /\ mkDuplicate k (nameCount k cards) ∈ duplicates r.
Proof.
  intros Hi Hin Hb Hcount k r.
  pose proof (tally_own_plain cards card Hin Hb Hi) as Hown. fold k in Hown.
  apply own_elem_of in Hown.
  assert (Hdup : (k, nameCount k cards)
                 ∈ omap is_duplicate (Obj.entries (cardCounts (tally cards)))).
  { apply list_elem_of_omap. exists (k, Num (nameCount k cards)).
    split; [exact Hown|]. unfold is_duplicate. cbn [fst snd].
    apply Z.ltb_lt in Hcount. fold k in Hcount. now rewrite Hcount. }
  subst r. unfold validateParsedDeck. cbn [errors duplicates]. split.
  - apply elem_of_app. left. apply elem_of_map. eexists. split; [|exact Hdup].
    reflexivity.
  - apply elem_of_map. eexists. split; [|exact Hdup]. reflexivity.
Qed.

End Validator.

(** C1 at the deck the line "2 Constructor" is parsed to. The two copies
    of the card are not reported: the dictionary of counts is a plain
    object, under the key [constructor] it reads the function inherited
    from [Object.prototype], appends the quantity to it and stores a
    string, which the test [count > 1] does not pass. The deck is valid
    for an expected size of 2, with no error and no duplicate. Two copies
    of Sol Ring are reported, as is the duplicate of the example of the
    claim; and [removeDuplicates], which keeps its names in a [Set],
    treats the name as any other. *)
Theorem validateParsedDeck_misses_inherited_name :
  parseDeckList "2 Constructor" = [mkCard 2 "Constructor"]
  /\ (let r := validateParsedDeck [mkCard 2 "Constructor"]
                                  (mkOptions (Some 2) None) in
      isValid r = true /\ errors r = [] /\ duplicates r = []
      /\ hasDuplicates r = false /\ totalCards r = 2
      /\ uniqueCards r = 1%nat)
  /\ (let r := validateParsedDeck [mkCard 2 "Sol Ring"]
                                  (mkOptions (Some 2) None) in
      isValid r = false
      /\ errors r
         = ["Duplicate card: " +:+ dquote +:+ "sol ring" +:+ dquote
            +:+ " appears 2 times (singleton format allows only 1)"]
      /\ duplicates r = [mkDuplicate "sol ring" 2])
  /\ (let r := validateParsedDeck sol_ring_deck (mkOptions (Some 100) None) in
      isValid r = false
      /\ errors r
         = ["Duplicate card: " +:+ dquote +:+ "sol ring" +:+ dquote
            +:+ " appears 2 times (singleton format allows only 1)"])
  /\ removeDuplicates [mkCard 1 "Constructor"; mkCard 1 "constructor"]
     = [mkCard 1 "Constructor"].
Proof. repeat split; vm_compute; reflexivity. Qed.

(** X28. What [validateParsedDeck] guarantees: for a deck none of whose
    names is, in lower case, the name of a property of
    [Object.prototype], and whose quantities are not negative and add up
    to at most 2^53, [totalCards] is the sum of the quantities; every
    name that is not a basic land and whose quantity, summed over the
    deck ignoring case, exceeds 1 yields an error naming the (lower-cased)
    card and that count, and an entry of [duplicates]; and [isValid] is
    true exactly when [errors] is empty. *)
Theorem validateParsedDeck_totals_and_duplicates
    (cards : list CardEntry) (options : Options) :
  plain_names cards ->
  exact_quantities cards ->
  let r := validateParsedDeck cards options in
  totalCards r = sum_quantities cards
  /\ (forall card,
        card ∈ cards ->
        isBasicLand (name card) = false ->
        1 < nameCount (toLowerCase (name card)) cards ->
        "Duplicate card: " +:+ dquote +:+ toLowerCase (name card) +:+ dquote
        +:+ " appears "
        +:+ pretty (nameCount (toLowerCase (name card)) cards)
        +:+ " times (singleton format allows only 1)"
          ∈ errors r
        /\ mkDuplicate (toLowerCase (name card))
                       (nameCount (toLowerCase (name card)) cards)
          ∈ duplicates r)
  /\ (isValid r = true <-> errors r = []).
Proof.
  intros Hplain _ r. split; [|split].
  - destruct (tally_invariant cards) as (_ & Htot & _). exact Htot.
  - intros card Hin Hb Hcount.
    apply (duplicate_reported cards options card); try assumption.
    unfold plain_names in Hplain. rewrite Forall_forall in Hplain.
    now apply Hplain.
  - apply isValid_iff.
Qed.

Lemma validateParsedDeck_totals_and_duplicates_witness :
  totalCards (validateParsedDeck [mkCard 2 "Sol Ring"; mkCard 1 "Forest"]
                                 no_options)
  = sum_quantities [mkCard 2 "Sol Ring"; mkCard 1 "Forest"].
Proof.
  apply (validateParsedDeck_totals_and_duplicates
           [mkCard 2 "Sol Ring"; mkCard 1 "Forest"] no_options).
  - repeat constructor.
  - split; [repeat constructor; cbn; lia | vm_compute; discriminate].
Defined.

(** ** Re-parsing a formatted deck *)

Section Reparse.

Lemma split_nl_no_newline s : no_newline s = true -> split_nl s = [s].
Proof.
  induction s as [|c s IH]; [reflexivity|]. cbn [no_newline split_nl].
  intros H. apply andb_prop in H as [Hc Hs].
  apply negb_true_iff in Hc. rewrite Hc, (IH Hs). reflexivity.
Qed.

Lemma split_nl_app a b :
  no_newline a = true ->
  split_nl (a +:+ String newline b) = a :: split_nl b.
Proof.
  induction a as [|c a IH]; intros H.
  - reflexivity.
  - cbn [no_newline] in H. apply andb_prop in H as [Hc Ha].
    apply negb_true_iff in Hc.
    change (String c a +:+ String newline b)
      with (String c (a +:+ String newline b)).
    cbn [split_nl]. rewrite Hc, (IH Ha). reflexivity.
Qed.

Lemma split_join_nl lines :
  lines <> [] -> Forall (fun l => no_newline l = true) lines ->
  split_nl (join_nl lines) = lines.
Proof.
  unfold join_nl. induction lines as [|l lines IH]; [congruence|].
  intros _ H. apply Forall_cons in H as [Hl H].
  destruct lines as [|l' lines'].
  - now apply split_nl_no_newline.
  - change (String.concat (String newline "") (l :: l' :: lines'))
      with (l +:+ String newline
              (String.concat (String newline "") (l' :: lines'))).
    rewrite (split_nl_app _ _ Hl). f_equal. apply IH; [congruence | exact H].
Qed.

Lemma no_line_terminator_no_newline s :
  LineRegex.no_line_terminator s = true -> no_newline s = true.
Proof.
  induction s as [|c s IH]; [reflexivity|].
  cbn [LineRegex.no_line_terminator no_newline].
  intros H. apply andb_prop in H as [Hc Hs]. rewrite (IH Hs), andb_true_r.
  unfold is_line_terminator in Hc. apply negb_true_iff, orb_false_elim in Hc.
  destruct Hc as [Hc _]. apply negb_true_iff, Ascii.eqb_neq.
  intros ->. discriminate Hc.
Qed.

Lemma ends_nonws_app a n :
  ends_nonws n = true -> ends_nonws (a +:+ n) = true.
Proof.
  intros H. induction a as [|c a IH]; [exact H|].
  change (String c a +:+ n) with (String c (a +:+ n)).
  cbn [ends_nonws]. destruct (a +:+ n) eqn:E; [discriminate IH | exact IH].
Qed.

Lemma trimEnd_fixed s : ends_nonws s = true -> trimEnd s = s.
Proof.
  induction s as [|c s IH]; [reflexivity|]. intros H. cbn [trimEnd].
  destruct s as [|c' s'].
  - cbn in H |- *. apply negb_true_iff in H. now rewrite H.
  - rewrite (IH H). reflexivity.
Qed.

Lemma trimStart_fixed s : starts_nonws s = true -> trimStart s = s.
Proof.
  destruct s as [|c s]; [reflexivity|]. cbn. intros H.
  apply negb_true_iff in H. now rewrite H.
Qed.

Lemma trim_clean n : clean_name n = true -> trim n = n.
Proof.
  unfold clean_name, trim. intros H.
  apply andb_prop in H as [H _]. apply andb_prop in H as [Hs He].
  now rewrite (trimStart_fixed n Hs), (trimEnd_fixed n He).
Qed.

Lemma trimEnd_starts s :
  trimEnd s <> "" -> starts_nonws s = true -> starts_nonws (trimEnd s) = true.
Proof.
  destruct s as [|c s]; [auto|]. cbn [trimEnd].
  destruct (trimEnd s); [|intros _ H; exact H].
  destruct (is_ws c) eqn:Hc; [intros H; now contradiction H|].
  intros _ _. cbn. now rewrite Hc.
Qed.

Lemma trimStart_starts s :
  trimStart s <> "" -> starts_nonws (trimStart s) = true.
Proof.
  induction s as [|c s IH]; [intros H; now contradiction H|].
  cbn [trimStart].
  destruct (is_ws c) eqn:Hc; [exact IH|]. intros _. cbn. now rewrite Hc.
Qed.

Lemma trim_starts s : trim s <> "" -> starts_nonws (trim s) = true.
Proof.
  unfold trim. intros H. apply trimEnd_starts; [exact H|].
  apply trimStart_starts. intros E. rewrite E in H. now apply H.
Qed.

Lemma not_section_label_digit s :
  LineRegex.leading_digit s = true -> is_section_label s = false.
Proof.
  unfold is_section_label. intros ->. cbn [negb].
  induction section_words as [|w ws IH]; [reflexivity|].
  cbn [existsb]. now rewrite andb_false_r, IH.
Qed.

(** A line written by [formatDeckList] is read back with quantity 1 and
    the same name. *)
Lemma parseLine_formatted n :
  clean_name n = true -> parseLine ("1x " +:+ n) = Some (mkCard 1 n).
Proof.
  intros Hclean. pose proof (trim_clean n Hclean) as Htrim.
  unfold clean_name in Hclean.
  apply andb_prop in Hclean as [H Hlt]. apply andb_prop in H as [Hs He].
  assert (Hline : trim ("1x " +:+ n) = "1x " +:+ n).
  { unfold trim. rewrite trimStart_fixed by reflexivity.
    apply trimEnd_fixed, ends_nonws_app, He. }
  unfold parseLine. rewrite Hline.
  replace (String.eqb ("1x " +:+ n) "") with false by reflexivity.
  replace (startsWith ("1x " +:+ n) "#" || startsWith ("1x " +:+ n) "**"
           || startsWith ("1x " +:+ n) "###") with false by reflexivity.
  rewrite not_section_label_digit by reflexivity.
  assert (Hexec : LineRegex.exec ("1x " +:+ n) = Some ("1", n)).
  { destruct n as [|c n']; [discriminate Hs|].
    cbn [starts_nonws] in Hs. apply negb_true_iff in Hs.
    change (LineRegex.exec ("1x " +:+ String c n'))
      with (match LineRegex.ws_then_rest (String c n') with
            | Some m => Some ("1", m)
            | None => None
            end).
    cbn [LineRegex.ws_then_rest]. rewrite Hs.
    unfold LineRegex.dot_plus_end. now rewrite Hlt. }
  rewrite Hexec, Htrim. reflexivity.
Qed.

Lemma parseLine_name_trimmed line card :
  parseLine line = Some card ->
  starts_nonws (name card) = true /\ ends_nonws (name card) = true.
Proof.
  intros H. destruct (parseLine_entry line card H) as [_ Hne].
  revert H Hne. unfold parseLine.
  destruct (String.eqb (trim line) "") eqn:Ht; [discriminate|].
  apply eqb_empty_false in Ht.
  destruct (startsWith _ _ || startsWith _ _ || startsWith _ _);
    [discriminate|].
  destruct (is_section_label _); [discriminate|].
  destruct (LineRegex.exec (trim line)) as [[g1 g2]|].
  - intros [= <-] Hne. cbn [name] in *.
    split; [now apply trim_starts | now apply trim_ends].
  - destruct (_ && _ && _); [|discriminate].
    intros [= <-] _. cbn [name].
    split; [now apply trim_starts | now apply trim_ends].
Qed.

(** Re-parsing the text written by [formatDeckList] gives back the names
    of the deck, in order, each with quantity 1. *)
Lemma reparse_formatDeckList deck :
  Forall (fun card => clean_name (name card) = true) deck ->
  parseDeckList (formatDeckList deck) = map as_singleton deck.
Proof.
  intros Hclean. destruct deck as [|card0 deck0]; [reflexivity|].
  remember (card0 :: deck0) as deck eqn:Hdeck.
  unfold parseDeckList, formatDeckList.
  rewrite split_join_nl.
  - clear Hdeck. induction Hclean as [|card deck Hc _ IH]; [reflexivity|].
    cbn [map]. change (omap parseLine (("1x " +:+ name card) :: ?l))
      with (match parseLine ("1x " +:+ name card) with
            | Some y => y :: omap parseLine l
            | None => omap parseLine l
            end).
    rewrite (parseLine_formatted _ Hc), IH. reflexivity.
  - subst deck. discriminate.
  - clear Hdeck. induction Hclean as [|card deck Hc _ IH]; constructor.
    + unfold clean_name in Hc. apply andb_prop in Hc as [_ Hlt].
      cbn [String.append no_newline]. cbn.
      now apply no_line_terminator_no_newline.
    + exact IH.
Qed.

(** For every text whose parsed names hold no carriage return, the second
    parse reproduces the names of the first one, in order, and gives every
    entry the quantity 1. *)
Lemma reparse_parsed deckText :
  Forall (fun card => LineRegex.no_line_terminator (name card) = true)
         (parseDeckList deckText) ->
  parseDeckList (formatDeckList (parseDeckList deckText))
  = map as_singleton (parseDeckList deckText).
Proof.
  intros Hlt. apply reparse_formatDeckList.
  apply Forall_forall. intros card Hin.
  rewrite Forall_forall in Hlt. specialize (Hlt card Hin).
  apply list_elem_of_omap in Hin as (line & _ & Hline).
  destruct (parseLine_name_trimmed line card Hline) as [Hs He].
  unfold clean_name. now rewrite Hs, He, Hlt.
Qed.

End Reparse.

(** ** Totality of the parser and of the validator *)

Lemma length_omap_le {A B} (f : A -> option B) (l : list A) :
  (length (omap f l) <= length l)%nat.
Proof.
  induction l as [|x l IH]; [reflexivity|].
  change (omap f (x :: l))
    with (match f x with Some y => y :: omap f l | None => omap f l end).
  destruct (f x); cbn [length]; lia.
Qed.

(** C9 (as amended). [parseDeckList] never raises on a text: it returns
    a list of entries, possibly empty and never longer than the number of
    lines, each entry coming from one line. [validateParsedDeck] never
    raises on a parsed deck when its options are an object or are left
    out: it returns a result that carries the deck it was given, a list
    of errors and a list of at most one warning; the result is valid
    exactly when the list of errors is empty, no error means that the
    total equals the expected size (100 by default), and there is one
    error for each duplicate and at most one more. With [null] as its
    options the validator raises. *)
Theorem parse_and_validate_total
    (deckText : string) (deck : list CardEntry) (options : OptionsArgument) :
  options <> OptionsNull ->
  (exists entries,
     call_parseDeckList (Some (VStr deckText)) = Returns entries
     /\ (length entries <= length (split_nl deckText))%nat
     /\ forall card, card ∈ entries ->
          exists line, line ∈ split_nl deckText /\ parseLine line = Some card)
  /\ (exists result,
        call_validateParsedDeck deck options = Returns result
        /\ cards result = deck
        /\ (isValid result = true <-> errors result = [])
        /\ (errors result = [] ->
            totalCards result
            = match options with
              | OptionsObject o => default 100 (opt_expectedSize o)
              | _ => 100
              end)
        /\ (length (duplicates result) <= length (errors result)
            <= S (length (duplicates result)))%nat
        /\ (length (warnings result) <= 1)%nat)
  /\ call_parseDeckList (Some (VStr "")) = Returns []
  /\ raises (call_validateParsedDeck deck OptionsNull).
Proof.
  intros Hoptions.
  assert (Hv : forall o,
            let result := validateParsedDeck deck o in
            cards result = deck
            /\ (isValid result = true <-> errors result = [])
            /\ (errors result = [] ->
                totalCards result = default 100 (opt_expectedSize o))
            /\ (length (duplicates result) <= length (errors result)
                <= S (length (duplicates result)))%nat
            /\ (length (warnings result) <= 1)%nat).
  { intros o. cbn zeta. split; [reflexivity|].
    split; [apply isValid_iff|].
    unfold validateParsedDeck.
    cbn [errors totalCards duplicates warnings]. split; [|split].
    - intros H. apply app_eq_nil in H as [_ H]. unfold size_errors in H.
      destruct (negb (_ =? _)) eqn:E.
      + destruct (_ <? _); discriminate H.
      + apply negb_false_iff in E. now apply Z.eqb_eq in E.
    - rewrite length_app, !length_map. unfold size_errors.
      destruct (negb _); [destruct (_ <? _)|]; cbn [length]; lia.
    - destruct (_ <? _); cbn [length]; lia. }
  split; [|split; [|split]].
  - exists (parseDeckList deckText). split; [reflexivity|]. split.
    + apply length_omap_le.
    + intros card H. now apply list_elem_of_omap in H.
  - destruct options as [| |o]; [|congruence|].
    + exists (validateParsedDeck deck no_options).
      split; [reflexivity|]. apply (Hv no_options).
    + exists (validateParsedDeck deck o). split; [reflexivity|]. apply Hv.
  - reflexivity.
  - exact I.
Qed.

Lemma parse_and_validate_total_witness :
  exists result,
    call_validateParsedDeck [mkCard 1 "Sol Ring"] OptionsOmitted
    = Returns result
    /\ cards result = [mkCard 1 "Sol Ring"]
    /\ (isValid result = true <-> errors result = [])
    /\ (errors result = [] -> totalCards result = 100)
    /\ (length (duplicates result) <= length (errors result)
        <= S (length (duplicates result)))%nat
    /\ (length (warnings result) <= 1)%nat.
Proof.
  apply (parse_and_validate_total "1x Sol Ring" [mkCard 1 "Sol Ring"]
                                  OptionsOmitted).
  discriminate.
Defined.

(** C9 as stated fails: with [null] as its options the validator raises
    a TypeError, whatever the deck, since it starts by destructuring its
    second argument. *)
Lemma validateParsedDeck_null_options_raises :
  ~ (forall options : OptionsArgument,
       exists result,
         call_validateParsedDeck [mkCard 1 "Sol Ring"] options
         = Returns result)
  /\ raises (call_validateParsedDeck [mkCard 1 "Sol Ring"] OptionsNull).
Proof.
  split; [|exact I]. intros H. destruct (H OptionsNull) as [result Hr].
  discriminate Hr.
Qed.

(** ** Formatting and re-parsing *)

(** C2 at the inputs "10 Forest" and "2 Sol Ring": the parser reads the
    quantities 10 and 2, the formatter writes each line with the fixed
    prefix 1x, and the second parse reads the quantity 1. The quantity of
    the first parse is neither written verbatim nor reproduced, also for a
    basic land, whose quantity [removeDuplicates] keeps. *)
Theorem formatDeckList_writes_quantity_one :
  parseDeckList "10 Forest" = [mkCard 10 "Forest"]
  /\ removeDuplicates (parseDeckList "10 Forest") = [mkCard 10 "Forest"]
  /\ formatDeckList (parseDeckList "10 Forest") = "1x Forest"
  /\ parseDeckList (formatDeckList (parseDeckList "10 Forest"))
     = [mkCard 1 "Forest"]
  /\ parseDeckList "2 Sol Ring" = [mkCard 2 "Sol Ring"]
  /\ formatDeckList (parseDeckList "2 Sol Ring") = "1x Sol Ring"
  /\ parseDeckList (formatDeckList (parseDeckList "2 Sol Ring"))
     = [mkCard 1 "Sol Ring"]
  /\ parseDeckList (formatDeckList (parseDeckList "10 Forest"))
     <> parseDeckList "10 Forest".
Proof. repeat split; try reflexivity. discriminate. Qed.

(** ** Round trips of the formatter and the parser *)

Section RoundTrips.

Lemma formatDeckList_as_singleton deck :
  formatDeckList (map as_singleton deck) = formatDeckList deck.
Proof.
  unfold formatDeckList. f_equal. rewrite List.map_map. reflexivity.
Qed.

Lemma split_nl_nonempty s : split_nl s <> [].
Proof.
  destruct s as [|c s]; [discriminate|]. cbn [split_nl].
  destruct (Ascii.eqb c newline); [discriminate|].
  destruct (split_nl s); discriminate.
Qed.

Lemma split_nl_append a b :
  split_nl (a +:+ String newline b) = split_nl a ++ split_nl b.
Proof.
  induction a as [|c a IH]; [reflexivity|].
  change (String c a +:+ String newline b)
    with (String c (a +:+ String newline b)).
  cbn [split_nl]. rewrite IH.
  destruct (Ascii.eqb c newline); [reflexivity|].
  pose proof (split_nl_nonempty a) as Ha.
  destruct (split_nl a) as [|l ls]; [congruence | reflexivity].
Qed.

End RoundTrips.

(** X1. For every deck whose names are trimmed, not empty and free of
    line terminators, parsing the text written by [formatDeckList] gives
    back the names of the deck, in order, each with quantity 1; and
    formatting that parse writes the same text again. *)
Theorem formatted_deck_reparses (deck : list CardEntry) :
  Forall (fun card => clean_name (name card) = true) deck ->
  parseDeckList (formatDeckList deck) = map as_singleton deck
  /\ formatDeckList (parseDeckList (formatDeckList deck))
     = formatDeckList deck.
Proof.
  intros H. pose proof (reparse_formatDeckList deck H) as E.
  split; [exact E|]. rewrite E. apply formatDeckList_as_singleton.
Qed.

Lemma formatted_deck_reparses_witness :
  parseDeckList (formatDeckList [mkCard 3 "Sol Ring"; mkCard 10 "Forest"])
  = map as_singleton [mkCard 3 "Sol Ring"; mkCard 10 "Forest"]
  /\ formatDeckList
       (parseDeckList
          (formatDeckList [mkCard 3 "Sol Ring"; mkCard 10 "Forest"]))
     = formatDeckList [mkCard 3 "Sol Ring"; mkCard 10 "Forest"].
Proof.
  apply (formatted_deck_reparses [mkCard 3 "Sol Ring"; mkCard 10 "Forest"]).
  repeat constructor.
Defined.

(** X2. For every text whose parsed names hold no carriage return, the
    text written by [formatDeckList] from its parse is a fixed point:
    parsing and formatting it again gives the same text, and the same
    entries. *)
Theorem normalised_text_is_fixed_point (deckText : string) :
  Forall (fun card => LineRegex.no_line_terminator (name card) = true)
         (parseDeckList deckText) ->
  let normalised := formatDeckList (parseDeckList deckText) in
  formatDeckList (parseDeckList normalised) = normalised
  /\ parseDeckList (formatDeckList (parseDeckList normalised))
     = parseDeckList normalised.
Proof.
  intros H normalised. subst normalised.
  pose proof (reparse_parsed deckText H) as E.
  assert (E2 : formatDeckList (parseDeckList
                 (formatDeckList (parseDeckList deckText)))
               = formatDeckList (parseDeckList deckText))
    by (rewrite E; apply formatDeckList_as_singleton).
  split; [exact E2 | now rewrite E2].
Qed.

Lemma normalised_text_is_fixed_point_witness :
  let normalised := formatDeckList (parseDeckList "2 Sol Ring") in
  formatDeckList (parseDeckList normalised) = normalised
  /\ parseDeckList (formatDeckList (parseDeckList normalised))
     = parseDeckList normalised.
Proof.
  apply (normalised_text_is_fixed_point "2 Sol Ring").
  repeat constructor.
Defined.

(** X3. Parsing distributes over the concatenation of two texts with a
    line break between them: the entries of the first text followed by
    those of the second. *)
Theorem parseDeckList_concatenation (text1 text2 : string) :
  parseDeckList (text1 +:+ String newline text2)
  = parseDeckList text1 ++ parseDeckList text2.
Proof.
  unfold parseDeckList. rewrite split_nl_append. apply omap_app.
Qed.

(** ** The validator on its own input and after [removeDuplicates] *)

Section ValidatorMore.

Lemma named_basic k card :
  named k card = true -> isBasicLand (name card) = list_includes BASIC_LANDS k.
Proof.
  unfold named, isBasicLand. intros H. apply String.eqb_eq in H. now subst k.
Qed.

(** After [removeDuplicates] a name that is not a basic land is counted
    at most once, and not at all when it was already seen. *)
Lemma nameCount_removeDuplicates_from k cards : forall seen,
  list_includes BASIC_LANDS k = false ->
  0 <= nameCount k (removeDuplicates_from seen cards) <= 1
  /\ (k ∈ seen -> nameCount k (removeDuplicates_from seen cards) = 0).
Proof.
  intros seen Hk. revert seen.
  induction cards as [|card rest IH]; intros seen.
  - unfold nameCount. cbn. split; [lia | reflexivity].
  - cbn [removeDuplicates_from].
    destruct (isBasicLand (name card)) eqn:Hb.
    + rewrite nameCount_cons. destruct (named k card) eqn:E.
      * rewrite (named_basic k card E) in Hb. congruence.
      * destruct (IH seen) as [H1 H2]. split; [lia|].
        intros Hin. rewrite (H2 Hin). reflexivity.
    + destruct (decide (toLowerCase (name card) ∈ seen)) as [Hin|Hout].
      * apply IH.
      * rewrite nameCount_cons. cbn [quantity].
        destruct (IH ({[toLowerCase (name card)]} ∪ seen)) as [H1 H2].
        destruct (named k (mkCard 1 (name card))) eqn:E.
        -- unfold named in E. cbn [name] in E. apply String.eqb_eq in E.
           rewrite H2
             by (rewrite E; apply elem_of_union; left;
                 now apply elem_of_singleton).
           split; [lia|]. intros Hin. subst k. contradiction.
        -- split; [lia|]. intros Hin.
           rewrite H2 by (apply elem_of_union; now right). reflexivity.
Qed.

(** The entries of the dictionary of counts: under a counted name, the
    summed quantity of the name or a string. *)
Lemma tally_entry cards k v :
  (k, v) ∈ Obj.entries (cardCounts (tally cards)) ->
  counted k cards = true
  /\ (v = Num (nameCount k cards) \/ exists origin suffix, v = Text origin suffix).
Proof.
  intros Hin. destruct (tally_invariant cards) as (Hnd & _ & Hown).
  pose proof (elem_of_own _ k v Hnd Hin) as Hk. specialize (Hown k).
  rewrite Hk in Hown. destruct v as [n|origin suffix].
  - destruct Hown as (Hc & _ & ->). auto.
  - destruct Hown as (Hc & _). eauto.
Qed.

Lemma omap_nil {X Y} (f : X -> option Y) (l : list X) :
  omap f l = [] <-> forall x, x ∈ l -> f x = None.
Proof.
  induction l as [|x l IH].
  - split; [intros _ y Hy; now apply elem_of_nil in Hy | reflexivity].
  - change (omap f (x :: l))
      with (match f x with Some y => y :: omap f l | None => omap f l end).
    destruct (f x) eqn:E.
    + split; [discriminate|]. intros H.
      rewrite (H x) in E by left. discriminate E.
    + rewrite IH. split.
      * intros H y Hy. apply elem_of_cons in Hy as [->|Hy]; auto.
      * intros H y Hy. apply H. now right.
Qed.

Lemma counted_named k cards :
  counted k cards = true ->
  list_includes BASIC_LANDS k = false
  /\ exists card, card ∈ cards /\ toLowerCase (name card) = k
                  /\ isBasicLand (name card) = false.
Proof.
  unfold counted. intros H. apply andb_prop in H as [Hex Hb].
  apply negb_true_iff in Hb. split; [exact Hb|].
  apply existsb_exists in Hex as (card & Hc & Hn).
  unfold named in Hn. apply String.eqb_eq in Hn.
  exists card. split; [now apply list_elem_of_In|]. split; [exact Hn|].
  unfold isBasicLand. now rewrite Hn.
Qed.

(** A deck in which no name is counted above 1 has no duplicate. *)
Lemma no_duplicates_if cards :
  (forall card, card ∈ cards -> isBasicLand (name card) = false ->
                nameCount (toLowerCase (name card)) cards <= 1) ->
  omap is_duplicate (Obj.entries (cardCounts (tally cards))) = [].
Proof.
  intros Hall. apply omap_nil. intros [k v] Hin.
  destruct (tally_entry cards k v Hin) as (Hc & Hv).
  apply counted_named in Hc as (_ & card & Hcard & <- & Hb).
  specialize (Hall card Hcard Hb). unfold is_duplicate. cbn [fst snd].
  destruct Hv as [->|(origin & suffix & ->)]; [|reflexivity].
  destruct (1 <? _) eqn:E; [|reflexivity]. apply Z.ltb_lt in E. lia.
Qed.

(** The converse, for names that [Object.prototype] does not define. *)
Lemma no_duplicates_only_if cards :
  plain_names cards ->
  omap is_duplicate (Obj.entries (cardCounts (tally cards))) = [] ->
  forall card, card ∈ cards -> isBasicLand (name card) = false ->
               nameCount (toLowerCase (name card)) cards <= 1.
Proof.
  intros Hplain Hnil card Hin Hb.
  unfold plain_names in Hplain. rewrite Forall_forall in Hplain.
  pose proof (tally_own_plain cards card Hin Hb (Hplain card Hin)) as Hown.
  apply own_elem_of in Hown.
  pose proof (proj1 (omap_nil _ _) Hnil _ Hown) as Hnone.
  unfold is_duplicate in Hnone. cbn [fst snd] in Hnone.
  destruct (1 <? _) eqn:E; [discriminate|]. now apply Z.ltb_ge in E.
Qed.

Lemma size_errors_nil total expected :
  size_errors total expected = [] <-> total = expected.
Proof.
  unfold size_errors. destruct (total =? expected) eqn:E; cbn [negb].
  - apply Z.eqb_eq in E. tauto.
  - apply Z.eqb_neq in E. destruct (total <? expected); split;
      (discriminate || contradiction).
Qed.

Lemma fold_tally_bounds cards : forall st,
  Forall (fun c => 0 <= quantity c) cards ->
  0 <= tally_lands st <= tally_total st ->
  0 <= tally_lands (fold_left tally_card cards st)
    <= tally_total (fold_left tally_card cards st).
Proof.
  induction cards as [|card rest IH]; intros st Hq Hst; [exact Hst|].
  apply Forall_cons in Hq as [Hc Hq]. cbn [fold_left].
  apply IH; [exact Hq|]. unfold tally_card. cbn [tally_lands tally_total].
  destruct (looks_like_land _); lia.
Qed.

Lemma bump_keys_length counts k q :
  (length (Obj.keys (bump counts k q)) <= S (length (Obj.keys counts)))%nat.
Proof.
  unfold bump.
  destruct (Obj.get counts k) as [[n|origin suffix]| |];
    [destruct (n =? 0)| | |]; apply keys_set_length.
Qed.

Lemma fold_tally_keys cards : forall st,
  (length (Obj.keys (cardCounts (fold_left tally_card cards st)))
   <= length (Obj.keys (cardCounts st)) + length cards)%nat.
Proof.
  induction cards as [|card rest IH]; intros st; cbn [fold_left length];
    [lia|].
  specialize (IH (tally_card st card)).
  assert (length (Obj.keys (cardCounts (tally_card st card)))
          <= S (length (Obj.keys (cardCounts st))))%nat.
  { unfold tally_card. cbn [cardCounts].
    destruct (isBasicLand (name card)); cbn [negb];
      [lia | apply bump_keys_length]. }
  lia.
Qed.

End ValidatorMore.

(** X4. Whatever the deck, the validator finds no duplicate in the
    result of [removeDuplicates]: the list of duplicates is empty, and the
    only error left, if any, is the one about the size of the deck. *)
Theorem removeDuplicates_clears_duplicate_errors
    (deck : list CardEntry) (options : Options) :
  let r := validateParsedDeck (removeDuplicates deck) options in
  duplicates r = []
  /\ hasDuplicates r = false
  /\ errors r
     = size_errors (totalCards r) (default 100 (opt_expectedSize options)).
Proof.
  assert (Hnil : omap is_duplicate
                   (Obj.entries (cardCounts (tally (removeDuplicates deck))))
                 = []).
  { apply no_duplicates_if. intros card _ Hb.
    apply (nameCount_removeDuplicates_from _ deck ∅). exact Hb. }
  cbn zeta. unfold validateParsedDeck.
  cbn [duplicates hasDuplicates errors totalCards]. rewrite Hnil. auto.
Qed.

(** X5. The verdict of the validator, read on its input. For a deck
    none of whose names is, in lower case, the name of a property of
    [Object.prototype], and whose quantities are not negative and add up
    to at most 2^53: the deck is valid exactly when no name other than a
    basic land has a quantity, summed ignoring case, above 1 and the
    quantities add up to the expected size (100 when the option is
    absent). The warning about lands never changes the verdict, and there
    is at most one warning. *)
Theorem isValid_iff_singleton_and_size
    (deck : list CardEntry) (options : Options) :
  plain_names deck ->
  exact_quantities deck ->
  let r := validateParsedDeck deck options in
  (isValid r = true
   <-> (forall card, card ∈ deck -> isBasicLand (name card) = false ->
                     nameCount (toLowerCase (name card)) deck <= 1)
       /\ sum_quantities deck = default 100 (opt_expectedSize options))
  /\ (length (warnings r) <= 1)%nat.
Proof.
  intros Hplain _. cbn zeta. split.
  - rewrite isValid_iff. unfold validateParsedDeck. cbn [errors].
    destruct (tally_invariant deck) as (_ & Htot & _). rewrite Htot.
    rewrite <- size_errors_nil. split.
    + intros H. apply app_eq_nil in H as [H1 H2]. split; [|exact H2].
      apply (no_duplicates_only_if deck Hplain).
      destruct (omap _ _); [reflexivity | discriminate H1].
    + intros [H1 H2]. now rewrite (no_duplicates_if deck H1), H2.
  - unfold validateParsedDeck. cbn [warnings].
    destruct (_ <? _); cbn [length]; lia.
Qed.

Lemma isValid_iff_singleton_and_size_witness :
  isValid (validateParsedDeck [mkCard 1 "Sol Ring"; mkCard 1 "Forest"]
                              (mkOptions (Some 2) None)) = true.
Proof.
  apply (proj1 (isValid_iff_singleton_and_size
                  [mkCard 1 "Sol Ring"; mkCard 1 "Forest"]
                  (mkOptions (Some 2) None)
                  ltac:(repeat constructor)
                  ltac:(split; [repeat constructor; cbn; lia
                               | vm_compute; discriminate]))).
  split; [|reflexivity].
  intros card Hin _.
  apply elem_of_cons in Hin as [->|Hin]; [vm_compute; discriminate|].
  apply list_elem_of_singleton in Hin as ->. vm_compute. discriminate.
Defined.

(** X6. For every text, the figures reported by [validateDeckList] are
    consistent: the land count lies between 0 and the total number of
    cards, and there are no more unique names than parsed entries, nor
    more entries than lines. *)
Theorem validateDeckList_figures (deckText : string) (options : Options) :
  let r := validateDeckList deckText options in
  0 <= landCount r <= totalCards r
  /\ (uniqueCards r <= length (cards r) <= length (split_nl deckText))%nat.
Proof.
  cbn zeta. unfold validateDeckList, validateParsedDeck.
  cbn [landCount totalCards uniqueCards cards]. split.
  - apply fold_tally_bounds; [|cbn; lia].
    apply Forall_forall. intros card Hin.
    now destruct (parseDeckList_entries_quantity deckText card Hin).
  - split; [|apply length_omap_le].
    apply (fold_tally_keys (parseDeckList deckText) (mkTally Obj.empty 0 0)).
Qed.

(** ** Case of the names *)

Section CaseInsensitive.

Lemma lower_char_idempotent c : lower_char (lower_char c) = lower_char c.
Proof. destruct c as [[] [] [] [] [] [] [] []]; reflexivity. Qed.

Lemma toLowerCase_idempotent s : toLowerCase (toLowerCase s) = toLowerCase s.
Proof.
  induction s as [|c s IH]; [reflexivity|]. cbn [toLowerCase].
  now rewrite lower_char_idempotent, IH.
Qed.

Lemma tally_card_lowercased st card :
  tally_card st (mkCard (quantity card) (toLowerCase (name card)))
  = tally_card st card.
Proof.
  unfold tally_card, isBasicLand. cbn [name quantity].
  now rewrite toLowerCase_idempotent.
Qed.

Lemma fold_tally_lowercased cards : forall st,
  fold_left tally_card (lowercased cards) st = fold_left tally_card cards st.
Proof.
  induction cards as [|card rest IH]; intros st; [reflexivity|].
  cbn [lowercased map fold_left]. rewrite tally_card_lowercased. apply IH.
Qed.

End CaseInsensitive.

(** X7. Validation ignores the case of the names: the deck with every
    name in lower case gets the same verdict, figures, duplicates, errors
    and warnings as the deck itself. *)
Theorem validateParsedDeck_ignores_case
    (deck : list CardEntry) (options : Options) :
  let r := validateParsedDeck deck options in
  let r' := validateParsedDeck (lowercased deck) options in
  isValid r' = isValid r
  /\ totalCards r' = totalCards r
  /\ uniqueCards r' = uniqueCards r
  /\ landCount r' = landCount r
  /\ duplicates r' = duplicates r
  /\ errors r' = errors r
  /\ warnings r' = warnings r.
Proof.
  cbn zeta. unfold validateParsedDeck, tally.
  rewrite fold_tally_lowercased. repeat split.
Qed.

(** ** What [removeDuplicates] keeps *)

Section RemoveDuplicatesMore.

Lemma existsb_named_removeDuplicates_from k cards : forall seen,
  list_includes BASIC_LANDS k = false ->
  existsb (named k) (removeDuplicates_from seen cards)
  = existsb (named k) cards && negb (bool_decide (k ∈ seen)).
Proof.
  intros seen Hk. revert seen.
  induction cards as [|card rest IH]; intros seen; [reflexivity|].
  cbn [removeDuplicates_from existsb].
  destruct (isBasicLand (name card)) eqn:Hb.
  - cbn [existsb]. rewrite IH. destruct (named k card) eqn:E; [|reflexivity].
    rewrite (named_basic k card E) in Hb. congruence.
  - destruct (decide (toLowerCase (name card) ∈ seen)) as [Hin|Hout].
    + rewrite IH. destruct (named k card) eqn:E; [|reflexivity].
      unfold named in E. apply String.eqb_eq in E. subst k.
      rewrite bool_decide_eq_true_2 by exact Hin. cbn.
      now rewrite andb_false_r.
    + cbn [existsb]. rewrite IH.
      change (named k (mkCard 1 (name card))) with (named k card).
      destruct (named k card) eqn:E.
      * unfold named in E. apply String.eqb_eq in E. subst k.
        rewrite (bool_decide_eq_false_2 _ Hout). reflexivity.
      * cbn [orb]. unfold named in E. apply String.eqb_neq in E.
        destruct (decide (k ∈ seen)) as [Hk'|Hk'].
        -- rewrite !bool_decide_eq_true_2; [reflexivity | exact Hk' |].
           apply elem_of_union. now right.
        -- rewrite !bool_decide_eq_false_2; [reflexivity | exact Hk' |].
           intros H. apply elem_of_union in H as [H|H]; [|contradiction].
           apply elem_of_singleton in H. congruence.
Qed.

Lemma tally_key_iff cards k :
  k ∈ Obj.keys (cardCounts (tally cards))
  <-> existsb (named k) cards = true
      /\ list_includes BASIC_LANDS k = false
      /\ k <> "__proto__".
Proof.
  destruct (tally_invariant cards) as (_ & _ & Hown). specialize (Hown k).
  unfold counted in Hown. split.
  - intros Hin.
    destruct (Obj.own (cardCounts (tally cards)) k) as [[n|origin suffix]|]
      eqn:E.
    + destruct Hown as (Hc & Hi & _). apply andb_prop in Hc as [H1 H2].
      apply negb_true_iff in H2. apply not_inherited_proto in Hi. auto.
    + destruct Hown as (Hc & _ & Hp). apply andb_prop in Hc as [H1 H2].
      apply negb_true_iff in H2. auto.
    + apply own_None in E. contradiction.
  - intros (H1 & H2 & H3). rewrite H1, H2 in Hown. cbn in Hown.
    destruct (decide (k ∈ Obj.keys (cardCounts (tally cards))))
      as [Hin|Hout]; [exact Hin|].
    apply own_None in Hout. rewrite Hout in Hown.
    destruct Hown; [discriminate | contradiction].
Qed.

Lemma sum_quantities_removeDuplicates_from cards : forall seen,
  Forall (fun c => 1 <= quantity c) cards ->
  sum_quantities (removeDuplicates_from seen cards) <= sum_quantities cards.
Proof.
  induction cards as [|card rest IH]; intros seen Hq; [reflexivity|].
  apply Forall_cons in Hq as [Hc Hq]. cbn [removeDuplicates_from].
  unfold sum_quantities in *. cbn [foldr].
  destruct (isBasicLand (name card)).
  - cbn [foldr]. specialize (IH seen Hq). lia.
  - destruct (decide (toLowerCase (name card) ∈ seen)).
    + specialize (IH seen Hq). lia.
    + cbn [foldr quantity].
      specialize (IH ({[toLowerCase (name card)]} ∪ seen) Hq). lia.
Qed.

End RemoveDuplicatesMore.

(** X8. [removeDuplicates] keeps every distinct name: the validator
    counts as many unique names in its result as in the deck itself. When
    every quantity of the deck is at least 1, the result never holds more
    cards than the deck. *)
Theorem removeDuplicates_keeps_unique_names
    (deck : list CardEntry) (options : Options) :
  uniqueCards (validateParsedDeck (removeDuplicates deck) options)
  = uniqueCards (validateParsedDeck deck options)
  /\ (Forall (fun c => 1 <= quantity c) deck ->
      totalCards (validateParsedDeck (removeDuplicates deck) options)
      <= totalCards (validateParsedDeck deck options)).
Proof.
  unfold validateParsedDeck. cbn [uniqueCards totalCards]. split.
  - apply Permutation_length, NoDup_Permutation.
    + apply (tally_invariant (removeDuplicates deck)).
    + apply (tally_invariant deck).
    + intros k. rewrite !tally_key_iff. split.
      * intros (H1 & H2 & H3). split; [|now split].
        unfold removeDuplicates in H1.
        rewrite (existsb_named_removeDuplicates_from k deck ∅ H2) in H1.
        now apply andb_prop in H1 as [H1 _].
      * intros (H1 & H2 & H3). split; [|now split].
        unfold removeDuplicates.
        rewrite (existsb_named_removeDuplicates_from k deck ∅ H2), H1.
        reflexivity.
  - intros Hq.
    destruct (tally_invariant (removeDuplicates deck)) as (_ & -> & _).
    destruct (tally_invariant deck) as (_ & -> & _).
    now apply sum_quantities_removeDuplicates_from.
Qed.

Lemma removeDuplicates_keeps_unique_names_witness :
  totalCards (validateParsedDeck
                (removeDuplicates [mkCard 2 "Sol Ring"; mkCard 1 "sol ring"])
                no_options)
  <= totalCards (validateParsedDeck
                   [mkCard 2 "Sol Ring"; mkCard 1 "sol ring"] no_options).
Proof.
  apply (proj2 (removeDuplicates_keeps_unique_names
                  [mkCard 2 "Sol Ring"; mkCard 1 "sol ring"] no_options)).
  repeat constructor; cbn; lia.
Defined.

(** ** Lines with a quantity, labels, and the description parser *)

Section Lines.

Lemma span_digits_app d rest :
  all_digits d = true -> LineRegex.leading_digit rest = false ->
  span_digits (d +:+ rest) = (d, rest).
Proof.
  intros Hd Hrest. induction d as [|c d IH].
  - destruct rest as [|a rest']; [reflexivity|].
    cbn [LineRegex.leading_digit] in Hrest.
    change ("" +:+ String a rest') with (String a rest').
    cbn [span_digits]. now rewrite Hrest.
  - cbn [all_digits] in Hd. apply andb_prop in Hd as [Hc Hd].
    change (String c d +:+ rest) with (String c (d +:+ rest)).
    cbn [span_digits]. now rewrite Hc, (IH Hd).
Qed.

Lemma span_digits_leading s d r :
  span_digits s = (d, r) -> d <> "" -> LineRegex.leading_digit s = true.
Proof.
  destruct s as [|c s]; cbn [span_digits LineRegex.leading_digit].
  - intros [= <- <-] H. now contradiction H.
  - destruct (is_digit c); [reflexivity|].
    intros [= <- <-] H. now contradiction H.
Qed.

Lemma ws_then_rest_clean n :
  clean_name n = true -> LineRegex.ws_then_rest n = Some n.
Proof.
  unfold clean_name. intros H.
  apply andb_prop in H as [H Hlt]. apply andb_prop in H as [Hs _].
  destruct n as [|c n']; [discriminate Hs|].
  cbn [starts_nonws] in Hs. apply negb_true_iff in Hs.
  cbn [LineRegex.ws_then_rest]. rewrite Hs.
  unfold LineRegex.dot_plus_end. now rewrite Hlt.
Qed.

Lemma leading_digit_no_marker s :
  LineRegex.leading_digit s = true ->
  startsWith s "#" || startsWith s "**" || startsWith s "###" = false.
Proof.
  destruct s as [|c s]; [discriminate|].
  cbn [LineRegex.leading_digit]. intros Hc.
  unfold startsWith. cbn [String.prefix].
  destruct (ascii_dec "#" c) as [<-|_]; [discriminate Hc|].
  destruct (ascii_dec "*" c) as [<-|_]; [discriminate Hc|].
  reflexivity.
Qed.

Lemma leading_digit_app d rest :
  d <> "" -> all_digits d = true ->
  LineRegex.leading_digit (d +:+ rest) = true.
Proof.
  destruct d as [|c d]; [congruence|]. intros _ H.
  cbn [all_digits] in H. now apply andb_prop in H as [H _].
Qed.

Lemma leading_digit_starts s :
  LineRegex.leading_digit s = true -> starts_nonws s = true.
Proof.
  destruct s as [|c s]; [discriminate|].
  cbn [LineRegex.leading_digit starts_nonws]. intros H.
  apply negb_true_iff. unfold is_digit in H. unfold is_ws.
  apply andb_prop in H as [H1 H2]. apply N.leb_le in H1, H2.
  destruct (9 <=? code c)%N eqn:E1, (code c <=? 13)%N eqn:E2,
           (code c =? 32)%N eqn:E3, (code c =? 160)%N eqn:E4;
    try reflexivity;
    try apply N.leb_le in E2; try apply N.eqb_eq in E3;
    try apply N.eqb_eq in E4; lia.
Qed.

(** A line made of digits, a separator and a clean name is its own
    trimmed form. *)
Lemma trim_quantity_line d rest :
  d <> "" -> all_digits d = true -> ends_nonws rest = true ->
  trim (d +:+ rest) = d +:+ rest.
Proof.
  intros Hne Hd Hrest. unfold trim.
  rewrite trimStart_fixed
    by (apply leading_digit_starts, leading_digit_app; assumption).
  apply trimEnd_fixed, ends_nonws_app, Hrest.
Qed.

Lemma exec_in_line_expression s g :
  YouTubeAPI.exec s = Some g ->
  LineRegex.exec s = Some g /\ LineRegex.leading_digit s = true.
Proof.
  unfold YouTubeAPI.exec, LineRegex.exec.
  destruct (span_digits s) as [d r] eqn:E.
  destruct d as [|d0 d']; [discriminate|].
  intros H. split; [|now apply (span_digits_leading s _ r E)].
  destruct r as [|c r']; [discriminate H|].
  unfold YouTubeAPI.skip_lower_x in H. unfold LineRegex.skip_x.
  destruct (Ascii.eqb c "x") eqn:Ex; [exact H|].
  destruct (Ascii.eqb c "X") eqn:EX; [|exact H].
  apply Ascii.eqb_eq in EX. subst c. discriminate H.
Qed.

Lemma parseTextLine_parseLine line card :
  YouTubeAPI.parseTextLine line = Some card -> parseLine line = Some card.
Proof.
  unfold YouTubeAPI.parseTextLine, parseLine.
  destruct (String.eqb (trim line) "") eqn:Ht; [discriminate|].
  cbn [orb].
  destruct (startsWith (trim line) "//"); [discriminate|].
  destruct (YouTubeAPI.exec (trim line)) as [[g1 g2]|] eqn:E; [|discriminate].
  apply exec_in_line_expression in E as [E Hd].
  rewrite (leading_digit_no_marker _ Hd), (not_section_label_digit _ Hd), E.
  trivial.
Qed.

Lemma omap_sublist {A B} (f g : A -> option B) (l : list A) :
  (forall x y, f x = Some y -> g x = Some y) ->
  sublist (omap f l) (omap g l).
Proof.
  intros Hfg. induction l as [|x l IH]; [constructor|].
  change (omap f (x :: l))
    with (match f x with Some y => y :: omap f l | None => omap f l end).
  change (omap g (x :: l))
    with (match g x with Some y => y :: omap g l | None => omap g l end).
  destruct (f x) as [y|] eqn:Ef.
  - rewrite (Hfg x y Ef). now constructor.
  - destruct (g x); [now constructor | exact IH].
Qed.

End Lines.

(** X9. A line made of a number of at most 15 decimal digits, one of
    the separators blank, [x] blank or [X] blank, and a trimmed name
    without line terminator is read as that quantity of that name,
    whatever the name contains: a section word, a colon or a leading [#]
    in the name does not make the parser drop the line. *)
Theorem quantity_line_is_card (d sep n : string) :
  d <> "" -> all_digits d = true -> (String.length d <= 15)%nat ->
  In sep [" "; "x "; "X "] ->
  clean_name n = true ->
  parseLine (d +:+ sep +:+ n) = Some (mkCard (parseInt d) n).
Proof.
  intros Hne Hd _ Hsep Hclean.
  pose proof (trim_clean n Hclean) as Htrim.
  pose proof (ws_then_rest_clean n Hclean) as Hws.
  assert (He : ends_nonws n = true).
  { unfold clean_name in Hclean. apply andb_prop in Hclean as [H _].
    now apply andb_prop in H as [_ H]. }
  assert (Hline : trim (d +:+ sep +:+ n) = d +:+ sep +:+ n)
    by (apply trim_quantity_line; [assumption .. | now apply ends_nonws_app]).
  assert (Hlead : LineRegex.leading_digit (d +:+ sep +:+ n) = true)
    by now apply leading_digit_app.
  assert (Hexec : LineRegex.exec (d +:+ sep +:+ n) = Some (d, n)).
  { unfold LineRegex.exec.
    assert (Hs : LineRegex.leading_digit (sep +:+ n) = false
                 /\ LineRegex.skip_x (sep +:+ n) = String " " n).
    { cbn [In] in Hsep.
      destruct Hsep as [<-|[<-|[<-|[]]]]; split; reflexivity. }
    destruct Hs as [Hs1 Hs2].
    rewrite (span_digits_app d _ Hd Hs1), Hs2.
    destruct d as [|d0 d']; [congruence|].
    replace (is_ws " ") with true by reflexivity. now rewrite Hws. }
  unfold parseLine. rewrite Hline.
  destruct (String.eqb (d +:+ sep +:+ n) "") eqn:Hempty.
  - apply String.eqb_eq in Hempty. rewrite Hempty in Hlead. discriminate.
  - rewrite (leading_digit_no_marker _ Hlead),
      (not_section_label_digit _ Hlead), Hexec, Htrim.
    reflexivity.
Qed.

Lemma quantity_line_is_card_witness :
  parseLine ("4" +:+ "X " +:+ "Lands of the commander: #1")
  = Some (mkCard (parseInt "4") "Lands of the commander: #1").
Proof.
  apply quantity_line_is_card;
    [discriminate | reflexivity | cbn; lia | cbn; tauto | reflexivity].
Defined.

(** X10. A card whose name contains one of the ten section words
    (ignoring case) is only ever read from a line that starts with a
    digit: written as a bare name, such a card is dropped. *)
Theorem section_word_needs_quantity (line w : string) (card : CardEntry) :
  parseLine line = Some card ->
  In w section_words ->
  includes (toLowerCase (name card)) w = true ->
  LineRegex.leading_digit (trim line) = true.
Proof.
  unfold parseLine.
  destruct (String.eqb (trim line) "") eqn:Ht; [discriminate|].
  destruct (startsWith _ _ || startsWith _ _ || startsWith _ _);
    [discriminate|].
  destruct (is_section_label (trim line)) eqn:Hlabel; [discriminate|].
  destruct (LineRegex.exec (trim line)) as [[g1 g2]|] eqn:E.
  - intros _ _ _. revert E. unfold LineRegex.exec.
    destruct (span_digits (trim line)) as [d r] eqn:Es.
    destruct d as [|d0 d']; [discriminate|]. intros _.
    now apply (span_digits_leading _ _ r Es).
  - destruct (_ && _ && _); [|discriminate].
    intros [= <-] Hw Hinc. cbn [name] in Hinc.
    unfold is_section_label in Hlabel.
    destruct (LineRegex.leading_digit (trim line)); [reflexivity|].
    exfalso.
    assert (Hex : existsb
              (fun w0 => includes (toLowerCase (trim line)) w0 && negb false)
              section_words = true).
    { apply existsb_exists. exists w. split; [exact Hw|].
      now rewrite Hinc. }
    rewrite Hex in Hlabel. discriminate.
Qed.

Lemma section_word_needs_quantity_witness :
  LineRegex.leading_digit (trim "1 Badlands") = true.
Proof.
  apply (section_word_needs_quantity "1 Badlands" "lands"
           (mkCard 1 "Badlands"));
    [reflexivity | cbn; tauto | reflexivity].
Defined.

(** X11. Every card the description parser [parseDecklistFromText] reads,
    the deck-list parser reads too, from the same text, with the same
    quantity and name and in the same order; so the entries of the
    description parser also have a non-negative quantity and a non-empty
    name. *)
Theorem parseDecklistFromText_within_parseDeckList (text : string) :
  sublist (YouTubeAPI.parseDecklistFromText text) (parseDeckList text)
  /\ Forall (fun card => 0 <= quantity card /\ name card <> "")
            (YouTubeAPI.parseDecklistFromText text).
Proof.
  assert (Hsub : sublist (YouTubeAPI.parseDecklistFromText text)
                         (parseDeckList text))
    by (apply omap_sublist, parseTextLine_parseLine).
  split; [exact Hsub|].
  apply Forall_forall. intros card Hin.
  apply (parseDeckList_entries_quantity text).
  apply (sublist_submseteq _ _) in Hsub.
  apply (elem_of_submseteq _ _ _ Hin Hsub).
Qed.

(** ** The two import paths *)

Import RecommendationEngine YouTubeLearner.

(** C3 (as amended). Both importers raise on malformed JSON, wrapping the
    message of the parser. On well-formed JSON that is not an array they
    differ: [importHistory] does not raise and replaces the history by the
    empty list, whereas [importKnowledge] raises. On an array both store
    its elements. *)
Theorem import_paths_error_handling :
  (forall message (e : Engine value),
     importHistory (Throws message) e
     = Throws ("Failed to import history: " +:+ message))
  /\ (forall message (l : Learner),
        importKnowledge (Throws message) l
        = Throws ("Failed to import knowledge: " +:+ message))
  /\ (forall data (e : Engine value),
        isArray data = false ->
        importHistory (Returns data) e = Returns (mkEngine []))
  /\ (forall data (l : Learner),
        isArray data = false ->
        importKnowledge (Returns data) l
        = Throws ("Failed to import knowledge: "
                  +:+ "Invalid knowledge data: expected an array"))
  /\ (forall items (e : Engine value),
        importHistory (Returns (VArr items)) e = Returns (mkEngine items))
  /\ (forall items (l : Learner),
        importKnowledge (Returns (VArr items)) l = Returns (mkLearner items)).
Proof.
  repeat split; try reflexivity.
  - intros data e H. destruct data; try reflexivity. discriminate H.
  - intros data l H. destruct data; try reflexivity. discriminate H.
Qed.

Lemma import_paths_error_handling_witness :
  importHistory (Returns (VObj [])) (mkEngine [VStr "kept"])
  = Returns (mkEngine [])
  /\ importKnowledge (Returns (VObj [])) (mkLearner [VStr "kept"])
     = Throws ("Failed to import knowledge: "
               +:+ "Invalid knowledge data: expected an array").
Proof.
  destruct import_paths_error_handling as (_ & _ & Hh & Hk & _).
  split.
  - apply Hh. reflexivity.
  - apply Hk. reflexivity.
Defined.

(** C3 as stated fails: on the JSON text of an empty object, which is
    well-formed and not an array, the history import does not raise (it
    stores the empty list) and the knowledge import does raise. *)
Lemma import_non_array_roles_reversed :
  ~ raises (importHistory (Returns (VObj [])) (mkEngine [VStr "kept"]))
  /\ ~ (importKnowledge (Returns (VObj [])) (mkLearner [VStr "kept"])
        = Returns (mkLearner [])).
Proof. split; [intros [] | discriminate]. Qed.

(** ** getMostCommon *)

Section MostCommon.

Context {A : Type} (number : A -> option Z) (score : A -> Z).

(** When every element of [l] has a number, [x] is the first element of
    [l] whose number is maximal. *)
Lemma sort_desc_head (l : list A) :
  (forall y, y ∈ l -> number y = Some (score y)) ->
  l <> [] ->
  exists x rest before after,
    sort_desc number l = x :: rest
    /\ l = before ++ x :: after
    /\ Forall (fun y => score y < score x) before
    /\ Forall (fun y => score y <= score x) after.
Proof.
  induction l as [|x l IH]; [congruence|]. intros Hnum _.
  destruct l as [|x' l'].
  - exists x, [], [], []. repeat split; constructor.
  - destruct IH as (y & rest & before & after & Hs & Hl & Hb & Ha);
      [intros z Hz; apply Hnum; now right | congruence|].
    change (sort_desc number (x :: x' :: l'))
      with (insert_desc number x (sort_desc number (x' :: l'))).
    rewrite Hs. cbn [insert_desc]. unfold sorts_after.
    rewrite (Hnum x) by left.
    rewrite (Hnum y)
      by (right; rewrite Hl; apply elem_of_app; right; left).
    destruct (score x <? score y) eqn:E.
    + apply Z.ltb_lt in E.
      exists y, (insert_desc number x rest), (x :: before), after.
      rewrite Hl. repeat split; auto.
    + apply Z.ltb_ge in E.
      exists x, (y :: rest), [], (x' :: l').
      repeat split; [constructor|]. rewrite Hl.
      apply Forall_app. split.
      * eapply Forall_impl; [exact Hb|]. intros z Hz. simpl in Hz. lia.
      * constructor; [exact E|].
        eapply Forall_impl; [exact Ha|]. intros z Hz. simpl in Hz. lia.
Qed.

End MostCommon.

(** C8 (as amended). [getMostCommon] returns [null] on an empty map;
    otherwise it returns the name alone (a string, not a name-and-count
    pair) of the first entry, in the enumeration order of the map, whose
    count is maximal. *)
Theorem getMostCommon_first_maximal (frequencyMap : Obj.t Z) :
  (frequencyMap = [] -> getMostCommon frequencyMap = VNull)
  /\ (frequencyMap <> [] ->
      exists k c before after,
        getMostCommon frequencyMap = VStr k
        /\ Obj.entries frequencyMap = before ++ (k, c) :: after
        /\ Forall (fun e => snd e < c) before
        /\ Forall (fun e => snd e <= c) after).
Proof.
  split.
  - intros ->. reflexivity.
  - intros Hne.
    destruct (sort_desc_head (fun e => Some (snd e)) snd frequencyMap
                (fun y _ => eq_refl) Hne)
      as ([k c] & rest & before & after & Hs & Hl & Hb & Ha).
    exists k, c, before, after. unfold getMostCommon, Obj.entries.
    change (fun e : string * Z => number_of (snd e))
      with (fun e : string * Z => Some (snd e)).
    rewrite Hs. destruct frequencyMap; [congruence|]. auto.
Qed.

Lemma getMostCommon_first_maximal_witness :
  getMostCommon [] = VNull
  /\ exists k c before after,
       getMostCommon [("Atraxa", 1); ("Yuriko", 3); ("Kenrith", 3)] = VStr k
       /\ Obj.entries [("Atraxa", 1); ("Yuriko", 3); ("Kenrith", 3)]
          = before ++ (k, c) :: after
       /\ Forall (fun e => snd e < c) before
       /\ Forall (fun e => snd e <= c) after.
Proof.
  split.
  - apply (proj1 (getMostCommon_first_maximal [])). reflexivity.
  - apply (proj2 (getMostCommon_first_maximal
                    [("Atraxa", 1); ("Yuriko", 3); ("Kenrith", 3)])).
    discriminate.
Defined.

(** C8 as stated fails: on a map with the single entry Atraxa -> 2 the
    result is the string "Atraxa", not a record of a name and a count. *)
Lemma getMostCommon_not_a_ranked_entry :
  getMostCommon [("Atraxa", 2)] = VStr "Atraxa"
  /\ ~ (exists n c,
          getMostCommon [("Atraxa", 2)]
          = VObj [("name", VStr n); ("count", VNum c)]).
Proof. split; [reflexivity | intros (n & c & H); discriminate H]. Qed.

(** ** identifyTrends *)

Section Trends.

Lemma Qltb_lt (x y : Q) : MetaAnalyzer.Qltb x y = true <-> (x < y)%Q.
Proof.
  unfold MetaAnalyzer.Qltb. rewrite negb_true_iff, <- not_true_iff_false, Qle_bool_iff.
  split; [apply Qnot_le_lt | apply Qlt_not_le].
Qed.

(** The filter of [lowShareDecks] selects the records whose normalised
    share is a number strictly between 0 and 5. *)
Lemma is_low_share_iff (d : MetaAnalyzer.MetaDeckRecord) :
  MetaAnalyzer.is_low_share d = true
  <-> exists q, MetaAnalyzer.normalizedShare d = MetaAnalyzer.Finite q
                /\ (0 < q)%Q /\ (q < 5)%Q.
Proof.
  unfold MetaAnalyzer.is_low_share.
  destruct (MetaAnalyzer.normalizedShare d) as [|neg|q]; simpl.
  - split; [discriminate | intros (q & H & _); discriminate H].
  - split; [now destruct neg | intros (q & H & _); discriminate H].
  - rewrite andb_true_iff, !Qltb_lt. split.
    + intros [H0 H5]. exists q. auto.
    + intros (q' & [= <-] & H0 & H5). auto.
Qed.

End Trends.

(** C6 (as amended). For every list of records given to [identifyTrends]:
    when the list has at least 3 records the popular tier is the names of
    its first 3 records, whatever their share, and it is empty when the
    list has fewer than 3 records; the emerging tier is the names of the
    first at most 3 records whose share, normalised by stripping a
    percent sign and parsing as a float, is strictly between 0 and 5; the
    declining tier is empty. *)
Theorem identifyTrends_tiers (metaDecks : list MetaAnalyzer.MetaDeckRecord) :
  let trends := MetaAnalyzer.identifyTrends metaDecks in
  ((3 <= length metaDecks)%nat ->
   MetaAnalyzer.popular trends = map MetaAnalyzer.name (take 3 metaDecks))
  /\ ((length metaDecks < 3)%nat -> MetaAnalyzer.popular trends = [])
  /\ MetaAnalyzer.emerging trends
     = map MetaAnalyzer.name
           (take 3 (List.filter MetaAnalyzer.is_low_share metaDecks))
  /\ (forall d, MetaAnalyzer.is_low_share d = true
               <-> exists q, MetaAnalyzer.normalizedShare d
                             = MetaAnalyzer.Finite q
                             /\ (0 < q)%Q /\ (q < 5)%Q)
  /\ MetaAnalyzer.declining trends = [].
Proof.
  cbn zeta. unfold MetaAnalyzer.identifyTrends.
  cbn [MetaAnalyzer.popular MetaAnalyzer.emerging MetaAnalyzer.declining].
  split; [|split; [|split; [|split]]].
  - intros H. apply Nat.leb_le in H. now rewrite H.
  - intros H. apply Nat.leb_gt in H. now rewrite H.
  - destruct (List.filter MetaAnalyzer.is_low_share metaDecks); reflexivity.
  - apply is_low_share_iff.
  - reflexivity.
Qed.

Lemma identifyTrends_tiers_witness :
  MetaAnalyzer.popular (MetaAnalyzer.identifyTrends MetaAnalyzer.sample_meta)
  = ["Deck 10%"; "Deck 8%"; "Deck 6%"]
  /\ MetaAnalyzer.popular
       (MetaAnalyzer.identifyTrends (take 1 MetaAnalyzer.sample_meta)) = [].
Proof.
  split.
  - refine (proj1 (identifyTrends_tiers MetaAnalyzer.sample_meta) _).
    simpl. lia.
  - refine (proj1 (proj2 (identifyTrends_tiers
                            (take 1 MetaAnalyzer.sample_meta))) _).
    simpl. lia.
Defined.

(** C6 as stated fails: for a list of a single record the popular tier is
    empty, not the name of that record. *)
Lemma identifyTrends_popular_needs_three :
  MetaAnalyzer.popular
    (MetaAnalyzer.identifyTrends
       [MetaAnalyzer.mkMetaDeck "Solo" "/solo" (Some "60%")])
  <> map MetaAnalyzer.name
         (take 3 [MetaAnalyzer.mkMetaDeck "Solo" "/solo" (Some "60%")]).
Proof. discriminate. Qed.

(** X29. The share is compared as the Number [parseFloat] returns, the
    binary64 value nearest to the decimal literal. A share written
    4.99999999999999999999% or 4.9999999999999996% is read as 5, and a
    share written 1e-400 as 0: none of them makes a deck a low-share
    deck. A share written 4.9999999999999995% is read as the Number just
    below 5, and 5e-324 as the least positive Number: both do. A share
    written 1e400 is read as Infinity. *)
Theorem is_low_share_rounds_to_nearest :
  let share s := MetaAnalyzer.mkMetaDeck "Deck" "/deck" (Some s) in
  MetaAnalyzer.is_low_share (share "4.99999999999999999999%") = false
  /\ MetaAnalyzer.is_low_share (share "4.9999999999999996%") = false
  /\ MetaAnalyzer.is_low_share (share "1e-400") = false
  /\ MetaAnalyzer.is_low_share (share "4.9999999999999995%") = true
  /\ MetaAnalyzer.is_low_share (share "5e-324") = true
  /\ MetaAnalyzer.normalizedShare (share "5e-324")
     = MetaAnalyzer.Finite (1 # Pos.pow 2 1074)
  /\ MetaAnalyzer.normalizedShare (share "1e400")
     = MetaAnalyzer.Infinite false
  /\ MetaAnalyzer.normalizedShare (share "9007199254740993")
     = MetaAnalyzer.Finite (inject_Z 9007199254740992).
Proof. cbn zeta. repeat split; vm_compute; reflexivity. Qed.

(** ** Sorting *)

Section Sorting.

Lemma is_sorted_cons x y l :
  is_sorted (x :: y :: l) = String.leb x y && is_sorted (y :: l).
Proof. reflexivity. Qed.

Lemma insert_string_sorted x l :
  is_sorted l = true -> is_sorted (insert_string x l) = true.
Proof.
  induction l as [|y l IH]; intros H; [reflexivity|].
  cbn [insert_string]. destruct (String.leb x y) eqn:E.
  - now rewrite is_sorted_cons, E, H.
  - assert (Hyx : String.leb y x = true)
      by (destruct (String.leb_total x y); congruence).
    destruct l as [|z l'].
    + cbn [insert_string]. now rewrite is_sorted_cons, Hyx.
    + rewrite is_sorted_cons in H. apply andb_prop in H as [Hyz Hl].
      specialize (IH Hl). cbn [insert_string] in IH |- *.
      destruct (String.leb x z).
      * now rewrite is_sorted_cons, Hyx, IH.
      * now rewrite is_sorted_cons, Hyz, IH.
Qed.

Lemma sort_strings_sorted l : is_sorted (sort_strings l) = true.
Proof.
  induction l as [|x l IH]; [reflexivity|].
  now apply insert_string_sorted.
Qed.

Lemma sort_strings_fixed l : is_sorted l = true -> sort_strings l = l.
Proof.
  induction l as [|x l IH]; intros H; [reflexivity|].
  change (sort_strings (x :: l)) with (insert_string x (sort_strings l)).
  destruct l as [|y l']; [reflexivity|].
  rewrite is_sorted_cons in H. apply andb_prop in H as [Hxy Hl].
  rewrite (IH Hl). cbn [insert_string]. now rewrite Hxy.
Qed.

(** Sorting an array that [sort] has already sorted changes nothing. *)
Lemma sort_strings_idempotent l :
  sort_strings (sort_strings l) = sort_strings l.
Proof. apply sort_strings_fixed, sort_strings_sorted. Qed.

End Sorting.

(** ** In-place sorting by the analyses *)

Section InPlaceSort.

Lemma visit_entry_sorts acc d :
  snd (visit_entry acc d) = sort_entry_colors d.
Proof.
  unfold visit_entry, sort_entry_colors. destruct d as [c s [cs|] k t];
    reflexivity.
Qed.

Lemma visit_entries_sorts history : forall acc,
  snd (visit_entries acc history) = map sort_entry_colors history.
Proof.
  induction history as [|d rest IH]; intros acc; [reflexivity|].
  cbn [visit_entries map]. rewrite <- (visit_entry_sorts acc d).
  destruct (visit_entry acc d) as [acc1 d'].
  rewrite <- (IH acc1). now destruct (visit_entries acc1 rest).
Qed.

(** What [analyzeHistory] does to the stored history: every colour array
    is replaced by its sorted arrangement, and nothing else changes. *)
Lemma analyzeHistory_engine (e : Engine HistoryEntry) :
  snd (analyzeHistory e) = mkEngine (map sort_entry_colors (userHistory e)).
Proof.
  unfold analyzeHistory.
  rewrite <- (visit_entries_sorts (userHistory e)
                (RecommendationEngine.mkCounts Obj.empty Obj.empty Obj.empty)).
  now destruct (visit_entries _ _).
Qed.

Lemma visit_deck_sorts acc d :
  snd (MoxfieldAPI.visit_deck acc d) = sort_deck_colors d.
Proof.
  unfold MoxfieldAPI.visit_deck, sort_deck_colors.
  destruct d as [f c [[|x ci]|] n]; reflexivity.
Qed.

Lemma visit_decks_sorts decks : forall acc,
  snd (MoxfieldAPI.visit_decks acc decks) = map sort_deck_colors decks.
Proof.
  induction decks as [|d rest IH]; intros acc; [reflexivity|].
  cbn [MoxfieldAPI.visit_decks map]. rewrite <- (visit_deck_sorts acc d).
  destruct (MoxfieldAPI.visit_deck acc d) as [acc1 d'].
  rewrite <- (IH acc1). now destruct (MoxfieldAPI.visit_decks acc1 rest).
Qed.

(** What [analyzeUserPatterns] does to the deck records it is given. *)
Lemma analyzeUserPatterns_decks (decks : list MoxfieldAPI.Deck) :
  snd (MoxfieldAPI.analyzeUserPatterns decks) = map sort_deck_colors decks.
Proof.
  unfold MoxfieldAPI.analyzeUserPatterns.
  rewrite <- (visit_decks_sorts decks
                (MoxfieldAPI.mkCounts Obj.empty Obj.empty Obj.empty)).
  now destruct (MoxfieldAPI.visit_decks _ _).
Qed.

Lemma visit_entry_sorted acc d :
  visit_entry acc (sort_entry_colors d) = visit_entry acc d.
Proof.
  unfold visit_entry, sort_entry_colors. destruct d as [c s [cs|] k t];
    cbn [RecommendationEngine.commander RecommendationEngine.strategy
         RecommendationEngine.colors RecommendationEngine.cards
         RecommendationEngine.timestamp option_map];
    [|reflexivity].
  now rewrite sort_strings_idempotent.
Qed.

Lemma visit_entries_sorted history : forall acc,
  visit_entries acc (map sort_entry_colors history)
  = visit_entries acc history.
Proof.
  induction history as [|d rest IH]; intros acc; [reflexivity|].
  cbn [visit_entries map]. rewrite visit_entry_sorted.
  destruct (visit_entry acc d) as [acc1 d']. now rewrite IH.
Qed.

(** A second analysis finds the arrays sorted: it returns the same result
    and changes nothing. *)
Lemma analyzeHistory_again (e : Engine HistoryEntry) :
  analyzeHistory (snd (analyzeHistory e)) = analyzeHistory e.
Proof.
  rewrite analyzeHistory_engine. unfold analyzeHistory.
  cbn [userHistory]. now rewrite visit_entries_sorted.
Qed.

Lemma identifyGaps_engine {P : Type} (profileAnalysis : P)
    (e : Engine HistoryEntry) :
  snd (identifyGaps profileAnalysis e) = snd (analyzeHistory e).
Proof.
  unfold identifyGaps. now destruct (analyzeHistory e).
Qed.

Lemma identifyGaps_again {P1 P2 : Type} (profileAnalysis1 : P1)
    (profileAnalysis2 : P2) (e : Engine HistoryEntry) :
  identifyGaps profileAnalysis2 (snd (identifyGaps profileAnalysis1 e))
  = identifyGaps profileAnalysis1 e.
Proof.
  rewrite identifyGaps_engine. unfold identifyGaps.
  now rewrite analyzeHistory_again.
Qed.

End InPlaceSort.

(** C5 at a deck whose colours are written U, B: both analyses sort the
    colour array of the record they read, so the deck record given to
    [analyzeUserPatterns] and the history entry stored in the engine are
    changed by the call. *)
Theorem analyses_sort_colors_in_place :
  let deck := MoxfieldAPI.mkDeck (Some "commander") None (Some ["U"; "B"])
                                 (Some "Dimir Rogues") in
  let entry := mkEntry (Some "Yuriko") (Some "tempo") (Some ["U"; "B"]) None
                       "2024-01-01T00:00:00.000Z" in
  snd (MoxfieldAPI.analyzeUserPatterns [deck])
  = [MoxfieldAPI.mkDeck (Some "commander") None (Some ["B"; "U"])
                        (Some "Dimir Rogues")]
  /\ snd (MoxfieldAPI.analyzeUserPatterns [deck]) <> [deck]
  /\ userHistory (snd (analyzeHistory (mkEngine [entry])))
     = [mkEntry (Some "Yuriko") (Some "tempo") (Some ["B"; "U"]) None
                "2024-01-01T00:00:00.000Z"]
  /\ snd (analyzeHistory (mkEngine [entry])) <> mkEngine [entry].
Proof. cbn zeta. repeat split; try reflexivity; discriminate. Qed.

(** ** Independence of the gaps from the profile analysis *)

(** C10. [identifyGaps] does not depend on its argument: called on the
    same engine with any two arguments, of any types (an empty object
    among them), it returns the same gaps and leaves the same engine; a
    second call on the engine the first one leaves, with another argument,
    returns the same again. The same independence holds of
    [generateRecommendations], which passes [identifyGaps] the
    [profileAnalysis] property of its options. *)
Theorem identifyGaps_ignores_profileAnalysis
    {P1 P2 : Type} (profileAnalysis1 : P1) (profileAnalysis2 : P2)
    (options1 : RecOptions P1) (options2 : RecOptions P2)
    (e : Engine HistoryEntry) :
  identifyGaps profileAnalysis1 e = identifyGaps profileAnalysis2 e
  /\ identifyGaps profileAnalysis1 e = identifyGaps (VObj []) e
  /\ identifyGaps profileAnalysis2 (snd (identifyGaps profileAnalysis1 e))
     = identifyGaps profileAnalysis1 e
  /\ generateRecommendations options1 e = generateRecommendations options2 e.
Proof.
  split; [reflexivity|]. split; [reflexivity|]. split.
  - apply identifyGaps_again.
  - unfold generateRecommendations.
    destruct (analyzeHistory e) as [history e1].
    now destruct (profileAnalysis options1), (profileAnalysis options2).
Qed.

(** ** The examples of the specification *)

Example parseDeckList_example :
  parseDeckList
    ("1x Sol Ring" +:+ String newline
       ("1 Arcane Signet" +:+ String newline
          ("Forest" +:+ String newline
             ("# Lands" +:+ String newline "Island"))))
  = [mkCard 1 "Sol Ring"; mkCard 1 "Arcane Signet";
     mkCard 1 "Forest"; mkCard 1 "Island"].
Proof. reflexivity. Qed.

Example identifyTrends_example :
  MetaAnalyzer.identifyTrends MetaAnalyzer.sample_meta
  = MetaAnalyzer.mkTrends ["Deck 10%"; "Deck 8%"; "Deck 6%"]
                          ["Deck 4%"; "Deck 2%"] [].
Proof. reflexivity. Qed.

Example removeDuplicates_example :
  removeDuplicates [mkCard 2 "Sol Ring"; mkCard 10 "Forest";
                    mkCard 1 "sol ring"; mkCard 4 "Forest"]
  = [mkCard 1 "Sol Ring"; mkCard 10 "Forest"; mkCard 4 "Forest"].
Proof. reflexivity. Qed.

Example identifyGaps_all_colors_played :
  fst (identifyGaps tt
         (mkEngine [mkEntry (Some "Kenrith") (Some "combo")
                            (Some ["W"; "U"; "B"; "R"; "G"]) None "t"]))
  = [mkGap "strategies" "Unexplored strategies: aggro, control, midrange"
           "Consider trying a aggro deck"].
Proof. reflexivity. Qed.

(** ** Sorting by count *)

Section SortDesc.

Context {A : Type} (number : A -> option Z) (score : A -> Z).

Lemma insert_desc_perm x (l : list A) : insert_desc number x l ≡ₚ x :: l.
Proof.
  induction l as [|y l IH]; [reflexivity|]. cbn [insert_desc].
  destruct (sorts_after number x y); [|reflexivity].
  rewrite IH. apply perm_swap.
Qed.

Lemma sort_desc_perm (l : list A) : sort_desc number l ≡ₚ l.
Proof.
  induction l as [|x l IH]; [reflexivity|].
  change (sort_desc number (x :: l))
    with (insert_desc number x (sort_desc number l)).
  now rewrite insert_desc_perm, IH.
Qed.

Lemma insert_desc_descending x (l : list A) :
  number x = Some (score x) ->
  (forall y, y ∈ l -> number y = Some (score y)) ->
  descending score l -> descending score (insert_desc number x l).
Proof.
  unfold descending. intros Hx.
  induction l as [|y l IH]; intros Hnum H; cbn [insert_desc].
  - repeat constructor.
  - apply StronglySorted_inv in H as [Hl Hy].
    unfold sorts_after. rewrite Hx, (Hnum y) by left.
    destruct (score x <? score y) eqn:E.
    + apply Z.ltb_lt in E. constructor.
      * apply IH; [|exact Hl]. intros z Hz. apply Hnum. now right.
      * apply Forall_forall. intros z Hz.
        rewrite insert_desc_perm in Hz. apply elem_of_cons in Hz as [->|Hz].
        -- lia.
        -- rewrite Forall_forall in Hy. now apply Hy.
    + apply Z.ltb_ge in E. constructor; [now constructor|].
      constructor; [exact E|].
      eapply Forall_impl; [exact Hy|]. cbn. intros z Hz. lia.
Qed.

Lemma sort_desc_descending (l : list A) :
  (forall y, y ∈ l -> number y = Some (score y)) ->
  descending score (sort_desc number l).
Proof.
  induction l as [|x l IH]; intros Hnum; [constructor|].
  apply insert_desc_descending.
  - apply Hnum. left.
  - intros y Hy. rewrite sort_desc_perm in Hy. apply Hnum. now right.
  - apply IH. intros y Hy. apply Hnum. now right.
Qed.

Lemma descending_take n (l : list A) :
  descending score l -> descending score (take n l).
Proof.
  unfold descending. intros H. revert n.
  induction H as [|x l Hl IH Hx]; intros [|n]; cbn [take];
    try constructor.
  - apply IH.
  - apply Forall_forall. intros z Hz. rewrite Forall_forall in Hx.
    apply Hx. now apply (subseteq_take n l).
Qed.

(** In a list in descending order, no element past the first [n] has a
    greater count than one of the first [n]. *)
Lemma descending_take_drop n (l : list A) a b :
  descending score l -> a ∈ take n l -> b ∈ drop n l -> score b <= score a.
Proof.
  unfold descending. intros H. revert n.
  induction H as [|x l Hl IH Hx]; intros [|n] Ha Hb; cbn [take drop] in *;
    try (now apply elem_of_nil in Ha).
  apply elem_of_cons in Ha as [->|Ha].
  - rewrite Forall_forall in Hx. apply Hx. now apply (subseteq_drop n l).
  - now apply (IH n).
Qed.

Lemma descending_map {B} (f : A -> B) (score' : B -> Z) (l : list A) :
  (forall x, score' (f x) = score x) ->
  descending score l -> descending score' (map f l).
Proof.
  unfold descending. intros Hf H.
  induction H as [|x l Hl IH Hx]; cbn [map]; constructor; [exact IH|].
  apply Forall_forall. intros y Hy. apply elem_of_map in Hy as (z & -> & Hz).
  rewrite !Hf. rewrite Forall_forall in Hx. now apply Hx.
Qed.

End SortDesc.

(** ** Dictionaries that count *)

Section Counting.

Lemma list_includes_elem_of ks k : list_includes ks k = true <-> k ∈ ks.
Proof.
  unfold list_includes. rewrite existsb_exists, list_elem_of_In. split.
  - intros (x & Hx & E). apply String.eqb_eq in E. now subst x.
  - intros H. exists k. split; [exact H | apply String.eqb_refl].
Qed.

Lemma list_includes_app ks1 ks2 k :
  list_includes (ks1 ++ ks2) k = list_includes ks1 k || list_includes ks2 k.
Proof. apply existsb_app. Qed.

Lemma occurrences_app k ks1 ks2 :
  occurrences k (ks1 ++ ks2) = occurrences k ks1 + occurrences k ks2.
Proof.
  unfold occurrences. rewrite List.filter_app, length_app. lia.
Qed.

Lemma occurrences_nonneg k ks : 0 <= occurrences k ks.
Proof. unfold occurrences. lia. Qed.

Lemma occurrences_absent k ks :
  list_includes ks k = false -> occurrences k ks = 0.
Proof.
  unfold occurrences, list_includes. induction ks as [|x ks IH];
    [reflexivity|].
  cbn [existsb List.filter]. destruct (String.eqb k x); [discriminate|].
  exact IH.
Qed.

Lemma occurrences_present k ks :
  list_includes ks k = true -> 1 <= occurrences k ks.
Proof.
  unfold occurrences, list_includes. induction ks as [|x ks IH];
    [discriminate|].
  cbn [existsb List.filter]. destruct (String.eqb k x); cbn [length orb].
  - lia.
  - exact IH.
Qed.

Lemma set_elements_from_snoc ks : forall seen k,
  set_elements_from seen (ks ++ [k])
  = set_elements_from seen ks
    ++ (if decide (k ∈ seen \/ k ∈ ks) then [] else [k]).
Proof.
  induction ks as [|x ks IH]; intros seen k.
  - cbn [app set_elements_from].
    apply (decide_ext (k ∈ seen) (k ∈ seen \/ k ∈ [])).
    split; [now left | intros [H|H]; [exact H | now apply elem_of_nil in H]].
  - cbn [app set_elements_from]. destruct (decide (x ∈ seen)) as [Hx|Hx].
    + rewrite IH. f_equal. apply decide_ext. split.
      * intros [H|H]; [now left | right; now right].
      * intros [H|H]; [now left|].
        apply elem_of_cons in H as [->|H]; [now left | now right].
    + rewrite IH. cbn [app]. f_equal. f_equal. apply decide_ext. split.
      * intros [H|H]; [|right; now right].
        apply elem_of_union in H as [H|H]; [|now left].
        apply elem_of_singleton in H as ->. right. now left.
      * intros [H|H].
        -- left. apply elem_of_union. now right.
        -- apply elem_of_cons in H as [->|H]; [|now right].
           left. apply elem_of_union. left. now apply elem_of_singleton.
Qed.

Lemma set_elements_snoc ks k :
  set_elements (ks ++ [k])
  = set_elements ks ++ (if list_includes ks k then [] else [k]).
Proof.
  unfold set_elements. rewrite set_elements_from_snoc. f_equal.
  destruct (list_includes ks k) eqn:E.
  - apply list_includes_elem_of in E.
    rewrite decide_True by now right. reflexivity.
  - rewrite decide_False; [reflexivity|]. intros [H|H].
    + now apply elem_of_empty in H.
    + apply list_includes_elem_of in H. congruence.
Qed.

Lemma elem_of_set_elements_from l : forall seen x,
  x ∈ set_elements_from seen l <-> x ∈ l /\ x ∉ seen.
Proof.
  induction l as [|y l IH]; intros seen x; cbn [set_elements_from].
  - split; [intros H; now apply elem_of_nil in H|].
    intros [H _]. now apply elem_of_nil in H.
  - destruct (decide (y ∈ seen)) as [Hy|Hy].
    + rewrite IH, elem_of_cons. split; [intros [H1 H2]; auto|].
      intros [[->|H1] H2]; [contradiction | auto].
    + rewrite !elem_of_cons, IH, elem_of_union, elem_of_singleton. split.
      * intros [->|[H1 H2]]; [auto|]. split; [auto|]. intros H. apply H2. auto.
      * intros [[->|H1] H2]; [auto|].
        destruct (decide (x = y)) as [->|Hne]; [auto|].
        right. split; [exact H1|]. intros [H|H]; contradiction.
Qed.

Lemma elem_of_set_elements l x : x ∈ set_elements l <-> x ∈ l.
Proof.
  unfold set_elements. rewrite elem_of_set_elements_from. split.
  - now intros [H _].
  - intros H. split; [exact H | apply not_elem_of_empty].
Qed.

Lemma NoDup_set_elements_from l : forall seen,
  NoDup (set_elements_from seen l).
Proof.
  induction l as [|x l IH]; intros seen; cbn [set_elements_from].
  - apply NoDup_nil_2.
  - destruct (decide (x ∈ seen)); [apply IH|].
    apply NoDup_cons. split; [|apply IH].
    rewrite elem_of_set_elements_from. intros [_ H]. apply H.
    apply elem_of_union. left. now apply elem_of_singleton.
Qed.

Lemma tallies_empty : tallies [] Obj.empty.
Proof. split; [apply NoDup_nil_2 | reflexivity]. Qed.

Lemma counts_of_empty : counts_of [] Obj.empty.
Proof. split; [apply tallies_empty | reflexivity]. Qed.

(** The increment of a key that [Object.prototype] does not define is
    the number stored, or 0, plus 1. *)
Lemma incr_not_inherited ks o k :
  list_includes Obj.inherited k = false ->
  tallies ks o ->
  Obj.incr o k = Obj.set o k (Num (occurrences k ks + 1)).
Proof.
  intros Hi (_ & Hown). unfold Obj.incr.
  rewrite (get_not_inherited o k Hi), Hown.
  destruct (list_includes ks k) eqn:Ek.
  - destruct (occurrences k ks =? 0) eqn:E0; [|reflexivity].
    apply Z.eqb_eq in E0. now rewrite E0.
  - now rewrite (occurrences_absent _ _ Ek).
Qed.

Lemma incr_tallies ks o k :
  list_includes Obj.inherited k = false ->
  tallies ks o -> tallies (ks ++ [k]) (Obj.incr o k).
Proof.
  intros Hi H. rewrite (incr_not_inherited ks o k Hi H).
  destruct H as (Hnd & Hown). split; [now apply NoDup_keys_set|].
  intros k'. rewrite (own_set o k _ k' (not_inherited_proto k Hi)).
  rewrite list_includes_app, occurrences_app, Hown.
  assert (H1 : list_includes [k] k' = String.eqb k' k)
    by (unfold list_includes; cbn [existsb]; apply orb_false_r).
  assert (H2 : occurrences k' [k] = if String.eqb k' k then 1 else 0)
    by (unfold occurrences; cbn [List.filter];
        destruct (String.eqb k' k); reflexivity).
  rewrite H1, H2, (String.eqb_sym k' k).
  destruct (String.eqb k k') eqn:E.
  - apply String.eqb_eq in E as <-. now rewrite orb_true_r.
  - now rewrite orb_false_r, Z.add_0_r.
Qed.

Lemma incr_counts ks o k :
  list_includes Obj.inherited k = false -> Obj.index_of k = None ->
  counts_of ks o -> counts_of (ks ++ [k]) (Obj.incr o k).
Proof.
  intros Hi Hx (H & Hkeys). split; [now apply incr_tallies|].
  rewrite (incr_not_inherited ks o k Hi H).
  rewrite (keys_set_plain o k _ (not_inherited_proto k Hi) Hx).
  rewrite set_elements_snoc, <- Hkeys. destruct H as (_ & Hown).
  rewrite Hown. now destruct (list_includes ks k); [rewrite app_nil_r|].
Qed.

Lemma fold_incr_tallies {X} (key : X -> string) (xs : list X) : forall ks o,
  not_inherited (map key xs) ->
  tallies ks o ->
  tallies (ks ++ map key xs)
          (fold_left (fun m x => Obj.incr m (key x)) xs o).
Proof.
  induction xs as [|x xs IH]; intros ks o Hk H; cbn [map fold_left].
  - now rewrite app_nil_r.
  - cbn [map] in Hk. apply Forall_cons in Hk as [Hx Hk].
    replace (ks ++ key x :: map key xs) with ((ks ++ [key x]) ++ map key xs)
      by now rewrite <- app_assoc.
    apply IH; [exact Hk|]. now apply incr_tallies.
Qed.

Lemma fold_incr_counts {X} (key : X -> string) (xs : list X) : forall ks o,
  plain_keys (map key xs) ->
  counts_of ks o ->
  counts_of (ks ++ map key xs)
            (fold_left (fun m x => Obj.incr m (key x)) xs o).
Proof.
  induction xs as [|x xs IH]; intros ks o Hk H; cbn [map fold_left].
  - now rewrite app_nil_r.
  - cbn [map] in Hk. apply Forall_cons in Hk as [[Hx1 Hx2] Hk].
    replace (ks ++ key x :: map key xs) with ((ks ++ [key x]) ++ map key xs)
      by now rewrite <- app_assoc.
    apply IH; [exact Hk|]. now apply incr_counts.
Qed.

(** The keys of a dictionary after an increment, whatever the key. *)
Lemma elem_of_keys_incr o k x :
  x ∈ Obj.keys (Obj.incr o k)
  <-> x ∈ Obj.keys o \/ (x = k /\ k <> "__proto__").
Proof. apply elem_of_keys_set. Qed.

Lemma elem_of_keys_fold_incr {X} (key : X -> string) (xs : list X) :
  forall o x,
    x ∈ Obj.keys (fold_left (fun m y => Obj.incr m (key y)) xs o)
    <-> x ∈ Obj.keys o \/ (x ∈ map key xs /\ x <> "__proto__").
Proof.
  induction xs as [|y xs IH]; intros o x; cbn [map fold_left].
  - split; [auto|]. intros [H|[H _]]; [exact H | now apply elem_of_nil in H].
  - rewrite IH, elem_of_keys_incr, elem_of_cons. split.
    + intros [[H|[-> H]]|[H1 H2]]; auto.
    + intros [H|[[->|H1] H2]]; auto.
Qed.

Lemma plain_keys_not_inherited ks : plain_keys ks -> not_inherited ks.
Proof.
  intros H. eapply Forall_impl; [exact H|]. cbn. now intros k [Hk _].
Qed.

Lemma not_inherited_app ks1 ks2 :
  not_inherited (ks1 ++ ks2) <-> not_inherited ks1 /\ not_inherited ks2.
Proof. apply Forall_app. Qed.

Lemma plain_keys_app ks1 ks2 :
  plain_keys (ks1 ++ ks2) <-> plain_keys ks1 /\ plain_keys ks2.
Proof. apply Forall_app. Qed.

Lemma tallies_entry ks o k v :
  tallies ks o ->
  (k, v) ∈ Obj.entries o <-> k ∈ ks /\ v = Num (occurrences k ks).
Proof.
  intros (Hnd & Hown). split.
  - intros H. apply (elem_of_own o k v Hnd) in H. rewrite Hown in H.
    destruct (list_includes ks k) eqn:E; [|discriminate].
    apply list_includes_elem_of in E. now injection H as <-.
  - intros [Hk ->]. apply own_elem_of. rewrite Hown.
    apply list_includes_elem_of in Hk. now rewrite Hk.
Qed.

Lemma tallies_keys ks o k : tallies ks o -> k ∈ Obj.keys o <-> k ∈ ks.
Proof.
  intros (_ & Hown). specialize (Hown k). split.
  - intros Hin. destruct (list_includes ks k) eqn:E.
    + now apply list_includes_elem_of.
    + apply own_None in Hown. contradiction.
  - intros Hin. apply list_includes_elem_of in Hin. rewrite Hin in Hown.
    destruct (decide (k ∈ Obj.keys o)) as [H|H]; [exact H|].
    apply own_None in H. congruence.
Qed.

(** The keys of a dictionary that tallies [ks] are the distinct elements
    of [ks], in some order. *)
Lemma tallies_keys_perm ks o :
  tallies ks o -> Obj.keys o ≡ₚ set_elements ks.
Proof.
  intros H. apply NoDup_Permutation.
  - apply H.
  - apply NoDup_set_elements_from.
  - intros k. now rewrite (tallies_keys ks o k H), elem_of_set_elements.
Qed.

Lemma tallies_number ks o k :
  tallies ks o -> k ∈ ks ->
  MoxfieldAPI.stored_number o k = Some (occurrences k ks).
Proof.
  intros (_ & Hown) Hk. unfold MoxfieldAPI.stored_number, Obj.get.
  apply list_includes_elem_of in Hk. now rewrite Hown, Hk.
Qed.

Lemma tallies_nil ks o : tallies ks o -> (o = [] <-> ks = []).
Proof.
  intros H. split.
  - intros ->. destruct ks as [|k ks]; [reflexivity|].
    assert (Hk : k ∈ Obj.keys (@nil (string * count)))
      by (apply (tallies_keys (k :: ks) [] k H); left).
    now apply elem_of_nil in Hk.
  - intros ->. destruct o as [|[k v] o]; [reflexivity|].
    assert (Hk : k ∈ Obj.keys ((k, v) :: o)) by left.
    apply (tallies_keys [] _ k H) in Hk. now apply elem_of_nil in Hk.
Qed.

(** The head of the keys sorted by their count. *)
Lemma most_frequent_key ks o :
  counts_of ks o ->
  match head (sort_desc (MoxfieldAPI.stored_number o) (Obj.keys o)) with
  | Some k => first_most_frequent k ks
  | None => ks = []
  end.
Proof.
  intros (H & Hkeys). destruct (Obj.keys o) as [|k0 keys] eqn:Ekeys.
  - cbn. apply (tallies_nil ks o H). destruct o; [reflexivity|discriminate].
  - destruct (sort_desc_head (MoxfieldAPI.stored_number o)
                (fun k => occurrences k ks) (k0 :: keys))
      as (x & rest & before & after & Hs & Hl & Hb & Ha);
      [|discriminate|].
    + intros k Hk. apply tallies_number; [exact H|].
      apply (tallies_keys ks o k H). now rewrite Ekeys.
    + rewrite Hs. cbn [head]. exists before, after.
      rewrite <- Hkeys. auto.
Qed.

(** The head of the entries sorted by their count. *)
Lemma most_frequent_entry ks o :
  counts_of ks o ->
  match sort_desc (fun e => number_of (snd e)) (Obj.entries o) with
  | (k, v) :: _ => first_most_frequent k ks /\ v = Num (occurrences k ks)
  | [] => ks = []
  end.
Proof.
  intros (H & Hkeys). destruct (Obj.entries o) as [|e0 es] eqn:Eo.
  - cbn. now apply (tallies_nil ks o H).
  - assert (Hentry : forall e, e ∈ e0 :: es ->
                               snd e = Num (occurrences (fst e) ks)).
    { intros [k' v'] He. rewrite <- Eo in He.
      now apply (tallies_entry ks o k' v' H) in He as [_ ->]. }
    destruct (sort_desc_head (fun e : string * count => number_of (snd e))
                (fun e => occurrences (fst e) ks) (e0 :: es))
      as ([k v] & rest & before & after & Hs & Hl & Hb & Ha);
      [|discriminate|].
    + intros e He. now rewrite (Hentry e He).
    + rewrite Hs.
      assert (Hv : v = Num (occurrences k ks)).
      { apply (Hentry (k, v)). rewrite Hl. apply elem_of_app. right. left. }
      split; [|exact Hv].
      exists (map fst before), (map fst after).
      rewrite <- Hkeys.
      unfold Obj.keys. unfold Obj.entries in Eo. rewrite Eo, Hl.
      rewrite map_app. cbn [map fst]. split; [reflexivity|].
      split; apply Forall_forall; intros k' Hk';
        apply elem_of_map in Hk' as (e & -> & He).
      * rewrite Forall_forall in Hb. exact (Hb e He).
      * rewrite Forall_forall in Ha. exact (Ha e He).
Qed.

End Counting.

(** ** Rankings *)

Section Ranking.

Lemma NoDup_map_take {X Y} (f : X -> Y) n (l : list X) :
  NoDup (map f l) -> NoDup (map f (take n l)).
Proof.
  revert n. induction l as [|x l IH]; intros [|n] H; cbn [take map];
    try apply NoDup_nil_2.
  cbn [map] in H. apply NoDup_cons in H as [Hx Hl].
  apply NoDup_cons. split; [|now apply IH].
  intros Hin. apply Hx. apply elem_of_map in Hin as (y & -> & Hy).
  apply elem_of_map. exists y. split; [reflexivity|].
  now apply (subseteq_take n l).
Qed.

Lemma ranking_of_top {R} (mk : string * count -> R) (rname : R -> string)
    (rcount : R -> count) (n : nat) (ks : list string) (o : Obj.t count) :
  (forall e, rname (mk e) = fst e) ->
  (forall e, rcount (mk e) = snd e) ->
  tallies ks o ->
  ranking_of rname rcount n ks
    (map mk (take n (sort_desc (fun e => number_of (snd e))
                               (Obj.entries o)))).
Proof.
  intros Hname Hcount H.
  set (number := fun e : string * count => number_of (snd e)).
  set (score := fun e : string * count => occurrences (fst e) ks).
  assert (Hentry : forall e, e ∈ Obj.entries o ->
                             fst e ∈ ks /\ snd e = Num (score e)).
  { intros [k v] He. now apply (tallies_entry ks o k v H). }
  assert (Hnum : forall e, e ∈ Obj.entries o -> number e = Some (score e)).
  { intros e He. unfold number. now rewrite (proj2 (Hentry e He)). }
  pose proof (sort_desc_perm number (Obj.entries o)) as Hperm.
  pose proof (sort_desc_descending number score (Obj.entries o) Hnum)
    as Hdesc.
  set (sorted := sort_desc number (Obj.entries o)) in *.
  assert (Hnames : forall l, map rname (map mk l) = map fst l).
  { intros l. rewrite map_map. apply map_ext. intros e. apply Hname. }
  assert (Hin : forall e, e ∈ take n sorted ->
                          fst e ∈ ks /\ snd e = Num (score e)).
  { intros e He. apply (subseteq_take n sorted) in He.
    rewrite Hperm in He. now apply Hentry. }
  unfold ranking_of. split; [|split; [|split; [|split]]].
  - rewrite length_map, length_take, (Permutation_length Hperm).
    rewrite <- (Permutation_length (tallies_keys_perm ks o H)).
    unfold Obj.keys, Obj.entries. now rewrite length_map.
  - rewrite Hnames. apply NoDup_map_take.
    destruct H as (Hnd & _). unfold Obj.keys in Hnd.
    assert (Hp : map fst sorted ≡ₚ map fst (Obj.entries o))
      by now apply Permutation_map.
    now rewrite Hp.
  - apply Forall_forall. intros r Hr.
    apply elem_of_map in Hr as (e & -> & He).
    rewrite Hname, Hcount. now apply Hin.
  - apply (descending_map score mk); [intros e; now rewrite Hname|].
    now apply descending_take.
  - intros k Hk Hout. rewrite Hnames in Hout.
    assert (Hdrop : (k, Num (occurrences k ks)) ∈ drop n sorted).
    { assert (Hs : (k, Num (occurrences k ks)) ∈ sorted)
        by (rewrite Hperm; now apply (tallies_entry ks o k _ H)).
      rewrite <- (take_drop n sorted) in Hs.
      apply elem_of_app in Hs as [Hs|Hs]; [|exact Hs].
      exfalso. apply Hout. apply elem_of_map.
      exists (k, Num (occurrences k ks)). now split. }
    split.
    + rewrite length_map, length_take.
      destruct (Nat.le_gt_cases (length sorted) n) as [Hle|Hgt]; [|lia].
      rewrite drop_ge in Hdrop by exact Hle. now apply elem_of_nil in Hdrop.
    + apply Forall_forall. intros r Hr.
      apply elem_of_map in Hr as (e & -> & He). rewrite Hname.
      exact (descending_take_drop score n sorted e _ Hdesc He Hdrop).
Qed.

End Ranking.

(** ** What [analyzeUserPatterns] counts *)

Section UserPatterns.

Lemma fold_incr_map {X} (key : X -> string) (xs : list X) : forall o,
  fold_left (fun m x => Obj.incr m (key x)) xs o
  = fold_left Obj.incr (map key xs) o.
Proof.
  induction xs as [|x xs IH]; intros o; [reflexivity|].
  cbn [map fold_left]. apply IH.
Qed.

Lemma fold_tallies ks :
  not_inherited ks -> tallies ks (fold_left Obj.incr ks Obj.empty).
Proof.
  intros H.
  pose proof (fold_incr_tallies id ks [] Obj.empty) as Hf.
  rewrite fold_incr_map, map_id in Hf. apply Hf; [exact H|].
  apply tallies_empty.
Qed.

Lemma fold_counts ks :
  plain_keys ks -> counts_of ks (fold_left Obj.incr ks Obj.empty).
Proof.
  intros H.
  pose proof (fold_incr_counts id ks [] Obj.empty) as Hf.
  rewrite fold_incr_map, map_id in Hf. apply Hf; [exact H|].
  apply counts_of_empty.
Qed.

(** The keys of a dictionary filled by counting [ks], whatever the
    keys: those of [ks], but for [__proto__]. *)
Lemma fold_keys ks x :
  x ∈ Obj.keys (fold_left Obj.incr ks Obj.empty)
  <-> x ∈ ks /\ x <> "__proto__".
Proof.
  pose proof (elem_of_keys_fold_incr id ks Obj.empty x) as Hf.
  rewrite fold_incr_map, map_id in Hf. rewrite Hf. split.
  - intros [H|H]; [now apply elem_of_nil in H | exact H].
  - auto.
Qed.

(** Each dictionary is filled by counting its list of keys. *)
Lemma visit_deck_dictionaries acc d :
  let acc' := fst (MoxfieldAPI.visit_deck acc d) in
  MoxfieldAPI.c_formats acc'
  = fold_left Obj.incr (format_keys [d]) (MoxfieldAPI.c_formats acc)
  /\ MoxfieldAPI.c_commanders acc'
     = fold_left Obj.incr (commander_keys_of d)
                 (MoxfieldAPI.c_commanders acc)
  /\ MoxfieldAPI.c_colors acc'
     = fold_left Obj.incr (color_keys_of d) (MoxfieldAPI.c_colors acc).
Proof.
  cbn zeta.
  assert (Hc : match MoxfieldAPI.commanders d with
               | Some cs =>
                   if (0 <? length cs)%nat then
                     fold_left
                       (fun m commander =>
                          Obj.incr m
                            (MoxfieldAPI.or_default
                               (MoxfieldAPI.card_name commander) "Unknown"))
                       cs (MoxfieldAPI.c_commanders acc)
                   else MoxfieldAPI.c_commanders acc
               | None => MoxfieldAPI.c_commanders acc
               end
               = fold_left Obj.incr (commander_keys_of d)
                           (MoxfieldAPI.c_commanders acc)).
  { unfold commander_keys_of.
    destruct (MoxfieldAPI.commanders d) as [[|c cs]|]; try reflexivity.
    replace (0 <? length (c :: cs))%nat with true by reflexivity.
    apply fold_incr_map. }
  unfold MoxfieldAPI.visit_deck, color_keys_of.
  destruct (MoxfieldAPI.colorIdentity d) as [[|x ci]|];
    cbn [fst MoxfieldAPI.c_formats MoxfieldAPI.c_commanders
         MoxfieldAPI.c_colors Nat.ltb Nat.leb length];
    (split; [reflexivity | split; [exact Hc | reflexivity]]).
Qed.

Lemma visit_decks_dictionaries decks : forall acc,
  let acc' := fst (MoxfieldAPI.visit_decks acc decks) in
  MoxfieldAPI.c_formats acc'
  = fold_left Obj.incr (format_keys decks) (MoxfieldAPI.c_formats acc)
  /\ MoxfieldAPI.c_commanders acc'
     = fold_left Obj.incr (commander_keys decks)
                 (MoxfieldAPI.c_commanders acc)
  /\ MoxfieldAPI.c_colors acc'
     = fold_left Obj.incr (color_keys decks) (MoxfieldAPI.c_colors acc).
Proof.
  induction decks as [|d rest IH]; intros acc; cbn zeta.
  - repeat split.
  - destruct (visit_deck_dictionaries acc d) as (Hf1 & Hc1 & Hl1).
    cbn [MoxfieldAPI.visit_decks].
    destruct (MoxfieldAPI.visit_deck acc d) as [acc1 d'].
    cbn [fst] in Hf1, Hc1, Hl1.
    specialize (IH acc1). cbn zeta in IH.
    destruct (MoxfieldAPI.visit_decks acc1 rest) as [acc2 rest'].
    cbn [fst] in IH |- *. destruct IH as (-> & -> & ->).
    rewrite Hf1, Hc1, Hl1.
    unfold format_keys, commander_keys, color_keys.
    cbn [map flat_map]. rewrite !fold_left_app. repeat split.
Qed.

Lemma analyzeUserPatterns_dictionaries decks :
  let p := fst (MoxfieldAPI.analyzeUserPatterns decks) in
  MoxfieldAPI.formats p = fold_left Obj.incr (format_keys decks) Obj.empty
  /\ MoxfieldAPI.commanderCounts p
     = fold_left Obj.incr (commander_keys decks) Obj.empty
  /\ MoxfieldAPI.colors p
     = fold_left Obj.incr (color_keys decks) Obj.empty.
Proof.
  cbn zeta.
  pose proof (visit_decks_dictionaries decks
                (MoxfieldAPI.mkCounts Obj.empty Obj.empty Obj.empty)) as H.
  cbn zeta in H. unfold MoxfieldAPI.analyzeUserPatterns.
  destruct (MoxfieldAPI.visit_decks _ decks) as [acc decks'].
  exact H.
Qed.

Lemma favoriteFormat_key decks :
  plain_keys (format_keys decks) ->
  match MoxfieldAPI.favoriteFormat
          (fst (MoxfieldAPI.analyzeUserPatterns decks)) with
  | Some f => first_most_frequent f (format_keys decks)
  | None => decks = []
  end.
Proof.
  intros Hplain.
  destruct (analyzeUserPatterns_dictionaries decks) as (Hf & _ & _).
  cbn zeta in Hf. pose proof (fold_counts _ Hplain) as Hcounts.
  rewrite <- Hf in Hcounts. apply most_frequent_key in Hcounts.
  unfold MoxfieldAPI.analyzeUserPatterns in *.
  destruct (MoxfieldAPI.visit_decks _ decks) as [acc decks'].
  cbn [fst MoxfieldAPI.formats MoxfieldAPI.favoriteFormat] in *.
  destruct (head _) as [f|]; [exact Hcounts|].
  destruct decks; [reflexivity | discriminate Hcounts].
Qed.

End UserPatterns.

(** X12. The three dictionaries [analyzeUserPatterns] returns count what
    the decks hold: [formats] the format of every deck (["unknown"] for a
    deck without one), [commanders] the name of every commander of every
    deck (["Unknown"] for a commander without a card name), [colors] the
    sorted, joined colour identity of every deck that has a non-empty
    one. When none of the keys of a dictionary is the name of a property
    of [Object.prototype], the dictionary holds each distinct key with the
    number of its occurrences; when none is an array index either, the
    keys are in the order of their first occurrence. Whatever the keys,
    the dictionary has them all as keys, but for [__proto__]. *)
Theorem analyzeUserPatterns_counts (decks : list MoxfieldAPI.Deck) :
  let p := fst (MoxfieldAPI.analyzeUserPatterns decks) in
  filled_by (format_keys decks) (MoxfieldAPI.formats p)
  /\ filled_by (commander_keys decks) (MoxfieldAPI.commanderCounts p)
  /\ filled_by (color_keys decks) (MoxfieldAPI.colors p).
Proof.
  cbn zeta.
  destruct (analyzeUserPatterns_dictionaries decks) as (-> & -> & ->).
  assert (H : forall ks, filled_by ks (fold_left Obj.incr ks Obj.empty)).
  { intros ks. split; [|split].
    - intros k. apply fold_keys.
    - apply fold_tallies.
    - apply fold_counts. }
  split; [|split]; apply H.
Qed.

Lemma analyzeUserPatterns_counts_witness :
  counts_of ["commander"; "pauper"; "commander"]
    (MoxfieldAPI.formats
       (fst (MoxfieldAPI.analyzeUserPatterns
               [MoxfieldAPI.mkDeck (Some "commander") None None None;
                MoxfieldAPI.mkDeck (Some "pauper") None None None;
                MoxfieldAPI.mkDeck (Some "commander") None None None]))).
Proof.
  pose proof (analyzeUserPatterns_counts
                [MoxfieldAPI.mkDeck (Some "commander") None None None;
                 MoxfieldAPI.mkDeck (Some "pauper") None None None;
                 MoxfieldAPI.mkDeck (Some "commander") None None None]) as H.
  cbn zeta in H. destruct H as ((_ & _ & H) & _).
  apply H. repeat constructor.
Defined.

(** X13. When no format of the decks is the name of a property of
    [Object.prototype] or an array index: [favoriteFormat] is absent
    exactly for an empty array of decks; otherwise it is the format most
    decks have and, among several such formats, the one that appears
    first in the array. *)
Theorem favoriteFormat_first_most_frequent (decks : list MoxfieldAPI.Deck) :
  plain_keys (format_keys decks) ->
  match MoxfieldAPI.favoriteFormat
          (fst (MoxfieldAPI.analyzeUserPatterns decks)) with
  | Some f => decks <> [] /\ first_most_frequent f (format_keys decks)
  | None => decks = []
  end.
Proof.
  intros Hplain. pose proof (favoriteFormat_key decks Hplain) as Hf.
  destruct (MoxfieldAPI.favoriteFormat _) as [f|]; [|exact Hf].
  split; [|exact Hf]. intros ->.
  destruct Hf as (before & after & Hs & _). now destruct before.
Qed.

Lemma favoriteFormat_first_most_frequent_witness :
  match MoxfieldAPI.favoriteFormat
          (fst (MoxfieldAPI.analyzeUserPatterns
                  [MoxfieldAPI.mkDeck (Some "pauper") None None None;
                   MoxfieldAPI.mkDeck (Some "commander") None None None]))
  with
  | Some f =>
      [MoxfieldAPI.mkDeck (Some "pauper") None None None;
       MoxfieldAPI.mkDeck (Some "commander") None None None] <> []
      /\ first_most_frequent f
           (format_keys
              [MoxfieldAPI.mkDeck (Some "pauper") None None None;
               MoxfieldAPI.mkDeck (Some "commander") None None None])
  | None =>
      [MoxfieldAPI.mkDeck (Some "pauper") None None None;
       MoxfieldAPI.mkDeck (Some "commander") None None None] = []
  end.
Proof.
  apply (favoriteFormat_first_most_frequent
           [MoxfieldAPI.mkDeck (Some "pauper") None None None;
            MoxfieldAPI.mkDeck (Some "commander") None None None]).
  repeat constructor.
Defined.

(** X14. [topCommanders] ranks the commander names of the decks by the
    number of their occurrences and keeps the first five, when none of
    the names is the name of a property of [Object.prototype];
    [topColorCombos] does the same with the colour keys. In each: there
    are five records, or one for each distinct key when there are fewer;
    the names are distinct; each record carries the number of occurrences
    of its name; the counts do not increase along the list; and a key
    that is left out occurs at most as often as every key that is
    kept. *)
Theorem top_five_rankings (decks : list MoxfieldAPI.Deck) :
  let p := fst (MoxfieldAPI.analyzeUserPatterns decks) in
  (not_inherited (commander_keys decks) ->
   ranking_of MoxfieldAPI.rc_name MoxfieldAPI.rc_count 5
              (commander_keys decks) (MoxfieldAPI.topCommanders p))
  /\ (not_inherited (color_keys decks) ->
      ranking_of MoxfieldAPI.rk_colors MoxfieldAPI.rk_count 5
                 (color_keys decks) (MoxfieldAPI.topColorCombos p)).
Proof.
  destruct (analyzeUserPatterns_dictionaries decks) as (_ & Hc & Hl).
  cbn zeta in *. unfold MoxfieldAPI.analyzeUserPatterns in *.
  destruct (MoxfieldAPI.visit_decks _ decks) as [acc decks'].
  cbn [fst MoxfieldAPI.commanderCounts MoxfieldAPI.colors
       MoxfieldAPI.topCommanders MoxfieldAPI.topColorCombos] in *.
  rewrite Hc, Hl.
  split; intros H; apply ranking_of_top; try reflexivity;
    now apply fold_tallies.
Qed.

Lemma top_five_rankings_witness :
  ranking_of MoxfieldAPI.rc_name MoxfieldAPI.rc_count 5
    (commander_keys
       [MoxfieldAPI.mkDeck None
          (Some [MoxfieldAPI.mkCommander (Some "Atraxa")]) None None])
    (MoxfieldAPI.topCommanders
       (fst (MoxfieldAPI.analyzeUserPatterns
               [MoxfieldAPI.mkDeck None
                  (Some [MoxfieldAPI.mkCommander (Some "Atraxa")])
                  None None]))).
Proof.
  apply (top_five_rankings
           [MoxfieldAPI.mkDeck None
              (Some [MoxfieldAPI.mkCommander (Some "Atraxa")]) None None]).
  repeat constructor.
Defined.

(** ** What the recommendation engine counts *)

Section History.

Lemma played_key_fold (p : option string) (o : Obj.t count) :
  match p with
  | Some c => if truthy_string c then Obj.incr o c else o
  | None => o
  end = fold_left Obj.incr (played_key p) o.
Proof.
  unfold played_key. destruct p as [c|]; [|reflexivity].
  now destruct (truthy_string c).
Qed.

(** Each dictionary is filled by counting its list of keys. *)
Lemma visit_entry_dictionaries acc d :
  let acc' := fst (visit_entry acc d) in
  c_commanders acc'
  = fold_left Obj.incr (played_key (commander d)) (c_commanders acc)
  /\ c_strategies acc'
     = fold_left Obj.incr (played_key (strategy d)) (c_strategies acc)
  /\ c_colors acc' = fold_left Obj.incr (color_key_of d) (c_colors acc).
Proof.
  cbn zeta. unfold visit_entry, color_key_of.
  destruct (RecommendationEngine.colors d) as [cs|];
    cbn [fst c_commanders c_strategies c_colors];
    rewrite !played_key_fold; repeat split.
Qed.

Lemma visit_entries_dictionaries history : forall acc,
  let acc' := fst (visit_entries acc history) in
  c_commanders acc'
  = fold_left Obj.incr (history_commanders history) (c_commanders acc)
  /\ c_strategies acc'
     = fold_left Obj.incr (history_strategies history) (c_strategies acc)
  /\ c_colors acc'
     = fold_left Obj.incr (history_color_keys history) (c_colors acc).
Proof.
  induction history as [|d rest IH]; intros acc; cbn zeta.
  - repeat split.
  - destruct (visit_entry_dictionaries acc d) as (Hc1 & Hs1 & Hl1).
    cbn [visit_entries].
    destruct (visit_entry acc d) as [acc1 d'].
    cbn [fst] in Hc1, Hs1, Hl1.
    specialize (IH acc1). cbn zeta in IH.
    destruct (visit_entries acc1 rest) as [acc2 rest'].
    cbn [fst] in IH |- *. destruct IH as (-> & -> & ->).
    rewrite Hc1, Hs1, Hl1.
    unfold history_commanders, history_strategies, history_color_keys.
    cbn [flat_map]. rewrite !fold_left_app. repeat split.
Qed.

Lemma analyzeHistory_dictionaries (e : Engine HistoryEntry) :
  let a := fst (analyzeHistory e) in
  RecommendationEngine.commanders a
  = fold_left Obj.incr (history_commanders (userHistory e)) Obj.empty
  /\ strategies a
     = fold_left Obj.incr (history_strategies (userHistory e)) Obj.empty
  /\ colorCounts a
     = fold_left Obj.incr (history_color_keys (userHistory e)) Obj.empty.
Proof.
  cbn zeta.
  pose proof (visit_entries_dictionaries (userHistory e)
                (RecommendationEngine.mkCounts Obj.empty Obj.empty Obj.empty))
    as H.
  cbn zeta in H. unfold analyzeHistory.
  destruct (visit_entries _ (userHistory e)) as [acc history'].
  exact H.
Qed.

Lemma getMostCommon_counts ks (o : Obj.t count) :
  counts_of ks o -> most_common_of (getMostCommon o) ks.
Proof.
  intros H. pose proof (most_frequent_entry ks o H) as Hm.
  unfold getMostCommon. destruct (Nat.eqb (length (Obj.entries o)) 0) eqn:E.
  - apply Nat.eqb_eq, length_zero_iff_nil in E.
    cbn. now apply (tallies_nil ks o (proj1 H)).
  - destruct (sort_desc _ (Obj.entries o)) as [|[k v] rest].
    + exact Hm.
    + exact (proj1 Hm).
Qed.

Lemma analyzeHistory_favourites (e : Engine HistoryEntry) :
  let a := fst (analyzeHistory e) in
  mostPlayedCommander a = getMostCommon (RecommendationEngine.commanders a)
  /\ favoriteStrategy a = getMostCommon (strategies a)
  /\ favoriteColors a = getMostCommon (colorCounts a)
  /\ RecommendationEngine.totalDecks a = length (userHistory e).
Proof.
  cbn zeta. pose proof (analyzeHistory_engine e) as He.
  unfold analyzeHistory in *.
  destruct (visit_entries _ (userHistory e)) as [acc history'].
  cbn [fst snd] in *. repeat split.
  cbn [RecommendationEngine.totalDecks].
  injection He as ->. apply length_map.
Qed.

End History.

(** X15. [analyzeHistory] reports the number of stored decks, and as
    [mostPlayedCommander], [favoriteStrategy] and [favoriteColors] the
    commander, the strategy and the sorted, joined colour array that most
    entries of the history have, each when none of the keys counted for
    it is the name of a property of [Object.prototype] or an array
    index; among several played equally often it then reports the one
    that appears first in the history, and [null] exactly when no entry
    has one. *)
Theorem analyzeHistory_reports_most_played (e : Engine HistoryEntry) :
  let a := fst (analyzeHistory e) in
  let h := userHistory e in
  RecommendationEngine.totalDecks a = length h
  /\ (plain_keys (history_commanders h) ->
      most_common_of (mostPlayedCommander a) (history_commanders h))
  /\ (plain_keys (history_strategies h) ->
      most_common_of (favoriteStrategy a) (history_strategies h))
  /\ (plain_keys (history_color_keys h) ->
      most_common_of (favoriteColors a) (history_color_keys h)).
Proof.
  cbn zeta.
  destruct (analyzeHistory_dictionaries e) as (Hc & Hs & Hl).
  destruct (analyzeHistory_favourites e) as (-> & -> & -> & Hn).
  cbn zeta in *. rewrite Hc, Hs, Hl.
  split; [exact Hn|].
  split; [|split]; intros H; now apply getMostCommon_counts, fold_counts.
Qed.

Lemma analyzeHistory_reports_most_played_witness :
  most_common_of
    (mostPlayedCommander
       (fst (analyzeHistory
               (mkEngine [mkEntry (Some "Atraxa") None None None "t"]))))
    ["Atraxa"].
Proof.
  apply (analyzeHistory_reports_most_played
           (mkEngine [mkEntry (Some "Atraxa") None None None "t"])).
  repeat constructor.
Defined.

(** ** Staples *)

Section Staples.

Lemma card_frequency_fold history : forall o : Obj.t count,
  fold_left
    (fun m deck =>
       match RecommendationEngine.cards deck with
       | Some cs => fold_left (fun m card =>
                                 Obj.incr m (card_ref_name card)) cs m
       | None => m
       end)
    history o
  = fold_left Obj.incr (history_cards history) o.
Proof.
  induction history as [|d rest IH]; intros o; cbn [fold_left].
  - reflexivity.
  - rewrite IH. unfold history_cards. cbn [flat_map].
    rewrite fold_left_app. f_equal. unfold card_names_of.
    destruct (RecommendationEngine.cards d) as [cs|]; [|reflexivity].
    apply fold_incr_map.
Qed.

Lemma more_than_once_iff (en : string * count) k n :
  more_than_once en = Some (k, n) <-> en = (k, Num n) /\ 2 <= n.
Proof.
  destruct en as [k' [m|origin suffix]]; unfold more_than_once; cbn [fst snd].
  - destruct (1 <? m) eqn:E.
    + apply Z.ltb_lt in E. split.
      * intros [= -> ->]. split; [reflexivity | lia].
      * now intros [[= -> ->] _].
    + apply Z.ltb_ge in E. split; [discriminate|].
      intros [[= -> ->] H]. lia.
  - split; [discriminate | now intros [? _]].
Qed.

Lemma NoDup_map_omap {X Y} (g : string * X -> option (string * Y))
    (l : list (string * X)) :
  (forall e r, g e = Some r -> fst r = fst e) ->
  NoDup (map fst l) -> NoDup (map fst (omap g l)).
Proof.
  intros Hg. induction l as [|x l IH]; intros H; [exact H|].
  cbn [map] in H. apply NoDup_cons in H as [Hx Hl].
  cbn [omap list_omap]. destruct (g x) as [r|] eqn:E; [|now apply IH].
  cbn [map]. apply NoDup_cons. split; [|now apply IH].
  rewrite (Hg x r E). intros Hin. apply Hx.
  apply elem_of_map in Hin as (r' & Hr' & Hin).
  apply list_elem_of_omap in Hin as (y & Hy & Ey).
  apply elem_of_map. exists y. split; [|exact Hy].
  now rewrite Hr', (Hg y r' Ey).
Qed.

End Staples.

(** X16. When no card name of the history is the name of a property of
    [Object.prototype], [identifyStaples] lists exactly the card names
    that occur at least twice over all the card lists of the history
    (two occurrences in the list of one deck count as well), each once,
    with the number of its occurrences, in descending order of that
    number. *)
Theorem identifyStaples_characterised (e : Engine HistoryEntry) :
  let names := history_cards (userHistory e) in
  let staples := identifyStaples e in
  not_inherited names ->
  (forall n c, mkStaple n c ∈ staples
               <-> n ∈ names /\ c = occurrences n names /\ 2 <= c)
  /\ NoDup (map staple_name staples)
  /\ descending appearances staples.
Proof.
  cbn zeta. intros Hplain. unfold identifyStaples.
  rewrite card_frequency_fold.
  pose proof (fold_tallies _ Hplain) as H.
  set (o := fold_left Obj.incr _ Obj.empty) in *.
  set (number := fun en : string * Z => Some (snd en)).
  pose proof (sort_desc_perm number (omap more_than_once (Obj.entries o)))
    as Hperm.
  split; [|split].
  - intros n c. rewrite elem_of_map. split.
    + intros ([k v] & [= -> ->] & Hin). rewrite Hperm in Hin.
      apply list_elem_of_omap in Hin as (en & Hin & Hen).
      apply more_than_once_iff in Hen as [-> Hc].
      apply (tallies_entry _ o k _ H) in Hin as [Hk [= Hv]].
      repeat split; [exact Hk | exact Hv | exact Hc].
    + intros (Hn & -> & Hc).
      exists (n, occurrences n (history_cards (userHistory e))).
      split; [reflexivity|]. rewrite Hperm.
      apply list_elem_of_omap. exists (n, Num (occurrences n (history_cards
                                                      (userHistory e)))).
      split.
      * apply (tallies_entry _ o n _ H). now split.
      * now apply more_than_once_iff.
  - rewrite map_map.
    replace (map (fun x : string * Z => staple_name (mkStaple x.1 x.2)))
      with (map (@fst string Z)) by reflexivity.
    assert (Hp : map fst (sort_desc number
                            (omap more_than_once (Obj.entries o)))
                 ≡ₚ map fst (omap more_than_once (Obj.entries o)))
      by now apply Permutation_map.
    rewrite Hp. apply (NoDup_map_omap more_than_once).
    + intros [k v] [k' n] Hr. now apply more_than_once_iff in Hr as [[= -> _] _].
    + now destruct H as (Hnd & _).
  - apply (descending_map snd _ appearances); [reflexivity|].
    apply (sort_desc_descending number snd). reflexivity.
Qed.

Lemma identifyStaples_characterised_witness :
  (forall n c,
      mkStaple n c
        ∈ identifyStaples
            (mkEngine [mkEntry None None None
                         (Some [CardString "Sol Ring"; CardString "Sol Ring"])
                         "t"])
      <-> n ∈ ["Sol Ring"; "Sol Ring"]
          /\ c = occurrences n ["Sol Ring"; "Sol Ring"] /\ 2 <= c)
  /\ NoDup (map staple_name
              (identifyStaples
                 (mkEngine
                    [mkEntry None None None
                       (Some [CardString "Sol Ring"; CardString "Sol Ring"])
                         "t"])))
  /\ descending appearances
       (identifyStaples
          (mkEngine [mkEntry None None None
                       (Some [CardString "Sol Ring"; CardString "Sol Ring"])
                         "t"])).
Proof.
  apply (identifyStaples_characterised
           (mkEngine [mkEntry None None None
                        (Some [CardString "Sol Ring"; CardString "Sol Ring"])
                         "t"])).
  repeat constructor.
Defined.

(** ** Gaps *)

Section Gaps.

Lemma allColors_not_proto :
  Forall (fun c => c ∉ split_chars "__proto__") allColors.
Proof.
  apply (bool_decide_unpack
           (Forall (fun c => c ∉ split_chars "__proto__") allColors)).
  vm_compute. exact I.
Qed.

Lemma commonStrategies_not_proto :
  Forall (fun s => s <> "__proto__") commonStrategies.
Proof.
  apply (bool_decide_unpack
           (Forall (fun s => s <> "__proto__") commonStrategies)).
  vm_compute. exact I.
Qed.

Lemma add_chars_elem l : forall (played : gset string) c,
  c ∈ fold_left (fun played c => {[c]} ∪ played) l played
  <-> c ∈ l \/ c ∈ played.
Proof.
  induction l as [|x l IH]; intros played c; cbn [fold_left].
  - split; [auto | intros [H|H]; [now apply elem_of_nil in H | exact H]].
  - rewrite IH, elem_of_union, elem_of_singleton, elem_of_cons. tauto.
Qed.

Lemma playedColors_from_elem keys : forall (played : gset string) c,
  c ∈ fold_left
        (fun played colorCombo =>
           fold_left (fun played c => {[c]} ∪ played)
                     (split_chars colorCombo) played)
        keys played
  <-> (exists key, key ∈ keys /\ c ∈ split_chars key) \/ c ∈ played.
Proof.
  induction keys as [|k keys IH]; intros played c; cbn [fold_left].
  - split; [auto | intros [(key & H & _)|H]; [now apply elem_of_nil in H|auto]].
  - rewrite IH, add_chars_elem. split.
    + intros [(key & Hk & Hc)|[H|H]]; [left|left|now right].
      * exists key. split; [now right | exact Hc].
      * exists k. split; [now left | exact H].
    + intros [(key & Hk & Hc)|H]; [|auto].
      apply elem_of_cons in Hk as [->|Hk]; [auto|].
      left. now exists key.
Qed.

Lemma playedColors_elem keys c :
  c ∈ playedColors keys <-> exists key, key ∈ keys /\ c ∈ split_chars key.
Proof.
  unfold playedColors. rewrite playedColors_from_elem. split.
  - intros [H|H]; [exact H | now apply elem_of_empty in H].
  - auto.
Qed.

Lemma split_chars_app a b :
  split_chars (a +:+ b) = split_chars a ++ split_chars b.
Proof.
  induction a as [|c a IH]; [reflexivity|].
  change (String c a +:+ b) with (String c (a +:+ b)).
  cbn [split_chars app]. now rewrite IH.
Qed.

Lemma split_chars_join l c :
  c ∈ split_chars (join "" l) <-> exists s, s ∈ l /\ c ∈ split_chars s.
Proof.
  unfold join. induction l as [|x l IH].
  - cbn. split; [intros H; now apply elem_of_nil in H|].
    intros (s & H & _). now apply elem_of_nil in H.
  - assert (E : String.concat "" (x :: l) = x +:+ String.concat "" l).
    { destruct l as [|y l']; [|reflexivity].
      change (String.concat "" [x]) with x.
      change (String.concat "" []) with "".
      clear. induction x as [|c x IH]; [reflexivity|].
      change (String c x +:+ "") with (String c (x +:+ "")).
      now rewrite <- IH. }
    rewrite E, split_chars_app, elem_of_app, IH. split.
    + intros [H|(s & Hs & Hc)].
      * exists x. split; [now left | exact H].
      * exists s. split; [now right | exact Hc].
    + intros (s & Hs & Hc). apply elem_of_cons in Hs as [->|Hs]; [auto|].
      right. now exists s.
Qed.

Lemma insert_string_perm x l : insert_string x l ≡ₚ x :: l.
Proof.
  induction l as [|y l IH]; [reflexivity|]. cbn [insert_string].
  destruct (String.leb x y); [reflexivity|].
  rewrite IH. apply perm_swap.
Qed.

Lemma sort_strings_perm l : sort_strings l ≡ₚ l.
Proof.
  induction l as [|x l IH]; [reflexivity|].
  change (sort_strings (x :: l)) with (insert_string x (sort_strings l)).
  now rewrite insert_string_perm, IH.
Qed.

Lemma elem_of_flat_map {X Y} (f : X -> list Y) (l : list X) (y : Y) :
  y ∈ flat_map f l <-> exists x, x ∈ l /\ y ∈ f x.
Proof.
  rewrite list_elem_of_In, in_flat_map. split.
  - intros (x & Hx & Hy). exists x. now rewrite !list_elem_of_In.
  - intros (x & Hx & Hy). exists x. now rewrite <- !list_elem_of_In.
Qed.

(** A colour letter is in the set [playedColors] built from the colour
    dictionary exactly when it occurs in a colour array of the history. *)
Lemma played_color_played (e : Engine HistoryEntry) c :
  c ∈ allColors ->
  c ∈ playedColors (Obj.keys (colorCounts (fst (analyzeHistory e))))
  <-> color_played c (userHistory e).
Proof.
  intros Hcolor.
  destruct (analyzeHistory_dictionaries e) as (_ & _ & Hl). cbn zeta in Hl.
  rewrite Hl, playedColors_elem. unfold color_played. split.
  - intros (key & Hkey & Hc).
    apply fold_keys in Hkey as [Hkey _].
    apply elem_of_flat_map in Hkey as (d & Hd & Hkey).
    unfold color_key_of in Hkey.
    destruct (RecommendationEngine.colors d) as [cs|] eqn:E;
      [|now apply elem_of_nil in Hkey].
    apply list_elem_of_singleton in Hkey as ->.
    apply split_chars_join in Hc as (s & Hs & Hc).
    rewrite sort_strings_perm in Hs. now exists d, cs, s.
  - intros (d & cs & s & Hd & E & Hs & Hc).
    assert (Hkey : c ∈ split_chars (join "" (sort_strings cs))).
    { apply split_chars_join. exists s. split; [|exact Hc].
      now rewrite sort_strings_perm. }
    exists (join "" (sort_strings cs)). split; [|exact Hkey].
    apply fold_keys. split.
    + apply elem_of_flat_map.
      exists d. split; [exact Hd|]. unfold color_key_of. rewrite E.
      now apply list_elem_of_singleton.
    + intros Eq. rewrite Eq in Hkey.
      pose proof allColors_not_proto as Hno.
      rewrite Forall_forall in Hno. exact (Hno c Hcolor Hkey).
Qed.

Lemma filter_nil_iff {X} (P : X -> bool) (l : list X) :
  List.filter P l = [] <-> forall x, x ∈ l -> P x = false.
Proof.
  induction l as [|y l IH]; cbn [List.filter].
  - split; [intros _ x H; now apply elem_of_nil in H | reflexivity].
  - destruct (P y) eqn:E.
    + split; [discriminate|]. intros H.
      rewrite (H y) in E by now left. discriminate.
    + rewrite IH. split.
      * intros H x Hx. apply elem_of_cons in Hx as [->|Hx]; auto.
      * intros H x Hx. apply H. now right.
Qed.

Lemma identifyGaps_nil {P : Type} (pa : P) (e : Engine HistoryEntry) :
  fst (identifyGaps pa e) = [] <-> everything_played (userHistory e).
Proof.
  destruct (analyzeHistory_dictionaries e) as (_ & Hs & _). cbn zeta in Hs.
  pose proof (played_color_played e) as Hplayed.
  unfold identifyGaps, everything_played.
  destruct (analyzeHistory e) as [history e']. cbn [fst] in *.
  set (unplayedColors := List.filter _ allColors).
  set (unplayedStrategies := List.filter _ commonStrategies).
  assert (Hc : unplayedColors = []
               <-> forall c, c ∈ allColors -> color_played c (userHistory e)).
  { unfold unplayedColors. rewrite filter_nil_iff. split.
    - intros H c Hin. apply (Hplayed c Hin). specialize (H c Hin).
      apply negb_false_iff in H. now apply bool_decide_eq_true in H.
    - intros H c Hin. apply negb_false_iff, bool_decide_eq_true.
      apply (Hplayed c Hin). now apply H. }
  assert (Hst : unplayedStrategies = []
                <-> forall s, s ∈ commonStrategies
                              -> s ∈ history_strategies (userHistory e)).
  { unfold unplayedStrategies. rewrite filter_nil_iff, Hs. split.
    - intros H s Hin. specialize (H s Hin).
      apply negb_false_iff, list_includes_elem_of in H.
      now apply fold_keys in H as [H _].
    - intros H s Hin. apply negb_false_iff, list_includes_elem_of.
      apply fold_keys. split; [now apply H|].
      pose proof commonStrategies_not_proto as Hno.
      rewrite Forall_forall in Hno. now apply Hno. }
  cbn [fst]. rewrite <- Hc, <- Hst.
  destruct unplayedColors, unplayedStrategies; cbn [app];
    split; try discriminate; try (intros [? ?]; discriminate); auto.
Qed.

Lemma history_strategies_length h :
  (length (history_strategies h) <= length h)%nat.
Proof.
  unfold history_strategies. induction h as [|d h IH]; [reflexivity|].
  cbn [flat_map]. rewrite length_app. cbn [length].
  assert (H1 : (length (played_key (strategy d)) <= 1)%nat).
  { unfold played_key. destruct (strategy d) as [s|]; [|cbn; lia].
    destruct (truthy_string s); cbn; lia. }
  lia.
Qed.

Lemma everything_played_nine h :
  everything_played h -> (9 <= length h)%nat.
Proof.
  intros [_ H].
  assert (Hnd : NoDup commonStrategies)
    by (apply (bool_decide_unpack (NoDup commonStrategies));
        vm_compute; exact I).
  pose proof (submseteq_length _ _ (NoDup_submseteq _ _ Hnd H)) as Hlen.
  pose proof (history_strategies_length h).
  change (length commonStrategies) with 9%nat in Hlen. lia.
Qed.

End Gaps.

(** X17. [identifyGaps] returns no gap exactly when every one of the
    five colour letters occurs in a colour array of the history and every
    one of the nine common strategies is the strategy of an entry; it
    never returns more than two gaps, and with fewer than nine decks in
    the history it always returns one. *)
Theorem identifyGaps_empty_iff_everything_played
    {P : Type} (profileAnalysis : P) (e : Engine HistoryEntry) :
  let gaps := fst (identifyGaps profileAnalysis e) in
  (gaps = [] <-> everything_played (userHistory e))
  /\ (length gaps <= 2)%nat
  /\ ((length (userHistory e) < 9)%nat -> gaps <> []).
Proof.
  cbn zeta. split; [apply identifyGaps_nil|]. split.
  - unfold identifyGaps. destruct (analyzeHistory e) as [history e'].
    cbn [fst]. rewrite length_app.
    destruct (List.filter _ allColors), (List.filter _ commonStrategies);
      cbn [length]; lia.
  - intros Hlen Hnil. apply identifyGaps_nil, everything_played_nine in Hnil.
    lia.
Qed.

Lemma identifyGaps_empty_iff_everything_played_witness :
  fst (identifyGaps (VObj []) (mkEngine [])) <> [].
Proof.
  apply (identifyGaps_empty_iff_everything_played (VObj []) (mkEngine [])).
  cbn. lia.
Defined.

(** X18. [suggestNewArchetype] falls back to its fixed suggestion exactly
    when every colour letter and every common strategy has been played;
    otherwise it passes on the first gap. With fewer than nine decks in
    the history it never falls back. The call leaves the engine as
    [analyzeHistory] does. *)
Theorem suggestNewArchetype_fallback (e : Engine HistoryEntry) :
  (fst (suggestNewArchetype e) = fallback_archetype
   <-> everything_played (userHistory e))
  /\ (match fst (identifyGaps (VObj []) e) with
      | gap :: _ => fst (suggestNewArchetype e)
                    = mkArchetype (suggestion gap) (description gap)
      | [] => fst (suggestNewArchetype e) = fallback_archetype
      end)
  /\ ((length (userHistory e) < 9)%nat ->
      fst (suggestNewArchetype e) <> fallback_archetype)
  /\ snd (suggestNewArchetype e) = snd (analyzeHistory e).
Proof.
  pose proof (identifyGaps_nil (VObj []) e) as Hnil.
  pose proof (identifyGaps_again (VObj []) (VObj []) e) as Hagain.
  pose proof (identifyGaps_engine (VObj []) e) as Heng.
  assert (Hs : suggestNewArchetype e
               = (match fst (identifyGaps (VObj []) e) with
                  | gap :: _ => mkArchetype (suggestion gap) (description gap)
                  | [] => fallback_archetype
                  end, snd (analyzeHistory e))).
  { rewrite Heng in Hagain. unfold suggestNewArchetype.
    destruct (analyzeHistory e) as [history e1] eqn:Ea.
    cbn [snd] in Hagain, Heng |- *.
    rewrite Hagain.
    destruct (identifyGaps (VObj []) e) as [gaps e2].
    cbn [fst snd] in Heng |- *. now subst e2. }
  assert (Hne : forall gap gaps,
            fst (identifyGaps (VObj []) e) = gap :: gaps ->
            mkArchetype (suggestion gap) (description gap)
            <> fallback_archetype).
  { intros gap gaps Hg. unfold identifyGaps in Hg.
    destruct (analyzeHistory e) as [history e']. cbn [fst] in Hg.
    destruct (List.filter _ allColors) as [|c cs];
      destruct (List.filter _ commonStrategies) as [|st sts];
      cbn [app] in Hg; try discriminate Hg;
      injection Hg as <- _; cbn [suggestion description];
      intros [= H _]; vm_compute in H; discriminate H. }
  rewrite Hs. cbn [fst snd].
  split; [|split; [|split; [|reflexivity]]].
  - rewrite <- Hnil.
    destruct (fst (identifyGaps (VObj []) e)) as [|gap gaps] eqn:Eg.
    + split; reflexivity.
    + split; [|discriminate]. intros H. now apply (Hne gap gaps) in H.
  - now destruct (fst (identifyGaps (VObj []) e)).
  - intros Hlen.
    destruct (fst (identifyGaps (VObj []) e)) as [|gap gaps] eqn:Eg.
    + pose proof (everything_played_nine _ (proj1 Hnil eq_refl)). lia.
    + now apply (Hne gap gaps).
Qed.

Lemma suggestNewArchetype_fallback_witness :
  fst (suggestNewArchetype (mkEngine [])) <> fallback_archetype.
Proof.
  apply (suggestNewArchetype_fallback (mkEngine [])). cbn. lia.
Defined.

(** ** The recommendations of the engine *)

Section EngineRecommendations.

Lemma identifyStaples_sort_entry_colors (h : list HistoryEntry) :
  identifyStaples (mkEngine (map sort_entry_colors h))
  = identifyStaples (mkEngine h).
Proof.
  unfold identifyStaples. cbn [userHistory].
  rewrite !card_frequency_fold. do 5 f_equal.
  unfold history_cards. induction h as [|d h IH]; [reflexivity|].
  cbn [map flat_map]. rewrite IH. now destruct d as [? ? [?|] ? ?].
Qed.

Lemma identifyGaps_after_analysis {P : Type} (pa : P)
    (e : Engine HistoryEntry) :
  identifyGaps pa (snd (analyzeHistory e)) = identifyGaps pa e.
Proof.
  rewrite <- (identifyGaps_engine pa e). apply identifyGaps_again.
Qed.

Lemma generateRecommendations_unfold {P : Type} (options : RecOptions P)
    (e : Engine HistoryEntry) :
  generateRecommendations options e
  = let history := fst (analyzeHistory e) in
    let staples := identifyStaples e in
    let gaps := fst (identifyGaps (VObj []) e) in
    (mkRecommendations
       ((match value_truthy (favoriteStrategy history) with
         | Some fs =>
             ["Continue exploring " +:+ fs +:+ " - you've built "
              +:+ show_count (strategies history) fs
              +:+ " decks in this style"]
         | None => []
         end)
        ++ (match value_truthy (favoriteColors history) with
            | Some fc =>
                ["Try new commanders in your favorite colors: " +:+ fc]
            | None => []
            end))
       (map suggestion gaps) []
       (if (0 <? length staples)%nat then
          ["You frequently use these cards: "
           +:+ join ", " (map staple_name (take 3 staples));
           "Consider acquiring premium versions or finding alternatives"]
        else []),
     snd (analyzeHistory e)).
Proof.
  pose proof (identifyGaps_after_analysis (VObj []) e) as Hgaps.
  pose proof (identifyGaps_engine (VObj []) e) as Heng.
  pose proof (analyzeHistory_engine e) as He1.
  unfold generateRecommendations.
  destruct (analyzeHistory e) as [history e1]. cbn [fst snd] in *.
  assert (Hg : match profileAnalysis options with
               | Some pa => identifyGaps pa e1
               | None => identifyGaps (VObj []) e1
               end = identifyGaps (VObj []) e)
    by (destruct (profileAnalysis options); exact Hgaps).
  rewrite Hg. subst e1. rewrite !He1, identifyStaples_sort_entry_colors.
  destruct e as [h]. cbn [userHistory] in *.
  destruct (identifyGaps (VObj []) (mkEngine h)) as [gaps e2].
  cbn [fst snd] in *. now subst e2.
Qed.

Lemma history_strategies_truthy h k :
  k ∈ history_strategies h -> truthy_string k = true.
Proof.
  unfold history_strategies. rewrite elem_of_flat_map.
  intros (d & _ & Hk). unfold played_key in Hk.
  destruct (strategy d) as [s|]; [|now apply elem_of_nil in Hk].
  destruct (truthy_string s) eqn:E; [|now apply elem_of_nil in Hk].
  now apply list_elem_of_singleton in Hk as ->.
Qed.

Lemma first_most_frequent_elem_of k ks : first_most_frequent k ks -> k ∈ ks.
Proof.
  intros (before & after & Hs & _). apply elem_of_set_elements.
  rewrite Hs. apply elem_of_app. right. left.
Qed.

End EngineRecommendations.

(** X19. The four lists of [generateRecommendations]: [budgetOptions] is
    always empty; [exploreNew] is the suggestions of the gaps
    [identifyGaps] finds on the engine as it was given; [upgrades] has
    two lines when [identifyStaples] finds a staple and none otherwise;
    [buildOnStrengths] has at most two lines. The call leaves the engine
    as [analyzeHistory] does. *)
Theorem generateRecommendations_lists {P : Type} (options : RecOptions P)
    (e : Engine HistoryEntry) :
  let r := fst (generateRecommendations options e) in
  budgetOptions r = []
  /\ exploreNew r = map suggestion (fst (identifyGaps (VObj []) e))
  /\ length (upgrades r)
     = match identifyStaples e with [] => 0%nat | _ :: _ => 2%nat end
  /\ (length (buildOnStrengths r) <= 2)%nat
  /\ snd (generateRecommendations options e) = snd (analyzeHistory e).
Proof.
  cbn zeta. rewrite generateRecommendations_unfold. cbn zeta.
  cbn [fst snd budgetOptions exploreNew upgrades buildOnStrengths].
  repeat split.
  - now destruct (identifyStaples e).
  - rewrite length_app.
    destruct (value_truthy (favoriteStrategy _)),
             (value_truthy (favoriteColors _)); cbn [length]; lia.
Qed.

(** X20. When some entry of the history has a strategy, and no
    strategy of the history is the name of a property of
    [Object.prototype] or an array index, the first line of
    [buildOnStrengths] names the strategy most entries have (the first of
    them in the history among equals) and the number it states is the
    number of entries with that strategy. *)
Theorem generateRecommendations_strategy_line {P : Type}
    (options : RecOptions P) (e : Engine HistoryEntry) :
  history_strategies (userHistory e) <> [] ->
  plain_keys (history_strategies (userHistory e)) ->
  exists k,
    first_most_frequent k (history_strategies (userHistory e))
    /\ head (buildOnStrengths (fst (generateRecommendations options e)))
       = Some ("Continue exploring " +:+ k +:+ " - you've built "
               +:+ pretty (occurrences k (history_strategies (userHistory e)))
               +:+ " decks in this style").
Proof.
  intros Hne Hplain. rewrite generateRecommendations_unfold. cbn zeta.
  cbn [fst buildOnStrengths].
  destruct (analyzeHistory_dictionaries e) as (_ & Hs & _). cbn zeta in Hs.
  destruct (analyzeHistory_favourites e) as (_ & -> & _).
  pose proof (fold_counts _ Hplain) as Hc. rewrite <- Hs in Hc.
  pose proof (getMostCommon_counts _ _ Hc) as Hm.
  destruct (getMostCommon (strategies (fst (analyzeHistory e))))
    as [| | |k| |]; cbn [most_common_of] in Hm; try contradiction.
  exists k. split; [exact Hm|].
  pose proof (first_most_frequent_elem_of _ _ Hm) as Hk.
  cbn [value_truthy]. rewrite (history_strategies_truthy _ _ Hk).
  destruct Hc as ((_ & Hown) & _). unfold show_count, Obj.get.
  rewrite Hown. apply list_includes_elem_of in Hk. rewrite Hk. reflexivity.
Qed.

Lemma generateRecommendations_strategy_line_witness :
  exists k,
    first_most_frequent k
      (history_strategies
         [mkEntry None (Some "aggro") None None "t1";
          mkEntry None (Some "combo") None None "t2";
          mkEntry None (Some "combo") None None "t3"])
    /\ head (buildOnStrengths
               (fst (generateRecommendations
                       (mkRecOptions value None)
                       (mkEngine
                          [mkEntry None (Some "aggro") None None "t1";
                           mkEntry None (Some "combo") None None "t2";
                           mkEntry None (Some "combo") None None "t3"]))))
       = Some ("Continue exploring " +:+ k +:+ " - you've built "
               +:+ pretty
                     (occurrences k
                        (history_strategies
                           [mkEntry None (Some "aggro") None None "t1";
                            mkEntry None (Some "combo") None None "t2";
                            mkEntry None (Some "combo") None None "t3"]))
               +:+ " decks in this style").
Proof.
  apply (generateRecommendations_strategy_line
           (mkRecOptions value None)
           (mkEngine
              [mkEntry None (Some "aggro") None None "t1";
               mkEntry None (Some "combo") None None "t2";
               mkEntry None (Some "combo") None None "t3"])).
  - discriminate.
  - repeat constructor.
Defined.

(** ** Searching the knowledge base *)

Section Searches.

Lemma matches_cases p query k :
  matches p query k
  = if unreadable p k then Throws type_error
    else Returns (property_contains p query k).
Proof.
  unfold matches, property, unreadable, property_contains.
  destruct k as [|b|n|s|items|fields]; try reflexivity.
  cbn [ebind].
  destruct (Obj.own fields p) as [[|[]|n|s|items|fs]|];
    cbn [truthy lower_of ebind]; try reflexivity.
  now destruct (truthy_string s).
Qed.

Lemma filter_except_matches p query kb :
  filter_except (matches p query) kb
  = if existsb (unreadable p) kb then Throws type_error
    else Returns (List.filter (property_contains p query) kb).
Proof.
  induction kb as [|k kb IH]; [reflexivity|].
  cbn [filter_except existsb List.filter]. rewrite matches_cases, IH.
  destruct (unreadable p k); [reflexivity|]. cbn [ebind orb].
  destruct (existsb (unreadable p) kb); reflexivity.
Qed.

End Searches.

(** X21. [searchByCommander] and [searchByStrategy] raise a TypeError
    exactly when the knowledge base holds an entry that is [null], or
    whose property is truthy and not a string; otherwise they return, in
    the order of the knowledge base, the entries that are objects whose
    property is a non-empty string containing the query, ignoring case.
    Since [importKnowledge] stores any array, a search after an import
    can raise. *)
Theorem searches_characterised (query : string) (l : Learner) :
  searchByCommander query l
  = (if existsb (unreadable "commander") (knowledgeBase l)
     then Throws type_error
     else Returns (List.filter (property_contains "commander" query)
                               (knowledgeBase l)))
  /\ searchByStrategy query l
     = (if existsb (unreadable "strategy") (knowledgeBase l)
        then Throws type_error
        else Returns (List.filter (property_contains "strategy" query)
                                  (knowledgeBase l)))
  /\ forall items l',
       importKnowledge (Returns (VArr items)) l = Returns l' ->
       VNull ∈ items ->
       raises (searchByCommander query l')
       /\ raises (searchByStrategy query l').
Proof.
  split; [apply filter_except_matches|].
  split; [apply filter_except_matches|].
  intros items l' [= <-] Hin.
  unfold searchByCommander, searchByStrategy.
  rewrite !filter_except_matches. cbn [knowledgeBase].
  assert (H : forall p, existsb (unreadable p) items = true).
  { intros p. apply existsb_exists. exists VNull.
    split; [now apply list_elem_of_In | reflexivity]. }
  now rewrite !H.
Qed.

Lemma searches_characterised_witness :
  raises (searchByCommander "atraxa" (mkLearner [VNull]))
  /\ raises (searchByStrategy "atraxa" (mkLearner [VNull])).
Proof.
  apply (proj2 (proj2 (searches_characterised "atraxa" (mkLearner [])))
           [VNull] (mkLearner [VNull]));
    [reflexivity | left].
Defined.

(** ** Profiles *)

Section Profiles.

Lemma NoDup_list_filter {X} (P : X -> bool) (l : list X) :
  NoDup l -> NoDup (List.filter P l).
Proof.
  induction l as [|x l IH]; intros H; [exact H|].
  apply NoDup_cons in H as [Hx Hl]. cbn [List.filter].
  destruct (P x); [|now apply IH].
  apply NoDup_cons. split; [|now apply IH].
  intros Hin. apply Hx.
  apply list_elem_of_In, filter_In in Hin as [Hin _].
  now apply list_elem_of_In.
Qed.

Lemma elem_of_sharedCommanders p1 p2 c :
  c ∈ ProfileAnalyzer.sharedCommanders p1 p2
  <-> c ∈ ProfileAnalyzer.commander_names p1
      /\ c ∈ ProfileAnalyzer.commander_names p2.
Proof.
  unfold ProfileAnalyzer.sharedCommanders.
  rewrite list_elem_of_In, filter_In, <- list_elem_of_In.
  now rewrite elem_of_set_elements, list_includes_elem_of.
Qed.

Lemma similarities_nil p1 p2 :
  ProfileAnalyzer.similarities (ProfileAnalyzer.compareProfiles p1 p2) = []
  <-> forall c, c ∈ ProfileAnalyzer.commander_names p1 ->
                c ∉ ProfileAnalyzer.commander_names p2.
Proof.
  unfold ProfileAnalyzer.compareProfiles.
  cbn [ProfileAnalyzer.similarities].
  pose proof (elem_of_sharedCommanders p1 p2) as Hshared.
  destruct (ProfileAnalyzer.sharedCommanders p1 p2) as [|c0 shared].
  - split; [|reflexivity]. intros _ c H1 H2.
    assert (H : c ∈ @nil string) by now apply Hshared.
    now apply elem_of_nil in H.
  - split; [discriminate|]. intros H. exfalso.
    assert (H0 : c0 ∈ c0 :: shared) by left.
    apply Hshared in H0 as [H1 H2]. now apply (H c0).
Qed.

End Profiles.

(** X22. [compareProfiles] reports a similarity exactly when some
    commander name is among the top commanders of both profiles, and then
    a single line; the shared names it lists are the names common to both
    profiles, each once; whether a similarity is reported does not depend
    on the order of the two profiles; [differences] is always empty. *)
Theorem compareProfiles_shared_commanders
    (profile1 profile2 : ProfileAnalyzer.Profile) :
  let r := ProfileAnalyzer.compareProfiles profile1 profile2 in
  ProfileAnalyzer.differences r = []
  /\ (ProfileAnalyzer.similarities r = []
      <-> forall c, c ∈ ProfileAnalyzer.commander_names profile1 ->
                    c ∉ ProfileAnalyzer.commander_names profile2)
  /\ (length (ProfileAnalyzer.similarities r) <= 1)%nat
  /\ (forall c, c ∈ ProfileAnalyzer.sharedCommanders profile1 profile2
                <-> c ∈ ProfileAnalyzer.commander_names profile1
                    /\ c ∈ ProfileAnalyzer.commander_names profile2)
  /\ NoDup (ProfileAnalyzer.sharedCommanders profile1 profile2)
  /\ (ProfileAnalyzer.similarities r = []
      <-> ProfileAnalyzer.similarities
            (ProfileAnalyzer.compareProfiles profile2 profile1) = []).
Proof.
  cbn zeta. split; [reflexivity|].
  split; [apply similarities_nil|]. split; [|split; [|split]].
  - unfold ProfileAnalyzer.compareProfiles.
    cbn [ProfileAnalyzer.similarities].
    destruct (0 <? length _)%nat; cbn [length]; lia.
  - apply elem_of_sharedCommanders.
  - apply NoDup_list_filter, NoDup_set_elements_from.
  - rewrite !similarities_nil. split; intros H c H1 H2; now apply (H c).
Qed.

(** X23. The insights drawn from the patterns of a user's decks: there
    are none for an empty array of decks; otherwise, when no format of
    the decks is the name of a property of [Object.prototype] or an array
    index, the first insight names as primary format the format most
    decks have (the first of them in the array among equals); there are
    never more than four. *)
Theorem generateInsights_of_deck_patterns
    (getColorName : string -> string) (decks : list MoxfieldAPI.Deck) :
  let insights :=
    ProfileAnalyzer.generateInsights
      getColorName (fst (MoxfieldAPI.analyzeUserPatterns decks)) in
  (length insights <= 4)%nat
  /\ match decks with
     | [] => insights = []
     | _ :: _ =>
         plain_keys (format_keys decks) ->
         exists f, first_most_frequent f (format_keys decks)
                   /\ head insights = Some ("Primary format: " +:+ f)
     end.
Proof.
  cbn zeta. split.
  - unfold ProfileAnalyzer.generateInsights. rewrite !length_app.
    destruct (MoxfieldAPI.favoriteFormat _) as [f|];
      [destruct (truthy_string f)|];
      destruct (MoxfieldAPI.topCommanders _) as [|c cs];
      try destruct (1 <? length (c :: cs))%nat;
      destruct (MoxfieldAPI.topColorCombos _); cbn [length]; lia.
  - destruct decks as [|d decks]; [reflexivity|]. intros Hplain.
    pose proof (favoriteFormat_key (d :: decks) Hplain) as Hf.
    unfold ProfileAnalyzer.generateInsights.
    destruct (MoxfieldAPI.favoriteFormat _) as [f|]; [|discriminate Hf].
    exists f. split; [exact Hf|].
    assert (Ht : truthy_string f = true).
    { apply first_most_frequent_elem_of in Hf.
      unfold format_keys in Hf. apply elem_of_map in Hf as (d' & -> & _).
      unfold MoxfieldAPI.or_default.
      destruct (MoxfieldAPI.format d') as [s|]; [|reflexivity].
      now destruct (truthy_string s) eqn:E. }
    now rewrite Ht.
Qed.

Lemma generateInsights_of_deck_patterns_witness :
  exists f,
    first_most_frequent f
      (format_keys [MoxfieldAPI.mkDeck (Some "pauper") None None None])
    /\ head (ProfileAnalyzer.generateInsights
               id
               (fst (MoxfieldAPI.analyzeUserPatterns
                       [MoxfieldAPI.mkDeck (Some "pauper") None None None])))
       = Some ("Primary format: " +:+ f).
Proof.
  apply (generateInsights_of_deck_patterns
           id [MoxfieldAPI.mkDeck (Some "pauper") None None None]).
  repeat constructor.
Defined.

(** X24. The recommendations drawn from the patterns always end with the
    same two lines; one line comes before them exactly when there is a
    colour combination and one of the five colour letters occurs in none
    of the combinations listed. *)
Theorem profile_recommendations_shape
    (getColorName : string -> string) (patterns : MoxfieldAPI.Patterns) :
  let recs := ProfileAnalyzer.generateRecommendations getColorName patterns in
  let combos := MoxfieldAPI.topColorCombos patterns in
  exists before,
    recs = before
           ++ ["Consider exploring different archetypes to expand your deck building skills";
               "Build decks at different power levels for various playgroups"]
    /\ (length before <= 1)%nat
    /\ (before <> []
        <-> combos <> []
            /\ exists c, c ∈ allColors
                         /\ forall combo, combo ∈ combos ->
                              c ∉ split_chars (MoxfieldAPI.rk_colors combo)).
Proof.
  cbn zeta. unfold ProfileAnalyzer.generateRecommendations.
  eexists. split; [reflexivity|].
  destruct (MoxfieldAPI.topColorCombos patterns) as [|combo0 combos] eqn:Ec.
  - cbn. split; [lia|]. split; [congruence | now intros [H _]].
  - replace (0 <? length (combo0 :: combos))%nat with true by reflexivity.
    set (played := playedColors _).
    assert (Hplayed : forall c,
              c ∈ played
              <-> exists combo, combo ∈ combo0 :: combos
                                /\ c ∈ split_chars (MoxfieldAPI.rk_colors combo)).
    { intros c. unfold played. rewrite playedColors_elem. split.
      - intros (key & Hk & Hc). apply elem_of_map in Hk as (combo & -> & Hk).
        now exists combo.
      - intros (combo & Hk & Hc). exists (MoxfieldAPI.rk_colors combo).
        split; [|exact Hc]. apply elem_of_map. now exists combo. }
    destruct (List.filter (fun c => negb (bool_decide (c ∈ played)))
                          allColors) as [|c cs] eqn:Ef.
    + cbn. split; [lia|]. split; [congruence|].
      intros (_ & c & Hin & Hout). exfalso.
      pose proof (proj1 (filter_nil_iff _ _) Ef c Hin) as H.
      apply negb_false_iff, bool_decide_eq_true, Hplayed in H
        as (combo & Hk & Hc).
      now apply (Hout combo).
    + replace (0 <? length (c :: cs))%nat with true by reflexivity.
      cbn [length]. split; [lia|]. split; [|discriminate].
      intros _. split; [discriminate|].
      assert (Hc : In c (List.filter
                           (fun c => negb (bool_decide (c ∈ played)))
                           allColors))
        by (rewrite Ef; now left).
      apply filter_In in Hc as [Hin Hout].
      exists c. split; [now apply list_elem_of_In|].
      intros combo Hk Hchar.
      apply negb_true_iff, bool_decide_eq_false in Hout. apply Hout.
      apply Hplayed. now exists combo.
Qed.

(** ** The meta report *)

Section MetaReport.

Lemma append_nil_r (s : string) : s +:+ "" = s.
Proof.
  induction s as [|c s IH]; [reflexivity|].
  change (String c s +:+ "") with (String c (s +:+ "")). now rewrite IH.
Qed.

Lemma all_digits_ends d : d <> "" -> all_digits d = true -> ends_nonws d = true.
Proof.
  induction d as [|c d IH]; [congruence|]. intros _ H.
  cbn [all_digits] in H. apply andb_prop in H as [Hc Hd].
  destruct d as [|c' d'].
  - pose proof (leading_digit_starts (String c "") Hc) as H. exact H.
  - apply IH; [discriminate | exact Hd].
Qed.

Lemma remove_percent_digits d suffix :
  all_digits d = true -> In suffix [""; "%"] ->
  MetaAnalyzer.remove_percent (d +:+ suffix) = d.
Proof.
  intros Hd Hs. induction d as [|c d IH].
  - cbn [In] in Hs. destruct Hs as [<-|[<-|[]]]; reflexivity.
  - cbn [all_digits] in Hd. apply andb_prop in Hd as [Hc Hd].
    change (String c d +:+ suffix) with (String c (d +:+ suffix)).
    cbn [MetaAnalyzer.remove_percent].
    destruct (Ascii.eqb c "%") eqn:E.
    + apply Ascii.eqb_eq in E. subst c. discriminate Hc.
    + now rewrite (IH Hd).
Qed.

Lemma round_half_even_lower n d : n / d <= MetaAnalyzer.round_half_even n d.
Proof.
  unfold MetaAnalyzer.round_half_even.
  destruct (2 * (n mod d) <? d); [lia|].
  destruct (d <? 2 * (n mod d)); [lia|].
  destruct (Z.even (n / d)); lia.
Qed.

Lemma round_half_even_one n : MetaAnalyzer.round_half_even n 1 = n.
Proof.
  unfold MetaAnalyzer.round_half_even. rewrite Z.mod_1_r, Z.div_1_r.
  reflexivity.
Qed.

Lemma floor_log2_whole n : 0 < n -> MetaAnalyzer.floor_log2 n 1 = Z.log2 n.
Proof.
  intros Hn. unfold MetaAnalyzer.floor_log2, MetaAnalyzer.scaled.
  change (Z.log2 1) with 0. rewrite Z.sub_0_r.
  pose proof (Z.log2_nonneg n) as Hl.
  destruct (0 <=? Z.log2 n) eqn:E; [|apply Z.leb_gt in E; lia].
  pose proof (Z.log2_spec n Hn) as [Hlow _].
  destruct (n <? 1 * 2 ^ Z.log2 n) eqn:E2; [|reflexivity].
  apply Z.ltb_lt in E2. lia.
Qed.

Lemma nearest_binary64_whole n : 5 <= n ->
  match MetaAnalyzer.nearest_binary64 n 1 with
  | Some v => (5 <= v)%Q
  | None => True
  end.
Proof.
  intros Hn. unfold MetaAnalyzer.nearest_binary64.
  destruct (n =? 0) eqn:E0; [apply Z.eqb_eq in E0; lia|].
  rewrite (floor_log2_whole n) by lia.
  pose proof (Z.log2_spec n ltac:(lia)) as [Hlow Hhigh].
  assert (Hl : 2 <= Z.log2 n) by (apply Z.log2_le_pow2; lia).
  rewrite Z.max_l by lia.
  set (e := Z.log2 n - 52) in *.
  unfold MetaAnalyzer.scaled, MetaAnalyzer.dyadic.
  destruct (0 <=? e) eqn:Ee.
  - apply Z.leb_le in Ee.
    destruct ((971 <? e) || _); [exact I|].
    assert (Hp : 0 < 2 ^ e) by (apply Z.pow_pos_nonneg; lia).
    assert (Hm : 2 ^ 52 <= n / (1 * 2 ^ e)).
    { apply Z.div_le_lower_bound; [lia|].
      replace (Z.log2 n) with (e + 52) in Hlow by (unfold e; lia).
      rewrite Z.pow_add_r in Hlow by lia. lia. }
    pose proof (round_half_even_lower n (1 * 2 ^ e)) as Hr.
    unfold Qle. cbn [Qnum Qden inject_Z]. nia.
  - apply Z.leb_gt in Ee. rewrite round_half_even_one.
    destruct ((971 <? e) || _); [exact I|].
    assert (Hp : 0 < 2 ^ (- e)) by (apply Z.pow_pos_nonneg; lia).
    unfold Qle. cbn [Qnum Qden]. rewrite Z2Pos.id by exact Hp. nia.
Qed.

Lemma binary64_whole n :
  0 <= n ->
  MetaAnalyzer.binary64 (MetaAnalyzer.decimal false n 0)
  = match MetaAnalyzer.nearest_binary64 n 1 with
    | Some v => MetaAnalyzer.Finite v
    | None => MetaAnalyzer.Infinite false
    end.
Proof.
  intros Hn. unfold MetaAnalyzer.binary64, MetaAnalyzer.decimal.
  cbn [Qpower Qmult inject_Z Qnum Qden Pos.mul].
  rewrite Z.mul_1_r.
  destruct (n <? 0) eqn:E; [apply Z.ltb_lt in E; lia | reflexivity].
Qed.

(** A whole number is more than 0 and less than 5 as a Number exactly
    when it is 1, 2, 3 or 4. *)
Lemma whole_number_low n :
  0 <= n ->
  let x := MetaAnalyzer.binary64 (MetaAnalyzer.decimal false n 0) in
  negb (MetaAnalyzer.isNaN x) && MetaAnalyzer.gt_zero x
  && MetaAnalyzer.lt_five x
  = (1 <=? n) && (n <=? 4).
Proof.
  intros Hn. cbn zeta. rewrite (binary64_whole n Hn).
  destruct (Z.le_gt_cases 5 n) as [H5|H5].
  - pose proof (nearest_binary64_whole n H5) as Hv.
    replace (n <=? 4) with false by (symmetry; apply Z.leb_gt; lia).
    rewrite andb_false_r.
    destruct (MetaAnalyzer.nearest_binary64 n 1) as [v|].
    + cbn [MetaAnalyzer.isNaN negb andb MetaAnalyzer.lt_five].
      apply andb_false_intro2. unfold MetaAnalyzer.Qltb.
      apply negb_false_iff, Qle_bool_iff. exact Hv.
    + reflexivity.
  - assert (Hc : n = 0 \/ n = 1 \/ n = 2 \/ n = 3 \/ n = 4) by lia.
    destruct Hc as [->|[->|[->|[->| ->]]]]; vm_compute; reflexivity.
Qed.

(** [parseFloat] of a string of digits is the Number nearest to the
    number they write. *)
Lemma parseFloat_digits d :
  d <> "" -> all_digits d = true ->
  MetaAnalyzer.parseFloat d
  = MetaAnalyzer.binary64 (MetaAnalyzer.decimal false (parseInt d) 0).
Proof.
  intros Hne Hd.
  assert (Hlead : LineRegex.leading_digit d = true).
  { rewrite <- (append_nil_r d). now apply leading_digit_app. }
  unfold MetaAnalyzer.parseFloat.
  rewrite (trimStart_fixed d (leading_digit_starts d Hlead)).
  assert (Hspan : span_digits d = (d, "")).
  { rewrite <- (append_nil_r d) at 1. now apply span_digits_app. }
  destruct d as [|c d']; [congruence|].
  cbn [LineRegex.leading_digit] in Hlead.
  unfold MetaAnalyzer.take_sign.
  destruct (Ascii.eqb c "-") eqn:E1;
    [apply Ascii.eqb_eq in E1; subst c; discriminate Hlead|].
  destruct (Ascii.eqb c "+") eqn:E2;
    [apply Ascii.eqb_eq in E2; subst c; discriminate Hlead|].
  assert (Hinf : String.prefix "Infinity" (String c d') = false).
  { cbn [String.prefix]. destruct (ascii_dec "I" c) as [<-|_];
      [discriminate Hlead | reflexivity]. }
  rewrite Hinf, Hspan, append_nil_r. reflexivity.
Qed.

End MetaReport.

(** X25. A share written as a whole number of percent, with or without
    the percent sign, makes a deck a low-share deck exactly when the
    number is 1, 2, 3 or 4. *)
Theorem whole_number_share_is_low (n u d suffix : string) :
  d <> "" -> all_digits d = true -> In suffix [""; "%"] ->
  MetaAnalyzer.is_low_share
    (MetaAnalyzer.mkMetaDeck n u (Some (d +:+ suffix)))
  = (1 <=? parseInt d) && (parseInt d <=? 4).
Proof.
  intros Hne Hd Hs.
  unfold MetaAnalyzer.is_low_share, MetaAnalyzer.normalizedShare,
    MetaAnalyzer.shareStr.
  cbn [MetaAnalyzer.metaShare].
  assert (Ht : truthy_string (d +:+ suffix) = true).
  { destruct d as [|c d']; [congruence | reflexivity]. }
  rewrite Ht, (remove_percent_digits d suffix Hd Hs).
  assert (Htrim : trim d = d).
  { unfold trim. rewrite trimStart_fixed.
    - apply trimEnd_fixed. now apply all_digits_ends.
    - apply leading_digit_starts. rewrite <- (append_nil_r d).
      now apply leading_digit_app. }
  rewrite Htrim, (parseFloat_digits d Hne Hd).
  apply whole_number_low. unfold parseInt.
  apply (parse_digits_span d 0 d ""); [|lia].
  rewrite <- (append_nil_r d) at 1. now apply span_digits_app.
Qed.

Lemma whole_number_share_is_low_witness :
  MetaAnalyzer.is_low_share
    (MetaAnalyzer.mkMetaDeck "Deck" "/deck" (Some ("4" +:+ "%")))
  = (1 <=? parseInt "4") && (parseInt "4" <=? 4).
Proof.
  apply whole_number_share_is_low;
    [discriminate | reflexivity | cbn; tauto].
Defined.

(** X26. The parts of the report of [analyzeFormat] fit together:
    [topDecks] holds ten decks, or all of them when there are fewer; the
    popular tier, when there are three decks or more, is the names of the
    first three of [topDecks]; the summary has three lines when the
    popular tier is filled and two otherwise; and every emerging name is
    the name of a low-share deck of the input, which may lie beyond
    [topDecks]. *)
Theorem analyzeFormat_report (format now : string)
    (metaDecks : list MetaAnalyzer.MetaDeckRecord) :
  let a := MetaAnalyzer.analyzeFormat format now metaDecks in
  length (MetaAnalyzer.fa_topDecks a)
  = Nat.min 10 (MetaAnalyzer.fa_totalDecks a)
  /\ MetaAnalyzer.popular (MetaAnalyzer.fa_trends a)
     = (if (3 <=? MetaAnalyzer.fa_totalDecks a)%nat
        then map MetaAnalyzer.name (take 3 (MetaAnalyzer.fa_topDecks a))
        else [])
  /\ length (MetaAnalyzer.fa_summary a)
     = (if (3 <=? MetaAnalyzer.fa_totalDecks a)%nat then 3 else 2)%nat
  /\ (length (MetaAnalyzer.emerging (MetaAnalyzer.fa_trends a)) <= 3)%nat
  /\ forall n, n ∈ MetaAnalyzer.emerging (MetaAnalyzer.fa_trends a) ->
       exists d, d ∈ metaDecks /\ MetaAnalyzer.name d = n
                 /\ MetaAnalyzer.is_low_share d = true.
Proof.
  cbn zeta. unfold MetaAnalyzer.analyzeFormat.
  cbn [MetaAnalyzer.fa_topDecks MetaAnalyzer.fa_totalDecks
       MetaAnalyzer.fa_trends MetaAnalyzer.fa_summary].
  unfold MetaAnalyzer.identifyTrends.
  cbn [MetaAnalyzer.popular MetaAnalyzer.emerging].
  assert (Hem : (if (0 <? length (List.filter MetaAnalyzer.is_low_share
                                                metaDecks))%nat
                 then map MetaAnalyzer.name
                          (take 3 (List.filter MetaAnalyzer.is_low_share
                                               metaDecks))
                 else [])
                = map MetaAnalyzer.name
                      (take 3 (List.filter MetaAnalyzer.is_low_share
                                           metaDecks)))
    by now destruct (List.filter MetaAnalyzer.is_low_share metaDecks).
  rewrite Hem. split; [apply length_take|]. split; [|split; [|split]].
  - destruct (3 <=? length metaDecks)%nat; [|reflexivity].
    now rewrite take_take.
  - unfold MetaAnalyzer.generateMetaSummary.
    destruct metaDecks as [|d [|d2 [|d3 rest]]]; reflexivity.
  - rewrite length_map, length_take. lia.
  - intros n Hn. apply elem_of_map in Hn as (d & -> & Hd).
    apply (subseteq_take 3) in Hd.
    apply list_elem_of_In, filter_In in Hd as [Hd Hlow].
    exists d. split; [now apply list_elem_of_In | now split].
Qed.

(** X27. [compareDeckToMeta] reports a meta deck exactly when one of the
    first ten meta decks has a name that contains the commander of the
    deck, ignoring case; the position it reports is then that of the first
    such deck, counted from 1, and is at most 10. A deck without a
    commander is reported as the meta deck at position 1 whenever there
    is a meta deck at all. *)
Theorem compareDeckToMeta_position (deck : MetaAnalyzer.UserDeck)
    (format now : string) (metaDecks : list MetaAnalyzer.MetaDeckRecord) :
  let r := MetaAnalyzer.compareDeckToMeta deck format now metaDecks in
  let found d :=
    includes (toLowerCase (MetaAnalyzer.name d))
             (MetaAnalyzer.commander_query deck) = true in
  (MetaAnalyzer.isMetaDeck r = true
   <-> exists d, d ∈ take 10 metaDecks /\ found d)
  /\ match MetaAnalyzer.metaPosition r with
     | Some p =>
         MetaAnalyzer.isMetaDeck r = true
         /\ (1 <= p <= 10)%nat
         /\ (exists d, metaDecks !! (p - 1)%nat = Some d /\ found d)
         /\ forall j d, (j < p - 1)%nat -> metaDecks !! j = Some d ->
                        ~ found d
     | None => MetaAnalyzer.isMetaDeck r = false
     end
  /\ (MetaAnalyzer.deck_commander deck = None -> metaDecks <> [] ->
      MetaAnalyzer.metaPosition r = Some 1%nat)
  /\ length (MetaAnalyzer.suggestions r) = 2%nat.
Proof.
  cbn zeta. unfold MetaAnalyzer.compareDeckToMeta, MetaAnalyzer.analyzeFormat.
  cbn [MetaAnalyzer.fa_topDecks].
  destruct (list_find _ (take 10 metaDecks)) as [[i d]|] eqn:E;
    cbn [MetaAnalyzer.isMetaDeck MetaAnalyzer.metaPosition
         MetaAnalyzer.suggestions length].
  - apply list_find_Some in E as (Hi & Hd & Hbefore).
    apply lookup_take_Some in Hi as [Hi Hlt].
    split; [|split; [|split; [|reflexivity]]].
    + split; [|reflexivity]. intros _. exists d. split; [|exact Hd].
      apply list_elem_of_lookup. exists i. apply lookup_take_Some. now split.
    + replace (i + 1 - 1)%nat with i by lia.
      split; [reflexivity|]. split; [lia|]. split; [now exists d|].
      intros j d' Hj Hd'. apply (Hbefore j); [|exact Hj].
      apply lookup_take_Some. split; [exact Hd' | lia].
    + intros Hc _. destruct i as [|i]; [reflexivity|]. exfalso.
      destruct metaDecks as [|d0 rest]; [discriminate Hi|].
      apply (Hbefore 0%nat d0); [reflexivity | lia|].
      unfold MetaAnalyzer.commander_query. rewrite Hc.
      now destruct (toLowerCase (MetaAnalyzer.name d0)).
  - apply list_find_None in E.
    split; [|split; [|split; [|reflexivity]]].
    + split; [discriminate|]. intros (d & Hd & Hfound). exfalso.
      rewrite Forall_forall in E. now apply (E d).
    + reflexivity.
    + intros Hc Hne. exfalso. destruct metaDecks as [|d0 rest]; [congruence|].
      rewrite Forall_forall in E. apply (E d0); [left|].
      unfold MetaAnalyzer.commander_query. rewrite Hc.
      now destruct (toLowerCase (MetaAnalyzer.name d0)).
Qed.

Lemma compareDeckToMeta_position_witness :
  MetaAnalyzer.metaPosition
    (MetaAnalyzer.compareDeckToMeta
       (MetaAnalyzer.mkUserDeck (Some "My deck") None) "commander" "now"
       MetaAnalyzer.sample_meta)
  = Some 1%nat.
Proof.
  apply (compareDeckToMeta_position
           (MetaAnalyzer.mkUserDeck (Some "My deck") None) "commander" "now"
           MetaAnalyzer.sample_meta);
    [reflexivity | discriminate].
Defined.
